(** * Tiling and reconstruction core of raidionicsseg/Inference/predictions.py

    A shallow embedding of [run_predictions] and of its three strategies
    (whole volume, slabs, patches), together with the part of numpy's
    array semantics the strategies rely on, and the properties of the
    specification stated over that embedding.

    - Arrays are a shape and an element function; indexing, slice
      assignment, broadcasting, transposition and reshaping follow numpy,
      and raise where numpy raises.
    - The model is a function from its input array to the list of its
      outputs, or to nothing when the invocation raises.
    - A strategy is a computation over a world made of the configuration
      object, which the caller shares with the core, and of the inputs the
      model has been invoked on; it may raise.  [try ... except] turns any
      exception into the [ValueError] of the mode.
    - Logging and the [print] of the slab counter are left out. *)

From Stdlib Require Import String ZArith List Bool Lia Permutation.
From Stdlib Require Import QArith Qcanon.
Import ListNotations.
Local Open Scope Z_scope.

(** ** Values

    Array elements are IEEE doubles in the program.  The strategies only
    move them around, compare them with the constant 0.1 and take the
    larger of two, so they are modelled as exact rationals in canonical
    form (NaN and infinities are left out). *)

Definition val : Type := Qc.

Definition vzero : val := Q2Qc 0.
Definition vone : val := Q2Qc 1.

(** The constant [0.1] of lines 169 and 193: the double next to one
    tenth, 3602879701896397 / 2^55, which is a little above it. *)
Definition vtenth : val := Q2Qc (3602879701896397 # 36028797018963968).
Definition vofZ (z : Z) : val := Q2Qc (inject_Z z).

Definition vltb (x y : val) : bool :=
  match Qccompare x y with Lt => true | _ => false end.

(** numpy's [maximum] on two scalars. *)
Definition vmax (x y : val) : val := if vltb x y then y else x.

(** ** Arrays

    An n-dimensional array is its shape and its element function; indices
    are lists of integers, one per axis. *)

Record ndarray : Type := mk_array { shape : list Z; elt : list Z -> val }.

Definition ndim (a : ndarray) : nat := length (shape a).

Definition wf_shape (sh : list Z) : Prop := Forall (fun d => 0 <= d) sh.

(** Python's [range(lo, hi)]. *)
Definition range (lo hi : Z) : list Z :=
  map (fun k => lo + Z.of_nat k) (seq 0 (Z.to_nat (hi - lo))).

Definition prodZ (l : list Z) : Z := fold_right Z.mul 1 l.

(** All the indices of an array of shape [sh], in row-major order. *)
Fixpoint indices (sh : list Z) : list (list Z) :=
  match sh with
  | [] => [[]]
  | d :: sh' => flat_map (fun i => map (cons i) (indices sh')) (range 0 d)
  end.

Module Np.

(** [np.zeros(shape)]: a negative dimension raises. *)
Definition zeros (sh : list Z) : option ndarray :=
  if forallb (fun d => 0 <=? d) sh
  then Some (mk_array sh (fun _ => vzero))
  else None.

(** [np.expand_dims(a, axis=-1)] and [np.expand_dims(a, axis=0)]. *)
Definition expand_dims_last (a : ndarray) : ndarray :=
  mk_array (shape a ++ [1]) (fun idx => elt a (removelast idx)).

Definition expand_dims_first (a : ndarray) : ndarray :=
  mk_array (1 :: shape a) (fun idx => elt a (tl idx)).

(** *** Basic indexing *)

Inductive item : Type :=
| Slice (lo hi : option Z)   (* lo:hi, either bound possibly omitted *)
| At (i : Z).                (* an integer index *)

Definition All : item := Slice None None.
Definition Sl (lo hi : Z) : item := Slice (Some lo) (Some hi).
Definition From (lo : Z) : item := Slice (Some lo) None.
Definition Upto (hi : Z) : item := Slice None (Some hi).

(** A slice bound of Python: negative bounds count from the end, and
    bounds are clipped to the extent. *)
Definition slice_index (i dim : Z) : Z :=
  if i <? 0 then Z.max 0 (i + dim) else Z.min i dim.

Definition slice_bounds (lo hi : option Z) (dim : Z) : Z * Z :=
  let start := match lo with None => 0 | Some l => slice_index l dim end in
  let stop := match hi with None => dim | Some h => slice_index h dim end in
  (start, Z.max 0 (stop - start)).

(** What an index expression selects on each axis. *)
Inductive axis_sel : Type :=
| Span (start len : Z)
| Fixed (i : Z).

Fixpoint resolve (its : list item) (sh : list Z) : option (list axis_sel) :=
  match its, sh with
  | [], _ => Some (map (fun d => Span 0 d) sh)
  | _ :: _, [] => None
  | Slice lo hi :: its', d :: sh' =>
      let '(s, l) := slice_bounds lo hi d in
      option_map (cons (Span s l)) (resolve its' sh')
  | At i :: its', d :: sh' =>
      if (- d <=? i) && (i <? d)
      then option_map (cons (Fixed (if i <? 0 then i + d else i)))
                      (resolve its' sh')
      else None
  end.

Fixpoint sel_shape (sel : list axis_sel) : list Z :=
  match sel with
  | [] => []
  | Span _ l :: sel' => l :: sel_shape sel'
  | Fixed _ :: sel' => sel_shape sel'
  end.

(** From an index of the selected region to the index in the array. *)
Fixpoint sel_index (sel : list axis_sel) (idx : list Z) : list Z :=
  match sel with
  | [] => []
  | Span s _ :: sel' =>
      match idx with
      | i :: idx' => (s + i) :: sel_index sel' idx'
      | [] => s :: sel_index sel' []
      end
  | Fixed i :: sel' => i :: sel_index sel' idx
  end.

(** From an index in the array to the index of the region, when the
    region holds it. *)
Fixpoint sel_locate (sel : list axis_sel) (idx : list Z) : option (list Z) :=
  match sel, idx with
  | [], [] => Some []
  | Span s l :: sel', i :: idx' =>
      if (s <=? i) && (i <? s + l)
      then option_map (cons (i - s)) (sel_locate sel' idx')
      else None
  | Fixed k :: sel', i :: idx' =>
      if i =? k then sel_locate sel' idx' else None
  | _, _ => None
  end.

(** [a[items]] *)
Definition getitem (a : ndarray) (its : list item) : option ndarray :=
  match resolve its (shape a) with
  | Some sel =>
      Some (mk_array (sel_shape sel) (fun idx => elt a (sel_index sel idx)))
  | None => None
  end.

(** *** Broadcasting (shapes are compared from the last axis) *)

Fixpoint bc_ok_rev (vs ts : list Z) : bool :=
  match vs, ts with
  | [], _ => true
  | v :: vs', [] => (v =? 1) && bc_ok_rev vs' []
  | v :: vs', t :: ts' => ((v =? t) || (v =? 1)) && bc_ok_rev vs' ts'
  end.

Fixpoint bc_index_rev (vs idx : list Z) : list Z :=
  match vs with
  | [] => []
  | v :: vs' =>
      match idx with
      | [] => 0 :: bc_index_rev vs' []
      | i :: idx' => (if v =? 1 then 0 else i) :: bc_index_rev vs' idx'
      end
  end.

Definition bc_index (vs idx : list Z) : list Z :=
  rev (bc_index_rev (rev vs) (rev idx)).

(** The value of an assignment, seen with the shape of its target:
    axes of extent 1 are repeated, leading axes of extent 1 dropped. *)
Definition broadcast_to (v : ndarray) (target : list Z) : option ndarray :=
  if bc_ok_rev (rev (shape v)) (rev target)
  then Some (mk_array target (fun idx => elt v (bc_index (shape v) idx)))
  else None.

Fixpoint bshape_rev (s1 s2 : list Z) : option (list Z) :=
  match s1, s2 with
  | [], s => Some s
  | s, [] => Some s
  | a :: s1', b :: s2' =>
      if a =? b then option_map (cons a) (bshape_rev s1' s2')
      else if a =? 1 then option_map (cons b) (bshape_rev s1' s2')
      else if b =? 1 then option_map (cons a) (bshape_rev s1' s2')
      else None
  end.

(** [np.maximum(a, b)] *)
Definition maximum (a b : ndarray) : option ndarray :=
  match bshape_rev (rev (shape a)) (rev (shape b)) with
  | Some r =>
      Some (mk_array (rev r)
              (fun idx => vmax (elt a (bc_index (shape a) idx))
                               (elt b (bc_index (shape b) idx))))
  | None => None
  end.

(** [a[items] = v]; the array keeps its shape. *)
Definition setitem (a : ndarray) (its : list item) (v : ndarray)
  : option ndarray :=
  match resolve its (shape a) with
  | Some sel =>
      match broadcast_to v (sel_shape sel) with
      | Some vb =>
          Some (mk_array (shape a)
                  (fun idx => match sel_locate sel idx with
                              | Some r => elt vb r
                              | None => elt a idx
                              end))
      | None => None
      end
  | None => None
  end.

(** *** Transposition and reshaping *)

Definition is_perm (axes : list Z) (n : nat) : bool :=
  (length axes =? n)%nat
  && forallb (fun k => existsb (Z.eqb k) axes) (range 0 (Z.of_nat n)).

Fixpoint position (k : Z) (axes : list Z) : nat :=
  match axes with
  | [] => O
  | a :: axes' => if a =? k then O else S (position k axes')
  end.

(** [np.transpose(a, axes)]: axis [i] of the result is axis [axes[i]]
    of [a]. *)
Definition transpose (a : ndarray) (axes : list Z) : option ndarray :=
  if is_perm axes (ndim a)
  then Some (mk_array
               (map (fun k => nth (Z.to_nat k) (shape a) 0) axes)
               (fun idx => elt a (map (fun j => nth (position j axes) idx 0)
                                      (range 0 (Z.of_nat (ndim a))))))
  else None.

(** Row-major position of an index, and back. *)
Fixpoint ravel (idx sh : list Z) (acc : Z) : Z :=
  match idx, sh with
  | i :: idx', d :: sh' => ravel idx' sh' (acc * d + i)
  | _, _ => acc
  end.

Fixpoint unravel_rev (r : Z) (sh_rev : list Z) : list Z :=
  match sh_rev with
  | [] => []
  | d :: sh' => (r mod d) :: unravel_rev (r / d) sh'
  end.

Definition unravel (r : Z) (sh : list Z) : list Z :=
  rev (unravel_rev r (rev sh)).

(** The shape [np.reshape] gives for a request: one dimension may be
    -1 and is then inferred from the size. *)
Definition reshape_target (size : Z) (req : list Z) : option (list Z) :=
  match filter (fun d => d <? 0) req with
  | [] => if prodZ req =? size then Some req else None
  | [d] =>
      let p := prodZ (filter (fun d => 0 <=? d) req) in
      if (d =? -1) && negb (p =? 0) && (size mod p =? 0)
      then Some (map (fun d => if d <? 0 then size / p else d) req)
      else None
  | _ => None
  end.

(** [np.reshape(a, req)] *)
Definition reshape (a : ndarray) (req : list Z) : option ndarray :=
  match reshape_target (prodZ (shape a)) req with
  | Some sh =>
      Some (mk_array sh (fun idx => elt a (unravel (ravel idx sh 0) (shape a))))
  | None => None
  end.

(** [np.sum(a > t)]: how many elements exceed [t]. *)
Definition count_gt (a : ndarray) (t : val) : Z :=
  Z.of_nat (length (filter (fun idx => vltb t (elt a idx)) (indices (shape a)))).

(** [np.asarray] of a list of arrays, as [np.transpose] applies it to a
    list: the arrays are stacked along a new first axis; arrays of
    different shapes raise. *)
Definition asarray (l : list ndarray) : option ndarray :=
  match l with
  | [] => Some (mk_array [0] (fun _ => vzero))
  | a :: _ =>
      if forallb (fun b => if list_eq_dec Z.eq_dec (shape b) (shape a)
                           then true else false) l
      then Some (mk_array (Z.of_nat (length l) :: shape a)
                   (fun idx => match idx with
                               | i :: idx' => elt (nth (Z.to_nat i) l a) idx'
                               | [] => vzero
                               end))
      else None
  end.

(** Zero-filled padding, [pads] giving the amounts before and after
    each axis. *)
Fixpoint pad_locate (pads : list (Z * Z)) (sh idx : list Z) : option (list Z) :=
  match pads, sh, idx with
  | (f, _) :: pads', d :: sh', i :: idx' =>
      if (f <=? i) && (i <? f + d)
      then option_map (cons (i - f)) (pad_locate pads' sh' idx')
      else None
  | [], _, _ => Some idx
  | _, _, _ => None
  end.

Fixpoint pad_shape (pads : list (Z * Z)) (sh : list Z) : list Z :=
  match pads, sh with
  | (f, b) :: pads', d :: sh' => (f + d + b) :: pad_shape pads' sh'
  | _, _ => sh
  end.

Definition pad (a : ndarray) (pads : list (Z * Z)) : ndarray :=
  mk_array (pad_shape pads (shape a))
    (fun idx => match pad_locate pads (shape a) idx with
                | Some r => elt a r
                | None => vzero
                end).

End Np.

(** ** Configuration, model and effects *)

(** The fields of [ConfigResources] the core reads.  [new_axial_size] is
    a Python list or [None]; patch size and offset are sequences. *)
Record ConfigResources : Type := mk_config {
  new_axial_size : option (list Z);
  slicing_plane : string;
  training_slab_size : Z;
  training_patch_size : list Z;
  training_patch_offset : list Z;
  training_nb_classes : Z;
  predictions_non_overlapping : bool;
  swap_training_input : bool;
  fix_orientation : bool;
  training_deep_supervision : bool
}.

Definition with_new_axial_size (p : ConfigResources) (l : option (list Z))
  : ConfigResources :=
  mk_config l (slicing_plane p) (training_slab_size p) (training_patch_size p)
    (training_patch_offset p) (training_nb_classes p)
    (predictions_non_overlapping p) (swap_training_input p)
    (fix_orientation p) (training_deep_supervision p).

(** The configuration with another slicing plane. *)
Definition with_slicing_plane (p : ConfigResources) (plane : string) : ConfigResources :=
  mk_config (new_axial_size p) plane (training_slab_size p) (training_patch_size p)
    (training_patch_offset p) (training_nb_classes p)
    (predictions_non_overlapping p) (swap_training_input p)
    (fix_orientation p) (training_deep_supervision p).

(** [model.run(model_outputs, {"input": x})]: the list of output arrays,
    or nothing when the invocation raises. *)
Definition Model : Type := ndarray -> option (list ndarray).

(** What a call of the core can change or do: the configuration object,
    which the caller shares with the core, and the inputs the model has
    been invoked on so far, in order. *)
Record world : Type := mk_world {
  config : ConfigResources;
  calls : list ndarray
}.

(** Computations inside a [try] block: the world after, and the value
    unless an exception was raised. *)
Definition M (A : Type) : Type := world -> world * option A.

Definition ret {A} (a : A) : M A := fun w => (w, Some a).
Definition raise {A} : M A := fun w => (w, None).
Definition lift {A} (o : option A) : M A := fun w => (w, o).

Definition bind {A B} (m : M A) (f : A -> M B) : M B :=
  fun w => match m w with
           | (w', Some a) => f a w'
           | (w', None) => (w', None)
           end.

Declare Scope py_scope.
Delimit Scope py_scope with py.
Notation "x <- m ;; k" := (bind m (fun x => k))
  (at level 61, m at next level, right associativity) : py_scope.
Notation "' pat <- m ;; k" := (bind m (fun x => match x with pat => k end))
  (at level 61, pat pattern, m at next level, right associativity) : py_scope.
Local Open Scope py_scope.

Definition get_parameters : M ConfigResources := fun w => (w, Some (config w)).

(** In-place update of the list [parameters.new_axial_size]. *)
Definition store_new_axial_size (l : list Z) : M unit :=
  fun w => (mk_world (with_new_axial_size (config w) (Some l)) (calls w), Some tt).

Definition run (model : Model) (input : ndarray) : M (list ndarray) :=
  fun w => (mk_world (config w) (calls w ++ [input]), model input).

(** A [for] loop over [l] that updates the loop-carried value. *)
Fixpoint for_each {S} (l : list Z) (body : Z -> S -> M S) (s : S) : M S :=
  match l with
  | [] => ret s
  | i :: l' => s' <- body i s ;; for_each l' body s'
  end.

(** Exceptions that leave the core, and the outcome of a call. *)
Inductive exn : Type :=
| ValueError (msg : string)
| IndexError.

Inductive outcome (A : Type) : Type :=
| Returned (a : A)
| Raised (e : exn).
Arguments Returned {A} a.
Arguments Raised {A} e.

Definition mode_message (mode : string) : string :=
  ("Segmentation inference (" ++ mode ++ " mode) could not fully proceed.")%string.

(** [try: ... except Exception: raise ValueError(...)] around a strategy. *)
Definition try_mode {A} (mode : string) (m : M A) : world -> world * outcome A :=
  fun w => match m w with
           | (w', Some a) => (w', Returned a)
           | (w', None) => (w', Raised (ValueError (mode_message mode)))
           end.

(** ** Python values a model result passes through *)

Inductive pyval : Type :=
| PList (l : list ndarray)
| PArr (a : ndarray).

(** [v[0]] *)
Definition first (v : pyval) : option pyval :=
  match v with
  | PList (a :: _) => Some (PArr a)
  | PList [] => None
  | PArr a => option_map PArr (Np.getitem a [Np.At 0])
  end.

(** [v.shape[-1]]; a list has no shape. *)
Definition shape_last (v : pyval) : option Z :=
  match v with
  | PList _ => None
  | PArr a => match rev (shape a) with d :: _ => Some d | [] => None end
  end.

(** [v[items]] with a tuple of items; a list does not take one. *)
Definition pygetitem (v : pyval) (its : list Np.item) : option ndarray :=
  match v with
  | PList _ => None
  | PArr a => Np.getitem a its
  end.

(** [np.transpose(v, axes)] *)
Definition pytranspose (v : pyval) (axes : list Z) : option pyval :=
  match v with
  | PList l => match Np.asarray l with
               | Some a => option_map PArr (Np.transpose a axes)
               | None => None
               end
  | PArr a => option_map PArr (Np.transpose a axes)
  end.

Definition as_array (v : pyval) : option ndarray :=
  match v with PArr a => Some a | PList _ => None end.

(** [if deep_supervision: pred = pred[0]] *)
Definition unwrap (deep_supervision : bool) (outs : list ndarray) : M pyval :=
  if deep_supervision then lift (first (PList outs)) else ret (PList outs).

(** ** Arithmetic of the loop bounds *)

(** [ceil(a / b)] on integers; a zero divisor raises.  The program goes
    through a double, exact for the extents an array can have. *)
Definition ceil_div (a b : Z) : option Z :=
  if b =? 0 then None else Some (- ((- a) / b)).

(** [int(slab_size / 2)] *)
Definition half_of (slab_size : Z) : Z := Z.quot slab_size 2.

(** ** Padding utilities

    The three functions of [raidionicsseg/Utils/volume_utilities.py]
    that the strategies call are modelled from the specification. *)

(** Modelled from the spec: the slicing axis the padding functions work
    on (axis 0 for sagittal, axis 1 for coronal, axis 2 otherwise). *)
Definition plane_axis (plane : string) : nat :=
  if String.eqb plane "sagittal" then 0%nat
  else if String.eqb plane "coronal" then 1%nat
  else 2%nat.

(** Padding amounts that leave every axis but one as it is. *)
Definition pads_on_axis (axis : nat) (before after : Z) : list (Z * Z) :=
  repeat (0, 0) axis ++ [(before, after)].

(** Modelled from the spec: [padding_for_inference] is missing.  Tail
    padding: zeros are added at the trailing end of the slicing axis so
    that the extent is divisible by [slab_size]; the padded volume and
    the amount are returned. *)
Definition padding_for_inference (data : ndarray) (slab_size : Z) (plane : string)
  : option (ndarray * Z) :=
  match nth_error (shape data) (plane_axis plane) with
  | Some d =>
      if slab_size <=? 0 then None
      else let pad_value := (slab_size - d mod slab_size) mod slab_size in
           Some (Np.pad data (pads_on_axis (plane_axis plane) 0 pad_value), pad_value)
  | None => None
  end.

(** Modelled from the spec: [padding_for_inference_both_ends] is missing.
    [slab_size/2] zeros are added at both ends of the slicing axis. *)
Definition padding_for_inference_both_ends (data : ndarray) (slab_size : Z)
  (plane : string) : option ndarray :=
  match nth_error (shape data) (plane_axis plane) with
  | Some _ =>
      if half_of slab_size <? 0 then None
      else Some (Np.pad data (pads_on_axis (plane_axis plane)
                                (half_of slab_size) (half_of slab_size)))
  | None => None
  end.

(** Modelled from the spec: the symmetric padding of an axis of extent
    [d] up to the patch size [p], half of the missing extent before and
    the rest after. *)
Definition pad_amounts (d p : Z) : Z * Z :=
  let diff := Z.max 0 (p - d) in (diff / 2, diff - diff / 2).

(** Modelled from the spec: [padding_for_inference_both_ends_patchwise] is
    missing.  Each of the three axes shorter than the patch is padded with
    zeros on both ends so that it is at least the patch size; the padded
    volume is returned with the six amounts (before and after, axis by
    axis). *)

Definition padding_for_inference_both_ends_patchwise (data : ndarray)
  (patch_size : list Z) : option (ndarray * list Z) :=
  match shape data, patch_size with
  | [d0; d1; d2], p0 :: p1 :: p2 :: _ =>
      let '(f0, b0) := pad_amounts d0 p0 in
      let '(f1, b1) := pad_amounts d1 p1 in
      let '(f2, b2) := pad_amounts d2 p2 in
      Some (Np.pad data [(f0, b0); (f1, b1); (f2, b2)], [f0; b0; f1; b1; f2; b2])
  | _, _ => None
  end.

(** ** The strategies *)

Definition is_plane (plane name : string) : bool := String.eqb plane name.

(** *** Whole volume *)

(** The model is invoked inside the [try]; [predictions[0][0]] is taken
    after it, so an error there leaves as it is. *)
Definition __run_predictions_whole (data : ndarray) (model : Model)
  (deep_supervision : bool) : world -> world * outcome ndarray :=
  fun w =>
    match try_mode "whole"
            (let data_prep := Np.expand_dims_first data in
             let data_prep := Np.expand_dims_last data_prep in
             run model data_prep) w with
    | (w', Returned predictions) =>
        match first (PList predictions) with
        | Some p0 =>
            match first p0 with
            | Some (PArr r) => (w', Returned r)
            | _ => (w', Raised IndexError)
            end
        | None => (w', Raised IndexError)
        end
    | (w', Raised e) => (w', Raised e)
    end.

(** *** Slabs *)

(** The slab cut out of [data] for the slices [lo:hi] of the slicing
    axis, the slicing axis moved last. *)
Definition extract_slab (data : ndarray) (plane : string) (lo hi : Z)
  : M ndarray :=
  if is_plane plane "axial" then
    lift (Np.getitem data [Np.All; Np.All; Np.Sl lo hi; Np.At 0])
  else if is_plane plane "sagittal" then
    tmp <- lift (Np.getitem data [Np.Sl lo hi; Np.All; Np.All; Np.At 0]) ;;
    lift (Np.transpose tmp [1; 2; 0])
  else if is_plane plane "coronal" then
    tmp <- lift (Np.getitem data [Np.All; Np.Sl lo hi; Np.All; Np.At 0]) ;;
    lift (Np.transpose tmp [0; 2; 1])
  else raise.

(** Lines 141-150 and 152-161: the write of class [c] of a chunk, the
    slices [sl] of the slicing axis receiving the first [keep] slices of
    the prediction. *)
Definition write_chunk (final_result : ndarray) (plane : string)
  (sl : Np.item) (keep : Z) (pred : pyval) (c : Z) : M ndarray :=
  if is_plane plane "axial" then
    p0 <- lift (first pred) ;;
    v <- lift (pygetitem p0 [Np.All; Np.All; Np.Upto keep; Np.At c]) ;;
    lift (Np.setitem final_result [Np.All; Np.All; sl; Np.At c] v)
  else if is_plane plane "sagittal" then
    p0 <- lift (first pred) ;;
    v <- lift (pygetitem p0 [Np.All; Np.All; Np.Upto keep; Np.At c]) ;;
    v <- lift (Np.transpose v [2; 0; 1]) ;;
    lift (Np.setitem final_result [sl; Np.All; Np.All; Np.At c] v)
  else if is_plane plane "coronal" then
    p0 <- lift (first pred) ;;
    v <- lift (pygetitem p0 [Np.All; Np.All; Np.Upto keep; Np.At c]) ;;
    v <- lift (Np.transpose v [0; 2; 1]) ;;
    lift (Np.setitem final_result [Np.All; sl; Np.All; Np.At c] v)
  else ret final_result.

(** Lines 117-164: one chunk of the non-overlapping tiling.  The loop
    carries [final_result] and the flag [unpad]. *)
Definition nonoverlapping_chunk (data : ndarray) (model : Model)
  (parameters : ConfigResources) (deep_supervision : bool)
  (pad_value scale : Z) (chunk : Z) (st : ndarray * bool) : M (ndarray * bool) :=
  let '(final_result, unpad) := st in
  let slicing_plane := slicing_plane parameters in
  let slab_size := training_slab_size parameters in
  let unpad := if (chunk =? scale - 1) && negb (pad_value =? 0) then true else unpad in
  slab_CT <- extract_slab data slicing_plane (chunk * slab_size) ((chunk + 1) * slab_size) ;;
  let slab_CT := Np.expand_dims_last (Np.expand_dims_first slab_CT) in
  slab_CT <- (if fix_orientation parameters
              then lift (Np.transpose slab_CT [0; 3; 1; 2; 4]) else ret slab_CT) ;;
  outs <- run model slab_CT ;;
  slab_CT_pred <- unwrap deep_supervision outs ;;
  slab_CT_pred <- (if fix_orientation parameters
                   then lift (pytranspose slab_CT_pred [0; 2; 3; 1; 4])
                   else ret slab_CT_pred) ;;
  nc <- lift (shape_last slab_CT_pred) ;;
  final_result <-
    for_each (range 0 nc)
      (fun c final_result =>
         if negb unpad then
           write_chunk final_result slicing_plane
             (Np.Sl (chunk * slab_size) ((chunk + 1) * slab_size))
             slab_size slab_CT_pred c
         else
           write_chunk final_result slicing_plane
             (Np.From (chunk * slab_size))
             (slab_size - pad_value) slab_CT_pred c)
      final_result ;;
  ret (final_result, unpad).

(** Lines 167-176: one slice of the sliding window of thickness 1. *)
Definition single_slice (data : ndarray) (model : Model)
  (new_axial_size : option (list Z)) (deep_supervision : bool)
  (slice : Z) (final_result : ndarray) : M ndarray :=
  slab_CT <- lift (Np.getitem data [Np.All; Np.All; Np.At slice; Np.At 0]) ;;
  if Np.count_gt slab_CT vtenth =? 0 then ret final_result
  else
    nas <- lift new_axial_size ;;
    n0 <- lift (nth_error nas 0) ;;
    n1 <- lift (nth_error nas 1) ;;
    input <- lift (Np.reshape slab_CT [1; n0; n1; 1]) ;;
    outs <- run model input ;;
    slab_CT_pred <- unwrap deep_supervision outs ;;
    nc <- lift (shape_last slab_CT_pred) ;;
    for_each (range 0 nc)
      (fun c final_result =>
         v <- lift (pygetitem slab_CT_pred [Np.All; Np.All; Np.At c]) ;;
         lift (Np.setitem final_result [Np.All; Np.All; Np.At slice; Np.At c] v))
      final_result.

(** Lines 204-211: the write of the central slice of a window. *)
Definition write_center (final_result : ndarray) (plane : string)
  (slice half_slab_size : Z) (pred : pyval) (c : Z) : M ndarray :=
  if is_plane plane "axial" then
    p0 <- lift (first pred) ;;
    v <- lift (pygetitem p0 [Np.All; Np.All; Np.At half_slab_size; Np.At c]) ;;
    lift (Np.setitem final_result
            [Np.All; Np.All; Np.At (slice - half_slab_size); Np.At c] v)
  else if is_plane plane "sagittal" then
    p0 <- lift (first pred) ;;
    v <- lift (pygetitem p0 [Np.All; Np.All; Np.At half_slab_size; Np.At c]) ;;
    lift (Np.setitem final_result [Np.At slice; Np.All; Np.All; Np.At c] v)
  else if is_plane plane "coronal" then
    p0 <- lift (first pred) ;;
    v <- lift (pygetitem p0 [Np.All; Np.All; Np.At half_slab_size; Np.At c]) ;;
    lift (Np.setitem final_result [Np.All; Np.At slice; Np.All; Np.At c] v)
  else ret final_result.

(** Lines 183-192: the window of a slice, reshaped for the model. *)
Definition window_input (data : ndarray) (plane : string)
  (new_axial_size : option (list Z)) (slab_size half_slab_size slice : Z)
  : M ndarray :=
  slab_CT <- extract_slab data plane (slice - half_slab_size) (slice + half_slab_size) ;;
  nas <- lift new_axial_size ;;
  n0 <- lift (nth_error nas 0) ;;
  n1 <- lift (nth_error nas 1) ;;
  lift (Np.reshape slab_CT [1; n0; n1; slab_size; 1]).

(** Lines 182-214: one slice of the sliding window of thickness > 1. *)
Definition window_slice (data : ndarray) (model : Model)
  (parameters : ConfigResources) (new_axial_size : option (list Z))
  (deep_supervision : bool) (half_slab_size : Z)
  (slice : Z) (final_result : ndarray) : M ndarray :=
  let slicing_plane := slicing_plane parameters in
  let slab_size := training_slab_size parameters in
  slab_CT <- window_input data slicing_plane new_axial_size slab_size
               half_slab_size slice ;;
  if Np.count_gt slab_CT vtenth =? 0 then ret final_result
  else
    slab_CT <- (if fix_orientation parameters
                then lift (Np.transpose slab_CT [0; 3; 1; 2; 4]) else ret slab_CT) ;;
    outs <- run model slab_CT ;;
    slab_CT_pred <- unwrap deep_supervision outs ;;
    slab_CT_pred <- (if fix_orientation parameters
                     then lift (pytranspose slab_CT_pred [0; 2; 3; 1; 4])
                     else ret slab_CT_pred) ;;
    nc <- lift (shape_last slab_CT_pred) ;;
    for_each (range 0 nc)
      (fun c final_result =>
         write_center final_result slicing_plane slice half_slab_size slab_CT_pred c)
      final_result.

(** Lines 97-100: the two entries of [new_axial_size] are swapped in the
    list itself, which is the list the configuration holds. *)
Definition swap_new_axial_size (parameters : ConfigResources)
  : M (option (list Z)) :=
  if swap_training_input parameters then
    match new_axial_size parameters with
    | Some (a :: b :: rest) =>
        _ <- store_new_axial_size (b :: a :: rest) ;;
        ret (Some (b :: a :: rest))
    | _ => raise
    end
  else ret (new_axial_size parameters).

(** Lines 102-106. *)
Definition upper_boundary_of (data : ndarray) (plane : string) : M Z :=
  upper_boundary <- lift (nth_error (shape data) 2) ;;
  if is_plane plane "sagittal" then lift (nth_error (shape data) 0)
  else if is_plane plane "coronal" then lift (nth_error (shape data) 1)
  else ret upper_boundary.

Definition slabbed_steps (parameters : ConfigResources) (data : ndarray)
  (model : Model) (deep_supervision : bool) : M ndarray :=
  let slicing_plane := slicing_plane parameters in
  let slab_size := training_slab_size parameters in
  new_axial_size <- swap_new_axial_size parameters ;;
  upper_boundary <- upper_boundary_of data slicing_plane ;;
  final_result <- lift (Np.zeros (shape data ++ [training_nb_classes parameters])) ;;
  let data := Np.expand_dims_last data in
  if predictions_non_overlapping parameters then
    '(data, pad_value) <- lift (padding_for_inference data slab_size slicing_plane) ;;
    scale <- lift (ceil_div upper_boundary slab_size) ;;
    st <- for_each (range 0 scale)
            (nonoverlapping_chunk data model parameters deep_supervision
               pad_value scale)
            (final_result, false) ;;
    ret (fst st)
  else if slab_size =? 1 then
    n <- lift (nth_error (shape data) 2) ;;
    for_each (range 0 n)
      (single_slice data model new_axial_size deep_supervision)
      final_result
  else
    data <- lift (padding_for_inference_both_ends data slab_size slicing_plane) ;;
    let half_slab_size := half_of slab_size in
    for_each (range half_slab_size upper_boundary)
      (window_slice data model parameters new_axial_size deep_supervision
         half_slab_size)
      final_result.

(** [parameters] is the configuration object of the caller. *)
Definition slabbed_body (data : ndarray) (model : Model)
  (deep_supervision : bool) : M ndarray :=
  parameters <- get_parameters ;;
  slabbed_steps parameters data model deep_supervision.

Definition __run_predictions_slabbed (data : ndarray) (model : Model)
  (deep_supervision : bool) : world -> world * outcome ndarray :=
  try_mode "slab" (slabbed_body data model deep_supervision).

(** *** Patches *)

(** Lines 246-251 (and the same for the two other axes): a patch whose
    upper boundary reaches the extent is moved back by the overflow; the
    patch is given up when its lower boundary would then be negative. *)
Definition shift_boundaries (b : Z * Z) (extent : Z) : option (Z * Z) :=
  let '(lo, hi) := b in
  if hi >=? extent then
    let diff := Z.abs (extent - hi) in
    let new_b := (lo - diff, hi - diff) in
    if fst new_b <? 0 then None else Some new_b
  else Some (lo, hi).

(** Lines 242-244: the boundaries of grid index [i] before any shift. *)
Definition patch_boundaries (i size offset : Z) : Z * Z :=
  (i * (size - offset), i * (size - offset) + size).

(** The number of grid steps along one axis (lines 236-238). *)
Definition patch_steps (data : ndarray) (patch_size patch_offset : list Z)
  (axis : nat) : option Z :=
  match nth_error (shape data) axis, nth_error patch_size axis,
        nth_error patch_offset axis with
  | Some d, Some p, Some o => ceil_div d (p - o)
  | _, _, _ => None
  end.

(** Lines 267-268: the region of a patch in the volume. *)
Definition patch_region (bx by_ bz : Z * Z) : list Np.item :=
  [Np.Sl (fst bx) (snd bx); Np.Sl (fst by_) (snd by_); Np.Sl (fst bz) (snd bz)].

(** Lines 272-273 and the [patch_pred[0]] of line 278: the prediction
    taken from what the model returned. *)
Definition patch_prediction (deep_supervision : bool) (outs : list ndarray)
  : option ndarray :=
  match (if deep_supervision then first (PList outs) else Some (PList outs)) with
  | Some patch_pred =>
      match first patch_pred with
      | Some p0 => as_array p0
      | None => None
      end
  | None => None
  end.

(** Lines 275-281: the prediction is written over its region, each
    element the larger of the prediction and of what the region held. *)
Definition merge_patch (final_result : ndarray) (region : list Np.item)
  (pred : ndarray) : option ndarray :=
  match Np.getitem final_result region with
  | Some old =>
      match Np.maximum pred old with
      | Some new => Np.setitem final_result region new
      | None => None
      end
  | None => None
  end.

(** Lines 267-281: inference on one patch and the write of its result. *)
Definition predict_patch (data : ndarray) (model : Model)
  (deep_supervision : bool) (bx by_ bz : Z * Z) (final_result : ndarray)
  : M ndarray :=
  let region := patch_region bx by_ bz in
  patch <- lift (Np.getitem data region) ;;
  let model_input := Np.expand_dims_first patch in
  outs <- run model model_input ;;
  p0 <- lift (patch_prediction deep_supervision outs) ;;
  lift (merge_patch final_result (region ++ [Np.All]) p0).

(** Lines 239-281: the body of the innermost loop. *)
Definition patch_body (data : ndarray) (model : Model)
  (patch_size patch_offset : list Z) (deep_supervision : bool)
  (x y z : Z) (final_result : ndarray) : M ndarray :=
  px <- lift (nth_error patch_size 0) ;;
  ox <- lift (nth_error patch_offset 0) ;;
  py <- lift (nth_error patch_size 1) ;;
  oy <- lift (nth_error patch_offset 1) ;;
  pz <- lift (nth_error patch_size 2) ;;
  oz <- lift (nth_error patch_offset 2) ;;
  let patch_boundaries_x := patch_boundaries x px ox in
  let patch_boundaries_y := patch_boundaries y py oy in
  let patch_boundaries_z := patch_boundaries z pz oz in
  d0 <- lift (nth_error (shape data) 0) ;;
  match shift_boundaries patch_boundaries_x d0 with
  | None => ret final_result
  | Some patch_boundaries_x =>
      d1 <- lift (nth_error (shape data) 1) ;;
      match shift_boundaries patch_boundaries_y d1 with
      | None => ret final_result
      | Some patch_boundaries_y =>
          d2 <- lift (nth_error (shape data) 2) ;;
          match shift_boundaries patch_boundaries_z d2 with
          | None => ret final_result
          | Some patch_boundaries_z =>
              predict_patch data model deep_supervision patch_boundaries_x
                patch_boundaries_y patch_boundaries_z final_result
          end
      end
  end.

(** Lines 282-284: the padding is cut off. *)
Definition strip_padding (final_result : ndarray) (extra_dims : list Z)
  : option ndarray :=
  match shape final_result, extra_dims with
  | s0 :: s1 :: s2 :: _, [e0; e1; e2; e3; e4; e5] =>
      Np.getitem final_result
        [Np.Sl e0 (s0 - e1); Np.Sl e2 (s1 - e3); Np.Sl e4 (s2 - e5); Np.All]
  | _, _ => None
  end.

Definition patch_loops (data : ndarray) (model : Model)
  (patch_size patch_offset : list Z) (deep_supervision : bool)
  (final_result : ndarray) : M ndarray :=
  nx <- lift (patch_steps data patch_size patch_offset 0) ;;
  for_each (range 0 nx)
    (fun x final_result =>
       ny <- lift (patch_steps data patch_size patch_offset 1) ;;
       for_each (range 0 ny)
         (fun y final_result =>
            nz <- lift (patch_steps data patch_size patch_offset 2) ;;
            for_each (range 0 nz)
              (patch_body data model patch_size patch_offset deep_supervision x y)
              final_result)
         final_result)
    final_result.

Definition patch_mode_steps (parameters : ConfigResources) (data : ndarray)
  (model : Model) (deep_supervision : bool) : M ndarray :=
  let patch_size := training_patch_size parameters in
  let patch_offset := training_patch_offset parameters in
  '(data, extra_dims) <- lift (padding_for_inference_both_ends_patchwise data patch_size) ;;
  final_result <- lift (Np.zeros (shape data ++ [training_nb_classes parameters])) ;;
  let data := Np.expand_dims_last data in
  final_result <- patch_loops data model patch_size patch_offset deep_supervision
                    final_result ;;
  lift (strip_padding final_result extra_dims).

Definition patch_mode_body (data : ndarray) (model : Model)
  (deep_supervision : bool) : M ndarray :=
  parameters <- get_parameters ;;
  patch_mode_steps parameters data model deep_supervision.

Definition __run_predictions_patch (data : ndarray) (model : Model)
  (deep_supervision : bool) : world -> world * outcome ndarray :=
  try_mode "patch" (patch_mode_body data model deep_supervision).

(** *** Mode selection

    The model is taken as loaded: opening the session and reading the
    names of its outputs are outside the core. *)
Inductive mode : Type := Whole | Slab | Patch.

Definition truthy (l : option (list Z)) : bool :=
  match l with Some (_ :: _) => true | _ => false end.

Definition len (l : option (list Z)) : nat :=
  match l with Some l => length l | None => O end.

Definition selected_mode (parameters : ConfigResources) : mode :=
  if truthy (new_axial_size parameters) && (len (new_axial_size parameters) =? 3)%nat
  then Whole
  else if truthy (new_axial_size parameters) && (len (new_axial_size parameters) =? 2)%nat
  then Slab
  else Patch.

Definition mode_name (m : mode) : string :=
  match m with Whole => "whole" | Slab => "slab" | Patch => "patch" end.

Definition run_predictions (data : ndarray) (model : Model)
  : world -> world * outcome ndarray :=
  fun w =>
    let parameters := config w in
    match selected_mode parameters with
    | Whole => __run_predictions_whole data model
                 (training_deep_supervision parameters) w
    | Slab => __run_predictions_slabbed data model
                (training_deep_supervision parameters) w
    | Patch => __run_predictions_patch data model
                 (training_deep_supervision parameters) w
    end.

(** A fresh call: the configuration as the caller holds it, no model
    invocation yet. *)
Definition start (parameters : ConfigResources) : world := mk_world parameters [].

(** ** The patch strategy, cell by cell *)

(** The largest of the values of [l] and of [init]. *)
Definition vmax_list (l : list val) (init : val) : val := fold_right vmax init l.

(** The largest value of a list that has one. *)
Definition maximum_of (l : list val) : option val :=
  match l with
  | [] => None
  | v :: l' => Some (vmax_list l' v)
  end.

Definition in_bounds (r sh : list Z) : Prop := Forall2 (fun i d => 0 <= i < d) r sh.

(** The value a prediction holds for voxel [idx] of a volume of shape
    [sh] when the prediction is written over [region]; none outside the
    region. *)
Definition predicted_at (sh : list Z) (region : list Np.item) (pred : ndarray)
  (idx : list Z) : option val :=
  match Np.resolve region sh with
  | Some sel =>
      match Np.bshape_rev (rev (shape pred)) (rev (Np.sel_shape sel)) with
      | Some rs =>
          option_map
            (fun r => elt pred (Np.bc_index (shape pred) (Np.bc_index (rev rs) r)))
            (Np.sel_locate sel idx)
      | None => None
      end
  | None => None
  end.

Definition raise_to (v : option val) (old : val) : val :=
  match v with Some v => vmax v old | None => old end.

(** A cell of the grid: the indices (x, y, z) of the three loops. *)
Definition cell : Type := (Z * Z * Z)%type.

(** What the loop body does for a cell before it writes: the cell is
    given up, or a prediction is to be written over a region. *)
Inductive cell_action : Type :=
| Skip
| Write (region : list Np.item) (pred : ndarray).

Definition cell_boundaries (data : ndarray) (patch_size patch_offset : list Z)
  (axis : nat) (i : Z) : option (option (Z * Z)) :=
  match nth_error patch_size axis, nth_error patch_offset axis,
        nth_error (shape data) axis with
  | Some p, Some o, Some d => Some (shift_boundaries (patch_boundaries i p o) d)
  | _, _, _ => None
  end.

Definition cell_patch (data : ndarray) (model : Model)
  (patch_size patch_offset : list Z) (deep_supervision : bool) (c : cell)
  : option cell_action :=
  let '(x, y, z) := c in
  match cell_boundaries data patch_size patch_offset 0 x,
        cell_boundaries data patch_size patch_offset 1 y,
        cell_boundaries data patch_size patch_offset 2 z with
  | Some None, Some _, Some _ => Some Skip
  | Some (Some bx), Some None, Some _ => Some Skip
  | Some (Some bx), Some (Some by_), Some None => Some Skip
  | Some (Some bx), Some (Some by_), Some (Some bz) =>
      match Np.getitem data (patch_region bx by_ bz) with
      | Some patch =>
          match model (Np.expand_dims_first patch) with
          | Some outs =>
              match patch_prediction deep_supervision outs with
              | Some p0 => Some (Write (patch_region bx by_ bz ++ [Np.All]) p0)
              | None => None
              end
          | None => None
          end
      | None => None
      end
  | _, _, _ => None
  end.

(** The volume after the body has run for a cell, if it returns. *)
Definition cell_step (data : ndarray) (model : Model)
  (patch_size patch_offset : list Z) (deep_supervision : bool) (c : cell)
  (fr : ndarray) : option ndarray :=
  match cell_patch data model patch_size patch_offset deep_supervision c with
  | Some Skip => Some fr
  | Some (Write region pred) => merge_patch fr region pred
  | None => None
  end.

(** The loop body run on a list of cells, in the order of the list. *)
Fixpoint process_cells (data : ndarray) (model : Model)
  (patch_size patch_offset : list Z) (deep_supervision : bool)
  (cells : list cell) (fr : ndarray) : M ndarray :=
  match cells with
  | [] => ret fr
  | (x, y, z) :: rest =>
      bind (patch_body data model patch_size patch_offset deep_supervision x y z fr)
           (process_cells data model patch_size patch_offset deep_supervision rest)
  end.

Fixpoint fold_cells (data : ndarray) (model : Model)
  (patch_size patch_offset : list Z) (deep_supervision : bool)
  (cells : list cell) (fr : ndarray) : option ndarray :=
  match cells with
  | [] => Some fr
  | c :: rest =>
      match cell_step data model patch_size patch_offset deep_supervision c fr with
      | Some fr' =>
          fold_cells data model patch_size patch_offset deep_supervision rest fr'
      | None => None
      end
  end.

(** The value the patch of a cell predicts for voxel [idx], when the
    patch covers it. *)
Definition cell_value (data : ndarray) (model : Model)
  (patch_size patch_offset : list Z) (deep_supervision : bool)
  (sh : list Z) (c : cell) (idx : list Z) : option val :=
  match cell_patch data model patch_size patch_offset deep_supervision c with
  | Some (Write region pred) => predicted_at sh region pred idx
  | _ => None
  end.

(** The values predicted for voxel [idx] by the patches that cover it. *)
Definition covering_predictions (data : ndarray) (model : Model)
  (patch_size patch_offset : list Z) (deep_supervision : bool)
  (sh : list Z) (cells : list cell) (idx : list Z) : list val :=
  flat_map (fun c => match cell_value data model patch_size patch_offset
                             deep_supervision sh c idx with
                     | Some v => [v]
                     | None => []
                     end) cells.

(** The cells in the order of the three nested loops. *)
Definition grid (nx ny nz : Z) : list cell :=
  flat_map (fun x => flat_map (fun y => map (fun z => (x, y, z)) (range 0 nz))
                              (range 0 ny))
           (range 0 nx).

Definition steps_or_zero (data : ndarray) (patch_size patch_offset : list Z)
  (axis : nat) : Z :=
  match patch_steps data patch_size patch_offset axis with
  | Some n => n
  | None => 0
  end.

Definition patch_grid (data : ndarray) (patch_size patch_offset : list Z)
  : list cell :=
  grid (steps_or_zero data patch_size patch_offset 0)
       (steps_or_zero data patch_size patch_offset 1)
       (steps_or_zero data patch_size patch_offset 2).

(** The voxel of the padded volume that holds voxel [idx] of the volume. *)
Definition padded_voxel (extra_dims : list Z) (idx : list Z) : list Z :=
  match extra_dims, idx with
  | [e0; _; e2; _; e4; _], [i; j; k; c] => [e0 + i; e2 + j; e4 + k; c]
  | _, _ => idx
  end.

(** The patch positions along one axis, grid index by grid index, as the
    loops of the patch strategy go through them; [None] marks a position
    that is given up. *)
Definition axis_positions (extent size offset : Z) : option (list (option (Z * Z))) :=
  option_map
    (fun n => map (fun i => shift_boundaries (patch_boundaries i size offset) extent)
                  (range 0 n))
    (ceil_div extent (size - offset)).


(** The positions that are not given up. *)
Definition non_skipped (l : list (option (Z * Z))) : list (Z * Z) :=
  flat_map (fun b => match b with Some b => [b] | None => [] end) l.

(** ** Notions for the properties *)

(** The integer a voxel holds, for voxels that hold one. *)
Definition code (v : val) : Z := Qnum (this v).

Definition returned_shape (o : outcome ndarray) : option (list Z) :=
  match o with Returned r => Some (shape r) | Raised _ => None end.

Definition returned_elt (o : outcome ndarray) (idx : list Z) : option val :=
  match o with Returned r => Some (elt r idx) | Raised _ => None end.

Definition returned_code (o : outcome ndarray) (idx : list Z) : option Z :=
  option_map code (returned_elt o idx).

(** The array a call returned (an empty one if it raised). *)
Definition result_of (x : world * outcome ndarray) : ndarray :=
  match snd x with
  | Returned r => r
  | Raised _ => mk_array [] (fun _ => vzero)
  end.

(** Every invocation of the model made so far has returned. *)
Definition clean (model : Model) (w : world) : Prop :=
  Forall (fun input => model input <> None) (calls w).

(** What the whole-volume strategy expects of the model: the first
    output has the extent of the volume and one channel per class. *)
Definition model_fits (model : Model) (data : ndarray) (nb : Z) : Prop :=
  forall outs,
    model (Np.expand_dims_last (Np.expand_dims_first data)) = Some outs ->
    exists o rest, outs = o :: rest /\ shape o = 1 :: shape data ++ [nb].

(** Slice [s] of axis 2 holds zeros only. *)
Definition slice_is_zero (s : Z) (a : ndarray) : Prop :=
  forall i j c, elt a [i; j; s; c] = vzero.

(** Reasoning about computations.

    [yields m Q]: whenever [m] returns a value, the value satisfies [Q].
    [keeps I m]: whenever [m] returns a value from a world satisfying [I],
    the world it leaves satisfies [I]. *)

Definition yields {A} (m : M A) (Q : A -> Prop) : Prop :=
  forall w w' a, m w = (w', Some a) -> Q a.

Definition keeps {A} (I : world -> Prop) (m : M A) : Prop :=
  forall w w' a, I w -> m w = (w', Some a) -> I w'.

(** ** Sample models, volumes and configurations *)

Module Samples.

(** A model that answers with its input, repeated over [nb] classes. *)
Definition echo (nb : Z) : Model :=
  fun input =>
    Some [mk_array (removelast (shape input) ++ [nb])
            (fun idx => elt input (removelast idx ++ [0]))].

(** A model that answers [v] everywhere. *)
Definition constant (nb : Z) (v : val) : Model :=
  fun input => Some [mk_array (removelast (shape input) ++ [nb]) (fun _ => v)].

(** A model whose invocation raises. *)
Definition broken : Model := fun _ => None.

(** A volume whose voxels hold 1 + their index along [axis]. *)
Definition ramp (sh : list Z) (axis : nat) : ndarray :=
  mk_array sh (fun idx => vofZ (1 + nth axis idx 0)).

(** A volume whose voxels hold their own coordinates. *)
Definition coordinates (sh : list Z) : ndarray :=
  mk_array sh (fun idx => vofZ (10000 * nth 0 idx 0 + 100 * nth 1 idx 0 + nth 2 idx 0)).

Definition slab_config (plane : string) (slab_size : Z) (non_overlapping : bool)
  : ConfigResources :=
  mk_config (Some [2; 2]) plane slab_size [] [] 1 non_overlapping false false true.

Definition patch_config (size offset : list Z) (nb : Z) : ConfigResources :=
  mk_config None "axial" 1 size offset nb false false false false.

Definition whole_config (nb : Z) : ConfigResources :=
  mk_config (Some [2; 2; 2]) "axial" 1 [] [] nb false false false false.

End Samples.

(** ** Scenarios *)

(** One small call per mode. *)
Module ModeScenario.
Definition volume : ndarray := Samples.ramp [2; 2; 2] 2.
Definition whole : world * outcome ndarray :=
  run_predictions volume (Samples.echo 2) (start (Samples.whole_config 2)).
Definition small : ndarray := Samples.ramp [3; 3; 3] 2.
Definition patch_parameters : ConfigResources :=
  Samples.patch_config [4; 4; 4] [1; 1; 1] 2.
Definition patch : world * outcome ndarray :=
  run_predictions small (Samples.echo 2) (start patch_parameters).
Definition whole_broken : world * outcome ndarray :=
  run_predictions volume Samples.broken (start (Samples.whole_config 2)).
Definition slab_broken : world * outcome ndarray :=
  run_predictions volume Samples.broken
    (start (Samples.slab_config "coronal" 2 true)).
Definition patch_broken : world * outcome ndarray :=
  run_predictions small Samples.broken (start patch_parameters).
End ModeScenario.

(** Sliding windows of thickness 2. *)
Module WindowScenario.
Definition axial : world * outcome ndarray :=
  run_predictions (Samples.ramp [2; 2; 4] 2) (Samples.constant 1 vone)
    (start (Samples.slab_config "axial" 2 false)).
Definition axial_echo : world * outcome ndarray :=
  run_predictions (Samples.ramp [2; 2; 4] 2) (Samples.echo 1)
    (start (Samples.slab_config "axial" 2 false)).
Definition sagittal_echo : world * outcome ndarray :=
  run_predictions (Samples.ramp [4; 2; 2] 0) (Samples.echo 1)
    (start (Samples.slab_config "sagittal" 2 false)).
Definition coronal_echo : world * outcome ndarray :=
  run_predictions (Samples.ramp [2; 4; 2] 1) (Samples.echo 1)
    (start (Samples.slab_config "coronal" 2 false)).
End WindowScenario.

(** A sliding window of thickness 1 over a volume whose slice 1 is empty. *)
Module GapScenario.
Definition volume : ndarray :=
  mk_array [2; 2; 3] (fun idx => if nth 2 idx 0 =? 1 then vzero else vone).
Definition parameters : ConfigResources := Samples.slab_config "axial" 1 false.
Definition result : world * outcome ndarray :=
  run_predictions volume (Samples.echo 1) (start parameters).
End GapScenario.

(** A sagittal sliding window of thickness 1. *)
Module SagittalScenario.
Definition parameters : ConfigResources := Samples.slab_config "sagittal" 1 false.
Definition volume : ndarray := Samples.coordinates [2; 2; 4].
Definition result : world * outcome ndarray :=
  run_predictions volume (Samples.echo 1) (start parameters).
(** The coordinates of the voxel a model input holds at (1, 1). *)
Definition voxel11 (input : ndarray) : list Z * Z :=
  (shape input, code (elt input [0; 1; 1; 0])).
End SagittalScenario.

(** A call with [swap_training_input] set. *)
Module SwapScenario.
Definition parameters : ConfigResources :=
  mk_config (Some [1; 2]) "axial" 1 [] [] 1 false true false true.
Definition volume : ndarray := Samples.ramp [2; 1; 1] 0.
Definition result : world * outcome ndarray :=
  run_predictions volume (Samples.echo 1) (start parameters).
End SwapScenario.

(** Overlapping patches with a model that answers -1 everywhere. *)
Module NegScenario.
Definition volume : ndarray := Samples.ramp [5; 5; 5] 2.
Definition parameters : ConfigResources :=
  Samples.patch_config [4; 4; 4] [1; 1; 1] 1.
Definition model : Model := Samples.constant 1 (vofZ (-1)).
Definition result : world * outcome ndarray :=
  run_predictions volume model (start parameters).
(** The predictions of the patches covering a voxel. *)
Definition predictions (idx : list Z) : list val :=
  covering_predictions (Np.expand_dims_last volume) model [4; 4; 4] [1; 1; 1]
    false [5; 5; 5; 1]
    (patch_grid (Np.expand_dims_last volume) [4; 4; 4] [1; 1; 1]) idx.
End NegScenario.

(** A sagittal sliding window of thickness 1 over a volume whose
    sagittal slice 0 is empty, with a model that answers 1 everywhere. *)
Module EmptySliceScenario.
Definition volume : ndarray :=
  mk_array [2; 2; 4] (fun idx => if nth 0 idx 0 =? 0 then vzero else vone).
Definition parameters : ConfigResources := Samples.slab_config "sagittal" 1 false.
Definition result : world * outcome ndarray :=
  run_predictions volume (Samples.constant 1 vone) (start parameters).
(** The slice of the volume at index 0 of the slicing axis. *)
Definition slice0 : option ndarray :=
  Np.getitem (Np.expand_dims_last volume) [Np.At 0; Np.All; Np.All; Np.At 0].
(** The voxels of slice 0 of a volume of that shape, one class. *)
Definition slice0_voxels : list (list Z) :=
  map (fun idx => 0 :: idx ++ [0]) (indices [2; 4]).
End EmptySliceScenario.

(** The scenario of a (64, 64, 40) volume. *)
Module EdgeScenario.
Definition volume : ndarray := Samples.coordinates [64; 64; 40].
Definition parameters : ConfigResources :=
  Samples.patch_config [32; 32; 32] [8; 8; 8] 1.
Definition result : world * outcome ndarray :=
  run_predictions volume (Samples.echo 1) (start parameters).
(** Shape of a model input and the coordinates of its first voxel. *)
Definition corner (input : ndarray) : list Z * Z :=
  (shape input, code (elt input [0; 0; 0; 0; 0])).
End EdgeScenario.

(** ** Notions for the properties of the strategies as a whole *)

(** [always I m]: [m] leaves a world satisfying [I] whenever it starts in
    one, whether it returns or raises. *)
Definition always {A} (I : world -> Prop) (m : M A) : Prop :=
  forall w, I w -> I (fst (m w)).

(** [adds n m]: when [m] returns, it has invoked the model [n] times. *)
Definition adds {A} (n : nat) (m : M A) : Prop :=
  forall w w' a, m w = (w', Some a) ->
                 length (calls w') = (length (calls w) + n)%nat.

(** A model input that is one whole patch: a batch of one, the three
    extents of the patch, one channel. *)
Definition full_patch (px py pz : Z) (input : ndarray) : Prop :=
  shape input = [1; px; py; pz; 1].

(** No value of [fr] is below the value [a] has at the same place. *)
Definition above (a fr : ndarray) : Prop :=
  forall idx, (elt a idx <= elt fr idx)%Qc.

(** The extent the slab strategy walks along (lines 102-106). *)
Definition extent_along (plane : string) (d0 d1 d2 : Z) : Z :=
  if is_plane plane "sagittal" then d0
  else if is_plane plane "coronal" then d1 else d2.

(** The two extents of a slice cut across [plane], in the order the
    transposes of lines 183-190 leave them. *)
Definition slice_extents (plane : string) (d0 d1 d2 : Z) : Z * Z :=
  if is_plane plane "sagittal" then (d1, d2)
  else if is_plane plane "coronal" then (d0, d2) else (d0, d1).

(** The shape of the inputs the sliding window gives the model, for a
    [new_axial_size] of [n0; n1] in the configuration: the two entries
    exchanged when [swap_training_input] is set (lines 97-100), reshaped
    to one slice (lines 171-172) or to a window (line 192), the window
    transposed when [fix_orientation] is set (lines 196-197). *)
Definition window_shape (p : ConfigResources) (n0 n1 : Z) : list Z :=
  let '(a, b) := if swap_training_input p then (n1, n0) else (n0, n1) in
  if training_slab_size p =? 1 then [1; a; b; 1]
  else if fix_orientation p then [1; training_slab_size p; a; b; 1]
  else [1; a; b; training_slab_size p; 1].

(** Every invocation of the model so far was on an input of shape [sh]. *)
Definition fed_with (sh : list Z) (w : world) : Prop :=
  Forall (fun input => shape input = sh) (calls w).

(** What the thin-slice writes (line 176) take from a prediction [o] of
    [nc] classes for the voxel (i, j) of a slice and the class [c]:
    [o[:, :, c]] fixes the third axis of [o], so [c] selects a column
    and the column index [j] runs over the classes. *)
Definition thin_value (o : ndarray) (nc i j c : Z) : val :=
  elt o [0; i; c; if nc =? 1 then 0 else j].

(** The shape of the slabs the tiling gives the model: a batch axis, the
    two extents of a slice, the thickness (moved in front when
    [fix_orientation] is set, lines 131-132) and a channel axis. *)
Definition slab_shape (p : ConfigResources) (e0 e1 : Z) : list Z :=
  if fix_orientation p then [1; training_slab_size p; e0; e1; 1]
  else [1; e0; e1; training_slab_size p; 1].

(** The voxel with coordinates (i, j) in slice [k] of the slicing
    plane: sagittal slices are cut along axis 0, coronal slices along
    axis 1, axial slices along axis 2. *)
Definition place (plane : string) (i j k : Z) : list Z :=
  if is_plane plane "sagittal" then [k; i; j]
  else if is_plane plane "coronal" then [i; k; j] else [i; j; k].

(** The slice the sliding window writes for the loop position [slice]
    (lines 205-211). *)
Definition written_slice (plane : string) (slice half : Z) : Z :=
  if is_plane plane "axial" then slice - half else slice.

(** [pure m]: [m] neither reads nor changes the world. *)
Definition pure {A} (m : M A) : Prop := exists r, forall w, m w = (w, r).

(** ** Scenarios at the edges *)

Module EdgeCases.

(** A model that returns an empty list of outputs. *)
Definition silent : Model := fun _ => Some [].
Definition whole_silent : world * outcome ndarray :=
  run_predictions ModeScenario.volume silent (start (Samples.whole_config 2)).

(** A patch offset beyond the patch size, and one equal to it, along
    axis 0. *)
Definition beyond_parameters : ConfigResources :=
  Samples.patch_config [4; 4; 4] [5; 1; 1] 1.
Definition beyond : world * outcome ndarray :=
  run_predictions NegScenario.volume (Samples.echo 1) (start beyond_parameters).
Definition equal_parameters : ConfigResources :=
  Samples.patch_config [4; 4; 4] [4; 1; 1] 1.
Definition equal : world * outcome ndarray :=
  run_predictions NegScenario.volume (Samples.echo 1) (start equal_parameters).

(** Thin slices without deep supervision, over a volume of zeros. *)
Definition blank : ndarray := mk_array [2; 2; 2] (fun _ => vzero).
Definition plain_parameters : ConfigResources :=
  mk_config (Some [2; 2]) "axial" 1 [] [] 1 false false false false.
Definition plain : world * outcome ndarray :=
  run_predictions blank (Samples.echo 1) (start plain_parameters).

(** Two non-overlapping slabs of thickness 2. *)
Definition tiled_parameters : ConfigResources := Samples.slab_config "axial" 2 true.
Definition tiled : world * outcome ndarray :=
  run_predictions (Samples.ramp [2; 2; 4] 2) (Samples.echo 1) (start tiled_parameters).

(** A window of thickness 3 around slice 1 of a padded volume. *)
Definition thick : ndarray := Np.expand_dims_last (Samples.ramp [2; 2; 5] 2).
Definition thick_window : world * option ndarray :=
  window_input thick "axial" (Some [2; 2]) 3 (half_of 3) 1
    (start (Samples.slab_config "axial" 3 false)).

(** A probability volume padded by 1 before axis 0, 1 after axis 1 and 1
    on both ends of axis 2. *)
Definition padded_result : ndarray := Np.expand_dims_last (Samples.coordinates [4; 4; 4]).
Definition stripped : option ndarray := strip_padding padded_result [1; 0; 0; 1; 1; 1].

(** Slice 1 of the volume of [SagittalScenario], as the thin-slice loop
    cuts it, the input made of it and what the model answers. *)
Definition thin_slab : ndarray :=
  match Np.getitem (Np.expand_dims_last SagittalScenario.volume)
          [Np.All; Np.All; Np.At 1; Np.At 0] with
  | Some a => a
  | None => blank
  end.
Definition thin_input : ndarray :=
  match Np.reshape thin_slab [1; 2; 2; 1] with Some a => a | None => blank end.
Definition thin_output : ndarray :=
  match Samples.echo 1 thin_input with Some (o :: _) => o | _ => blank end.

(** The thin slices of [SagittalScenario] with a model of three classes. *)
Definition three_classes : world * outcome ndarray :=
  run_predictions SagittalScenario.volume (Samples.echo 3)
    (start SagittalScenario.parameters).
Definition three_classes_output : ndarray :=
  match Samples.echo 3 thin_input with Some (o :: _) => o | _ => blank end.

(** Windows of thickness 2 along a plane that has no name, over a volume
    of one slice. *)
Definition oblique_parameters : ConfigResources := Samples.slab_config "oblique" 2 false.
Definition oblique : world * outcome ndarray :=
  run_predictions (Samples.ramp [2; 2; 1] 2) (Samples.echo 1) (start oblique_parameters).

(** Sagittal chunks of thickness 2 over three slices: the padded volume,
    the slab of chunk 1 and what the model answers for it. *)
Definition tiles_volume : ndarray := Samples.coordinates [3; 2; 2].
Definition tiles_parameters : ConfigResources := Samples.slab_config "sagittal" 2 true.
Definition tiles : world * outcome ndarray :=
  run_predictions tiles_volume (Samples.echo 1) (start tiles_parameters).
Definition tiles_padded : ndarray :=
  match padding_for_inference (Np.expand_dims_last tiles_volume) 2 "sagittal" with
  | Some (a, _) => a
  | None => blank
  end.
Definition tiles_slab : ndarray :=
  match snd (extract_slab tiles_padded "sagittal" 2 4 (start tiles_parameters)) with
  | Some a => a
  | None => blank
  end.
Definition tiles_output : ndarray :=
  match Samples.echo 1 (Np.expand_dims_last (Np.expand_dims_first tiles_slab)) with
  | Some (o :: _) => o
  | _ => blank
  end.

(** Coronal windows of thickness 2: the padded volume, the window of
    loop position 2 and what the model answers for it. *)
Definition windows_volume : ndarray := Samples.coordinates [2; 4; 2].
Definition windows_parameters : ConfigResources := Samples.slab_config "coronal" 2 false.
Definition windows : world * outcome ndarray :=
  run_predictions windows_volume (Samples.echo 1) (start windows_parameters).
Definition windows_padded : ndarray :=
  match padding_for_inference_both_ends (Np.expand_dims_last windows_volume)
          2 "coronal" with
  | Some a => a
  | None => blank
  end.
Definition windows_input : ndarray :=
  match snd (window_input windows_padded "coronal" (Some [2; 2]) 2 (half_of 2) 2
               (start windows_parameters)) with
  | Some a => a
  | None => blank
  end.
Definition windows_output : ndarray :=
  match Samples.echo 1 windows_input with Some (o :: _) => o | _ => blank end.

(** A second call with the world the call of [SwapScenario] left. *)
Definition swapped_twice : world * outcome ndarray :=
  run_predictions SwapScenario.volume (Samples.echo 1) (fst SwapScenario.result).

End EdgeCases.

(** * Properties *)

(** In conversions, the named scenarios are unfolded before
    [run_predictions] is. *)
Strategy 10 [run_predictions].

(** ** The monad *)

Lemma bind_some {A B} (m : M A) (f : A -> M B) w w' b :
  bind m f w = (w', Some b) ->
  exists w1 a, m w = (w1, Some a) /\ f a w1 = (w', Some b).
Proof.
  unfold bind. destruct (m w) as [w1 [a|]] eqn:E; intros H.
  - exists w1, a. auto.
  - inversion H.
Qed.

Lemma lift_some {A} (o : option A) w w' a :
  lift o w = (w', Some a) -> w' = w /\ o = Some a.
Proof. unfold lift. intros H. inversion H. auto. Qed.

Lemma ret_some {A} (x : A) w w' a :
  ret x w = (w', Some a) -> w' = w /\ a = x.
Proof. unfold ret. intros H. inversion H. auto. Qed.

(** A property of the loop-carried value that every iteration keeps
    holds when the loop is left. *)
Lemma for_each_keeps {S} (I : S -> Prop) (body : Z -> S -> M S) :
  (forall i s w w' s', I s -> body i s w = (w', Some s') -> I s') ->
  forall l s w w' s', I s -> for_each l body s w = (w', Some s') -> I s'.
Proof.
  intros Hb l. induction l as [|i l IH]; simpl; intros s w w' s' Hs H.
  - apply ret_some in H. destruct H as [_ ->]. exact Hs.
  - apply bind_some in H. destruct H as (w1 & s1 & H1 & H2).
    eapply IH; [|exact H2]. eapply Hb; eauto.
Qed.

(** ** Rules for [yields] and [keeps] *)

Lemma yields_ret {A} (x : A) (Q : A -> Prop) : Q x -> yields (ret x) Q.
Proof. intros H w w' a E. apply ret_some in E. destruct E as [_ ->]. exact H. Qed.

Lemma yields_raise {A} (Q : A -> Prop) : yields raise Q.
Proof. intros w w' a E. discriminate E. Qed.

Lemma yields_lift {A} (o : option A) (Q : A -> Prop) :
  (forall a, o = Some a -> Q a) -> yields (lift o) Q.
Proof. intros H w w' a E. apply lift_some in E. destruct E as [_ E]. auto. Qed.

Lemma yields_bind {A B} (m : M A) (f : A -> M B) (Q : B -> Prop) :
  (forall a, yields (f a) Q) -> yields (bind m f) Q.
Proof.
  intros H w w' b E. apply bind_some in E. destruct E as (w1 & a & _ & E).
  eapply H; eauto.
Qed.

Lemma yields_bind_with {A B} (R : A -> Prop) (m : M A) (f : A -> M B)
  (Q : B -> Prop) :
  yields m R -> (forall a, R a -> yields (f a) Q) -> yields (bind m f) Q.
Proof.
  intros Hm H w w' b E. apply bind_some in E. destruct E as (w1 & a & E1 & E).
  eapply H; eauto.
Qed.

Lemma yields_for_each {S} (I : S -> Prop) (l : list Z) (body : Z -> S -> M S) s :
  (forall i s, I s -> yields (body i s) I) -> I s -> yields (for_each l body s) I.
Proof.
  intros Hb Hs w w' s' E.
  eapply (for_each_keeps I body); [|exact Hs|exact E].
  intros i s0 w0 w0' s0' H0 E0. eapply Hb; eauto.
Qed.

(** Iterations of a loop are only ever run on members of its list. *)
Lemma yields_for_each_in {S} (I : S -> Prop) (l : list Z) (body : Z -> S -> M S) :
  (forall i s, In i l -> I s -> yields (body i s) I) ->
  forall s, I s -> yields (for_each l body s) I.
Proof.
  induction l as [|i l IH]; intros Hb s Hs w w' s' E; simpl in E.
  - apply ret_some in E. destruct E as [_ ->]. exact Hs.
  - apply bind_some in E. destruct E as (w1 & s1 & E1 & E2).
    eapply IH; [| |exact E2].
    + intros j s0 Hj. apply Hb. right. exact Hj.
    + eapply (Hb i s); [left; reflexivity|exact Hs|exact E1].
Qed.

Lemma keeps_ret {A} I (x : A) : keeps I (ret x).
Proof. intros w w' a Hw E. apply ret_some in E. destruct E as [-> _]. exact Hw. Qed.

Lemma keeps_raise {A} I : keeps I (@raise A).
Proof. intros w w' a Hw E. discriminate E. Qed.

Lemma keeps_lift {A} I (o : option A) : keeps I (lift o).
Proof. intros w w' a Hw E. apply lift_some in E. destruct E as [-> _]. exact Hw. Qed.

Lemma keeps_bind {A B} I (m : M A) (f : A -> M B) :
  keeps I m -> (forall a, keeps I (f a)) -> keeps I (bind m f).
Proof.
  intros Hm Hf w w' b Hw E. apply bind_some in E.
  destruct E as (w1 & a & E1 & E2).
  eapply Hf; [|exact E2]. eapply Hm; eauto.
Qed.

Lemma keeps_for_each {S} I (l : list Z) (body : Z -> S -> M S) :
  (forall i s, keeps I (body i s)) -> forall s, keeps I (for_each l body s).
Proof.
  intros Hb. induction l as [|i l IH]; intros s; simpl.
  - apply keeps_ret.
  - apply keeps_bind; [apply Hb|intros s'; apply IH].
Qed.

Lemma keeps_unwrap I ds outs : keeps I (unwrap ds outs).
Proof. unfold unwrap. destruct ds; [apply keeps_lift|apply keeps_ret]. Qed.

(** ** Shapes *)

Lemma setitem_shape a its v a' :
  Np.setitem a its v = Some a' -> shape a' = shape a.
Proof.
  unfold Np.setitem. destruct (Np.resolve its (shape a)); [|discriminate].
  destruct (Np.broadcast_to v _); [|discriminate].
  intros H. inversion H. reflexivity.
Qed.

Lemma sel_shape_all sh : Np.sel_shape (map (fun d => Np.Span 0 d) sh) = sh.
Proof. induction sh; simpl; congruence. Qed.

Lemma zeros_shape sh a : Np.zeros sh = Some a -> shape a = sh.
Proof.
  unfold Np.zeros. destruct (forallb _ sh); [|discriminate].
  intros H. inversion H. reflexivity.
Qed.

Ltac yield_step :=
  match goal with
  | |- yields raise _ => apply yields_raise
  | |- yields (bind (for_each _ _ _) _) _ => fail 1
  | |- yields (bind _ _) _ => apply yields_bind; intros
  | |- yields (if ?b then _ else _) _ => destruct b
  | |- yields (match ?x with _ => _ end) _ => destruct x
  end.

Ltac yield_shape :=
  repeat yield_step;
  try (apply yields_lift; intros;
       match goal with
       | H : Np.setitem _ _ _ = Some _ |- _ => apply setitem_shape in H; congruence
       end);
  try (apply yields_ret; congruence).

(** ** Ranges and indices *)

Lemma in_range i lo hi : In i (range lo hi) <-> lo <= i < hi.
Proof.
  unfold range. rewrite in_map_iff. split.
  - intros (k & <- & Hk). apply in_seq in Hk. lia.
  - intros H. exists (Z.to_nat (i - lo)). split; [lia|].
    apply in_seq. lia.
Qed.

Lemma in_indices_cons idx d sh :
  In idx (indices (d :: sh)) ->
  exists i idx', idx = i :: idx' /\ 0 <= i < d /\ In idx' (indices sh).
Proof.
  simpl. rewrite in_flat_map. intros (i & Hi & H).
  apply in_map_iff in H. destruct H as (idx' & <- & H').
  exists i, idx'. rewrite in_range in Hi. auto.
Qed.

Lemma count_gt_zero a t :
  (forall idx, In idx (indices (shape a)) -> vltb t (elt a idx) = false) ->
  Np.count_gt a t = 0.
Proof.
  intros H. unfold Np.count_gt.
  replace (filter _ _) with (@nil (list Z)); [reflexivity|].
  symmetry. induction (indices (shape a)) as [|x l IH]; [reflexivity|].
  simpl. rewrite (H x (or_introl eq_refl)). apply IH.
  intros idx Hidx. apply H. right. exact Hidx.
Qed.


Lemma outcome_eta (x : world * outcome ndarray) :
  returned_shape (snd x) <> None -> x = (fst x, Returned (result_of x)).
Proof.
  destruct x as [w [r|e]]; unfold result_of; simpl; intros H;
    [reflexivity|congruence].
Qed.


(** ** Writes into one slice of axis 2 *)

Lemma setitem_other_slice fr k c v fr' s i j c' :
  Np.setitem fr [Np.All; Np.All; Np.At k; Np.At c] v = Some fr' ->
  0 <= k -> k <> s ->
  elt fr' [i; j; s; c'] = elt fr [i; j; s; c'].
Proof.
  unfold Np.setitem. intros H Hk Hks.
  destruct (Np.resolve _ (shape fr)) as [sel|] eqn:R; [|discriminate].
  destruct (Np.broadcast_to v _) as [vb|]; [|discriminate].
  inversion H; subst fr'. clear H. cbn [elt].
  assert (Np.sel_locate sel [i; j; s; c'] = None) as L; [|rewrite L; reflexivity].
  destruct (shape fr) as [|e0 [|e1 [|e2 [|e3 rest]]]];
    cbn [Np.resolve Np.All] in R; unfold Np.slice_bounds in R;
    cbn [option_map] in R; try discriminate R.
  - destruct ((- e2 <=? k) && (k <? e2)); discriminate R.
  - destruct ((- e2 <=? k) && (k <? e2)); [|discriminate R].
    destruct ((- e3 <=? c) && (c <? e3)); [|discriminate R].
    cbn in R. inversion R; subst sel. clear R.
    cbn [Np.sel_locate].
    destruct ((0 <=? i) && (i <? 0 + _)); [|reflexivity].
    destruct ((0 <=? j) && (j <? 0 + _)); [|reflexivity].
    destruct (k <? 0) eqn:Ek; [lia|].
    destruct (s =? k) eqn:Es; [lia|reflexivity].
Qed.

Lemma zeros_slice_is_zero sh a s : Np.zeros sh = Some a -> slice_is_zero s a.
Proof.
  unfold Np.zeros. destruct (forallb _ sh); [|discriminate].
  intros H. inversion H. intros i j c. reflexivity.
Qed.


(** ** C1: the shape of the volume returned *)

Lemma write_chunk_shape sh fr plane sl keep pred c :
  shape fr = sh ->
  yields (write_chunk fr plane sl keep pred c) (fun fr' => shape fr' = sh).
Proof. intros H. unfold write_chunk. yield_shape. Qed.

Lemma write_center_shape sh fr plane slice half pred c :
  shape fr = sh ->
  yields (write_center fr plane slice half pred c) (fun fr' => shape fr' = sh).
Proof. intros H. unfold write_center. yield_shape. Qed.

Lemma single_slice_shape sh data model nas ds slice fr :
  shape fr = sh ->
  yields (single_slice data model nas ds slice fr) (fun fr' => shape fr' = sh).
Proof.
  intros H. unfold single_slice. repeat yield_step.
  - apply yields_ret. exact H.
  - apply yields_for_each; [|exact H].
    intros c s Hs. yield_shape.
Qed.

Lemma window_slice_shape sh data model p nas ds half slice fr :
  shape fr = sh ->
  yields (window_slice data model p nas ds half slice fr) (fun fr' => shape fr' = sh).
Proof.
  intros H. unfold window_slice. repeat yield_step.
  - apply yields_ret. exact H.
  - apply yields_for_each; [|exact H].
    intros c s Hs. apply write_center_shape. exact Hs.
Qed.

Lemma nonoverlapping_chunk_shape sh data model p ds pad_value scale chunk st :
  shape (fst st) = sh ->
  yields (nonoverlapping_chunk data model p ds pad_value scale chunk st)
    (fun st' => shape (fst st') = sh).
Proof.
  intros H. unfold nonoverlapping_chunk. destruct st as [fr unpad]. simpl in H.
  repeat yield_step.
  eapply yields_bind_with with (R := fun fr' => shape fr' = sh).
  - apply yields_for_each; [|exact H].
    intros c s Hs. destruct (negb _); apply write_chunk_shape; exact Hs.
  - intros fr' Hfr'. apply yields_ret. exact Hfr'.
Qed.

Lemma predict_patch_shape sh data model ds bx by_ bz fr :
  shape fr = sh ->
  yields (predict_patch data model ds bx by_ bz fr) (fun fr' => shape fr' = sh).
Proof.
  intros H. unfold predict_patch. repeat yield_step.
  apply yields_lift. intros fr' E. unfold merge_patch in E.
  destruct (Np.getitem fr _); [|discriminate].
  destruct (Np.maximum _ _); [|discriminate].
  apply setitem_shape in E. congruence.
Qed.

Lemma patch_body_shape sh data model ps po ds x y z fr :
  shape fr = sh ->
  yields (patch_body data model ps po ds x y z fr) (fun fr' => shape fr' = sh).
Proof.
  intros H. unfold patch_body. repeat yield_step;
    try (apply yields_ret; exact H).
  apply predict_patch_shape. exact H.
Qed.

Lemma patch_loops_shape sh data model ps po ds fr :
  shape fr = sh ->
  yields (patch_loops data model ps po ds fr) (fun fr' => shape fr' = sh).
Proof.
  intros H. unfold patch_loops. yield_step.
  apply yields_for_each; [|exact H]. intros x s Hs. yield_step.
  apply yields_for_each; [|exact Hs]. intros y s' Hs'. yield_step.
  apply yields_for_each; [|exact Hs']. intros z s'' Hs''.
  apply patch_body_shape. exact Hs''.
Qed.


Lemma slabbed_steps_shape p data model ds :
  yields (slabbed_steps p data model ds)
    (fun r => shape r = shape data ++ [training_nb_classes p]).
Proof.
  unfold slabbed_steps. yield_step. yield_step.
  eapply yields_bind_with with (R := fun fr => shape fr = shape data ++ [training_nb_classes p]).
  { apply yields_lift. intros fr Hfr. apply zeros_shape in Hfr. exact Hfr. }
  intros fr Hfr. repeat yield_step.
  - eapply yields_bind_with with (R := fun st => shape (fst st) = shape data ++ [training_nb_classes p]).
    + apply yields_for_each; [|exact Hfr]. intros i st Hst.
      apply nonoverlapping_chunk_shape. exact Hst.
    + intros st Hst. apply yields_ret. exact Hst.
  - apply yields_for_each; [|exact Hfr]. intros i s Hs.
    apply single_slice_shape. exact Hs.
  - apply yields_for_each; [|exact Hfr]. intros i s Hs.
    apply window_slice_shape. exact Hs.
Qed.

Lemma zeros_nonneg sh a : Np.zeros sh = Some a -> wf_shape sh.
Proof.
  unfold Np.zeros. destruct (forallb _ sh) eqn:E; [|discriminate].
  intros _. rewrite forallb_forall in E. apply Forall_forall.
  intros d Hd. apply E in Hd. lia.
Qed.

Lemma pad_amounts_nonneg d p f b : pad_amounts d p = (f, b) -> 0 <= f /\ 0 <= b.
Proof.
  unfold pad_amounts. intros H. inversion H; subst. clear H.
  assert (0 <= Z.max 0 (p - d)) by lia.
  assert (Z.max 0 (p - d) / 2 <= Z.max 0 (p - d)).
  { apply Z.div_le_upper_bound; lia. }
  split; [apply Z.div_pos; lia|lia].
Qed.

Lemma slice_bounds_strip f d b :
  0 <= f -> 0 <= d -> 0 <= b ->
  Np.slice_bounds (Some f) (Some (f + d + b - b)) (f + d + b) = (f, d).
Proof.
  intros. unfold Np.slice_bounds, Np.slice_index.
  destruct (f <? 0) eqn:E1; [lia|].
  destruct (f + d + b - b <? 0) eqn:E2; [lia|].
  f_equal; lia.
Qed.

Lemma patch_mode_steps_shape p data model ds :
  wf_shape (shape data) ->
  yields (patch_mode_steps p data model ds)
    (fun r => shape r = shape data ++ [training_nb_classes p]).
Proof.
  intros Hwf. unfold patch_mode_steps.
  intros w w' r E.
  apply bind_some in E. destruct E as (w1 & [padded extra] & E1 & E).
  apply lift_some in E1. destruct E1 as [-> E1].
  apply bind_some in E. destruct E as (w2 & fr & E2 & E).
  apply lift_some in E2. destruct E2 as [-> E2]. pose proof E2 as Z2.
  apply zeros_shape in E2.
  apply bind_some in E. destruct E as (w3 & fr' & E3 & E).
  apply (patch_loops_shape _ _ _ _ _ _ _ E2) in E3.
  apply lift_some in E. destruct E as [-> E].
  unfold padding_for_inference_both_ends_patchwise in E1.
  destruct (shape data) as [|d0 [|d1 [|d2 [|]]]] eqn:Hsh; try discriminate.
  destruct (training_patch_size p) as [|p0 [|p1 [|p2 ps]]]; try discriminate.
  destruct (pad_amounts d0 p0) as [f0 b0] eqn:A0.
  destruct (pad_amounts d1 p1) as [f1 b1] eqn:A1.
  destruct (pad_amounts d2 p2) as [f2 b2] eqn:A2.
  inversion E1; subst padded extra. clear E1.
  apply pad_amounts_nonneg in A0, A1, A2.
  inversion Hwf as [|? ? W0 Hwf1]; subst.
  inversion Hwf1 as [|? ? W1 Hwf2]; subst.
  inversion Hwf2 as [|? ? W2 _]; subst.
  unfold strip_padding in E. rewrite E3 in E.
  cbn [Np.pad shape Np.pad_shape app] in E.
  rewrite Hsh in E. cbn [Np.pad_shape app] in E.
  unfold Np.getitem in E. rewrite E3 in E.
  cbn [Np.pad shape Np.pad_shape app] in E. rewrite Hsh in E.
  cbn [Np.pad_shape app Np.resolve Np.Sl Np.All] in E.
  rewrite !slice_bounds_strip in E by lia.
  cbn in E. inversion E. cbn. f_equal. f_equal. f_equal. f_equal.
  apply zeros_nonneg in Z2. apply Forall_app in Z2. destruct Z2 as [_ Z2].
  inversion Z2; subst. lia.
Qed.

Lemma getitem_first_shape o r d sh :
  shape o = d :: sh -> Np.getitem o [Np.At 0] = Some r -> shape r = sh.
Proof.
  intros Hs. unfold Np.getitem. rewrite Hs. cbn [Np.resolve].
  destruct ((- d <=? 0) && (0 <? d)); [|discriminate].
  cbn. intros H. inversion H. cbn. apply sel_shape_all.
Qed.

(** C1. For a volume with non-negative extents, in every mode, a call of
    [run_predictions] that returns gives a probability volume whose shape
    is the shape of the input volume followed by [training_nb_classes];
    in whole-volume mode, where the volume returned is the first output
    of the model itself, this is for a model whose output has the extent
    of the volume and one channel per class. *)
Theorem C1_shape_invariance (data : ndarray) (model : Model) (w w' : world)
  (r : ndarray) :
  wf_shape (shape data) ->
  (selected_mode (config w) = Whole ->
   model_fits model data (training_nb_classes (config w))) ->
  run_predictions data model w = (w', Returned r) ->
  shape r = shape data ++ [training_nb_classes (config w)].
Proof.
  intros Hwf Hfit E. unfold run_predictions in E.
  destruct (selected_mode (config w)) eqn:Hm.
  - specialize (Hfit eq_refl).
    unfold __run_predictions_whole, try_mode, run in E.
    destruct (model _) as [outs|] eqn:Ho; [|discriminate].
    destruct (Hfit outs Ho) as (o & rest & -> & Hs).
    cbn [first] in E.
    destruct (Np.getitem o [Np.At 0]) as [r0|] eqn:G; cbn in E; [|discriminate].
    inversion E; subst. eapply getitem_first_shape; eauto.
  - unfold __run_predictions_slabbed, try_mode in E.
    destruct (slabbed_body _ _ _ w) as [w1 [a|]] eqn:B; [|discriminate].
    inversion E; subst. unfold slabbed_body in B.
    apply bind_some in B. destruct B as (w2 & p & B1 & B).
    inversion B1; subst. eapply slabbed_steps_shape; eauto.
  - unfold __run_predictions_patch, try_mode in E.
    destruct (patch_mode_body _ _ _ w) as [w1 [a|]] eqn:B; [|discriminate].
    inversion E; subst. unfold patch_mode_body in B.
    apply bind_some in B. destruct B as (w2 & p & B1 & B).
    inversion B1; subst. eapply patch_mode_steps_shape; eauto.
Qed.

(** One call per mode: whole volume, axial sliding window, patches. *)
Lemma C1_shape_invariance_witness :
  shape (result_of ModeScenario.whole) = [2; 2; 2; 2] /\
  shape (result_of WindowScenario.axial_echo) = [2; 2; 4; 1] /\
  shape (result_of ModeScenario.patch) = [3; 3; 3; 2].
Proof.
  split; [|split].
  - apply (C1_shape_invariance ModeScenario.volume (Samples.echo 2)
             (start (Samples.whole_config 2)) (fst ModeScenario.whole)).
    + repeat constructor; lia.
    + intros _ outs H. injection H as <-.
      eexists. eexists. split; reflexivity.
    + apply (outcome_eta ModeScenario.whole). vm_compute. discriminate.
  - apply (C1_shape_invariance (Samples.ramp [2; 2; 4] 2) (Samples.echo 1)
             (start (Samples.slab_config "axial" 2 false))
             (fst WindowScenario.axial_echo)).
    + repeat constructor; lia.
    + intros H. vm_compute in H. discriminate H.
    + apply (outcome_eta WindowScenario.axial_echo). vm_compute. discriminate.
  - apply (C1_shape_invariance ModeScenario.small (Samples.echo 2)
             (start ModeScenario.patch_parameters) (fst ModeScenario.patch)).
    + repeat constructor; lia.
    + intros H. vm_compute in H. discriminate H.
    + apply (outcome_eta ModeScenario.patch). vm_compute. discriminate.
Defined.

(** ** C2 and C3: the sliding window of thickness 2 *)

Lemma write_center_axial_keeps_zero fr slice half pred c k :
  0 <= slice - half -> slice - half <> k -> slice_is_zero k fr ->
  yields (write_center fr "axial" slice half pred c) (slice_is_zero k).
Proof.
  intros H0 Hne Hz. unfold write_center. cbn [is_plane String.eqb Ascii.eqb Bool.eqb].
  repeat yield_step. apply yields_lift. intros fr' E i j c'.
  rewrite (setitem_other_slice _ _ _ _ _ k i j c' E H0 Hne). apply Hz.
Qed.

Lemma window_slice_axial_keeps_zero data model p nas ds half slice fr k :
  slicing_plane p = "axial"%string ->
  0 <= slice - half -> slice - half <> k -> slice_is_zero k fr ->
  yields (window_slice data model p nas ds half slice fr) (slice_is_zero k).
Proof.
  intros Hp H0 Hne Hz. unfold window_slice. rewrite Hp. repeat yield_step.
  - apply yields_ret. exact Hz.
  - apply yields_for_each; [|exact Hz]. intros c fr1 Hz1.
    apply write_center_axial_keeps_zero; assumption.
Qed.

(** In the axial sliding window of a thickness other than 1, the slices
    from [d2 - int(slab_size / 2)] on are never written. *)
Lemma window_tail_is_never_written p data model ds d0 d1 d2 k :
  predictions_non_overlapping p = false ->
  training_slab_size p <> 1 ->
  slicing_plane p = "axial"%string ->
  shape data = [d0; d1; d2] ->
  d2 - half_of (training_slab_size p) <= k ->
  yields (slabbed_steps p data model ds) (slice_is_zero k).
Proof.
  intros Hnov Hslab Hplane Hsh Hk. unfold slabbed_steps.
  rewrite Hnov, Hplane. apply Z.eqb_neq in Hslab. rewrite Hslab. cbv zeta.
  yield_step.
  eapply yields_bind_with with (R := fun ub => ub = d2).
  { unfold upper_boundary_of. rewrite Hsh. cbn.
    apply yields_ret. reflexivity. }
  intros ub ->.
  eapply yields_bind_with with (R := slice_is_zero k).
  { apply yields_lift. intros fr. apply zeros_slice_is_zero. }
  intros fr Hfr. yield_step.
  apply yields_for_each_in; [|exact Hfr].
  intros slice fr1 Hin Hz1. apply in_range in Hin.
  apply window_slice_axial_keeps_zero; [exact Hplane|lia|lia|exact Hz1].
Qed.


(** C2. Axial sliding window of thickness 2 over a volume of four
    slices, none of them empty, with a model that answers 1 everywhere:
    the call returns normally after three invocations; slices 0, 1 and 2
    hold 1 and slice 3 still holds the initial 0 at each of its voxels,
    so it has received no write. *)
Theorem C2_last_slice_is_never_written :
  length (calls (fst WindowScenario.axial)) = 3%nat /\
  map (fun k => returned_code (snd WindowScenario.axial) [0; 0; k; 0]) [0; 1; 2]
  = [Some 1; Some 1; Some 1] /\
  map (fun ij => returned_code (snd WindowScenario.axial) [fst ij; snd ij; 3; 0])
      [(0, 0); (0, 1); (1, 0); (1, 1)]
  = [Some 0; Some 0; Some 0; Some 0].
Proof.
  repeat split; vm_compute; reflexivity.
Qed.

(** C3. Sliding window of thickness 2 with a model that answers with its
    input, over volumes whose slice [i] holds [i + 1].  For the axial
    plane the slices written hold their own value: slice [i] comes from
    the window centred on [i].  For the sagittal and the coronal plane,
    slice [i] holds [i]: it was written from the window centred on the
    neighbouring slice [i - 1]. *)
Theorem C3_sagittal_and_coronal_write_a_neighbour :
  map (fun i => returned_code (snd WindowScenario.axial_echo) [0; 0; i; 0]) [0; 1; 2]
  = [Some 1; Some 2; Some 3] /\
  map (fun i => returned_code (snd WindowScenario.sagittal_echo) [i; 0; 0; 0]) [1; 2; 3]
  = [Some 1; Some 2; Some 3] /\
  map (fun i => returned_code (snd WindowScenario.coronal_echo) [0; i; 0; 0]) [1; 2; 3]
  = [Some 1; Some 2; Some 3].
Proof.
  repeat split; vm_compute; reflexivity.
Qed.


(** ** C4: overlapping patches *)

Lemma vltb_lt x y : vltb x y = true <-> (x < y)%Qc.
Proof.
  unfold vltb. rewrite Qclt_alt. destruct (x ?= y)%Qc; split; congruence.
Qed.

Lemma vltb_ge x y : vltb x y = false <-> (y <= x)%Qc.
Proof.
  split; intros H.
  - apply Qcnot_lt_le. intros L. apply vltb_lt in L. congruence.
  - destruct (vltb x y) eqn:E; [|reflexivity].
    apply vltb_lt in E. exfalso. exact (Qcle_not_lt _ _ H E).
Qed.

Lemma vmax_comm x y : vmax x y = vmax y x.
Proof.
  unfold vmax. destruct (vltb x y) eqn:A, (vltb y x) eqn:B; try reflexivity.
  - apply vltb_lt in A, B. exfalso.
    exact (Qcle_not_lt _ _ (Qclt_le_weak _ _ A) B).
  - apply vltb_ge in A, B. apply Qcle_antisym; assumption.
Qed.

Lemma vmax_assoc x y z : vmax x (vmax y z) = vmax (vmax x y) z.
Proof.
  unfold vmax.
  destruct (vltb y z) eqn:A, (vltb x y) eqn:B; rewrite ?A, ?B;
    destruct (vltb x z) eqn:C; rewrite ?A, ?B, ?C; try reflexivity.
  - apply vltb_lt in A, B. apply vltb_ge in C. exfalso.
    exact (Qcle_not_lt _ _ C (Qclt_trans _ _ _ B A)).
  - apply vltb_ge in A, B. apply vltb_lt in C. exfalso.
    exact (Qcle_not_lt _ _ (Qcle_trans _ _ _ A B) C).
Qed.

Lemma vmax_list_push l v x : vmax_list l (vmax v x) = vmax v (vmax_list l x).
Proof.
  induction l as [|u l IH]; simpl; [reflexivity|].
  rewrite IH. rewrite !vmax_assoc. f_equal. apply vmax_comm.
Qed.

Lemma vmax_list_perm l l' x : Permutation l l' -> vmax_list l x = vmax_list l' x.
Proof.
  intros P. induction P; simpl.
  - reflexivity.
  - f_equal. exact IHP.
  - rewrite !vmax_assoc. f_equal. apply vmax_comm.
  - congruence.
Qed.

Lemma vmax_list_upper l v u : In u (v :: l) -> (u <= vmax_list l v)%Qc.
Proof.
  induction l as [|x l IH]; simpl.
  - intros [->|[]]. apply Qcle_refl.
  - intros H. unfold vmax at 1.
    destruct (vltb x (vmax_list l v)) eqn:E.
    + destruct H as [->|[->|H]].
      * apply IH. left. reflexivity.
      * apply Qclt_le_weak. apply vltb_lt. exact E.
      * apply IH. right. exact H.
    + apply vltb_ge in E. destruct H as [->|[->|H]].
      * eapply Qcle_trans; [|exact E]. apply IH. left. reflexivity.
      * apply Qcle_refl.
      * eapply Qcle_trans; [|exact E]. apply IH. right. exact H.
Qed.

(** Zero does not count among values one of which is not negative. *)
Lemma vmax_list_zero l v u :
  In u (v :: l) -> (vzero <= u)%Qc -> vmax_list (v :: l) vzero = vmax_list l v.
Proof.
  intros Hin Hu. cbn [vmax_list fold_right]. fold (vmax_list l vzero).
  rewrite <- vmax_list_push. rewrite vmax_comm. rewrite vmax_list_push.
  assert (vzero <= vmax_list l v)%Qc as H.
  { eapply Qcle_trans; [exact Hu|]. apply vmax_list_upper. exact Hin. }
  unfold vmax. destruct (vltb vzero (vmax_list l v)) eqn:E; [reflexivity|].
  apply vltb_ge in E. apply Qcle_antisym; assumption.
Qed.

Lemma sel_locate_index sel idx r :
  Np.sel_locate sel idx = Some r ->
  Np.sel_index sel r = idx /\ in_bounds r (Np.sel_shape sel).
Proof.
  revert idx r. induction sel as [|[s l|k] sel IH]; intros idx r H.
  - destruct idx; [|discriminate]. inversion H. split; [reflexivity|constructor].
  - destruct idx as [|i idx]; [discriminate|]. cbn [Np.sel_locate] in H.
    destruct ((s <=? i) && (i <? s + l)) eqn:E; [|discriminate].
    destruct (Np.sel_locate sel idx) as [r'|] eqn:L; [|discriminate].
    cbn in H. inversion H; subst r. clear H.
    destruct (IH idx r' L) as [I B]. cbn. split.
    + rewrite I. f_equal. lia.
    + constructor; [lia|exact B].
  - destruct idx as [|i idx]; [discriminate|]. cbn [Np.sel_locate] in H.
    destruct (i =? k) eqn:E; [|discriminate].
    destruct (IH idx r H) as [I B]. cbn. split; [|exact B].
    rewrite I. f_equal. lia.
Qed.

Lemma bc_index_rev_back ps ts rs r :
  Np.bshape_rev ps ts = Some rs ->
  Np.bc_ok_rev rs ts = true ->
  in_bounds r ts ->
  Np.bc_index_rev ts (Np.bc_index_rev rs r) = r.
Proof.
  revert ps rs r. induction ts as [|t ts IH]; intros ps rs r Hb Hok Hin.
  - inversion Hin. reflexivity.
  - inversion Hin as [|i d r' ts' Hi Hr]; subst. clear Hin.
    destruct ps as [|a ps].
    + cbn in Hb. inversion Hb; subst rs. clear Hb. cbn.
      cbn in Hok. apply andb_true_iff in Hok. destruct Hok as [_ Hok].
      rewrite (IH [] ts r'); [|reflexivity|exact Hok|exact Hr].
      destruct (t =? 1) eqn:E; [|reflexivity]. f_equal. lia.
    + cbn [Np.bshape_rev] in Hb.
      assert (exists x rs', rs = x :: rs' /\ Np.bshape_rev ps ts = Some rs'
                            /\ (t <> 1 -> x <> 1)) as (x & rs' & -> & Hb' & Hx).
      { destruct (a =? t) eqn:E1.
        - destruct (Np.bshape_rev ps ts) as [rs'|]; [|discriminate].
          inversion Hb. exists a, rs'. repeat split. lia.
        - destruct (a =? 1) eqn:E2.
          + destruct (Np.bshape_rev ps ts) as [rs'|]; [|discriminate].
            inversion Hb. exists t, rs'. repeat split. auto.
          + destruct (t =? 1) eqn:E3; [|discriminate].
            destruct (Np.bshape_rev ps ts) as [rs'|]; [|discriminate].
            inversion Hb. exists a, rs'. repeat split. lia. }
      cbn in Hok. apply andb_true_iff in Hok. destruct Hok as [_ Hok].
      cbn. rewrite (IH ps rs' r' Hb' Hok Hr). f_equal.
      destruct (t =? 1) eqn:E; [lia|].
      destruct (x =? 1) eqn:E'; [|reflexivity].
      exfalso. apply Hx; lia.
Qed.

Lemma in_bounds_rev r sh : in_bounds r sh -> in_bounds (rev r) (rev sh).
Proof.
  unfold in_bounds. induction 1; simpl; [constructor|].
  apply Forall2_app; [assumption|]. constructor; [assumption|constructor].
Qed.

Lemma bc_index_back p t rs r :
  Np.bshape_rev (rev p) (rev t) = Some rs ->
  Np.bc_ok_rev rs (rev t) = true ->
  in_bounds r t ->
  Np.bc_index t (Np.bc_index (rev rs) r) = r.
Proof.
  intros Hb Hok Hin. unfold Np.bc_index. rewrite !rev_involutive.
  rewrite (bc_index_rev_back (rev p) (rev t) rs (rev r) Hb Hok);
    [apply rev_involutive|apply in_bounds_rev; exact Hin].
Qed.

Lemma merge_patch_spec fr region pred fr' :
  merge_patch fr region pred = Some fr' ->
  shape fr' = shape fr /\
  forall idx, elt fr' idx
              = raise_to (predicted_at (shape fr) region pred idx) (elt fr idx).
Proof.
  unfold merge_patch, Np.getitem, Np.maximum, Np.setitem, Np.broadcast_to, predicted_at.
  destruct (Np.resolve region (shape fr)) as [sel|] eqn:R; [|discriminate].
  cbn [shape].
  destruct (Np.bshape_rev (rev (shape pred)) (rev (Np.sel_shape sel)))
    as [rs|] eqn:B; [|discriminate].
  cbn [shape]. rewrite rev_involutive.
  destruct (Np.bc_ok_rev rs (rev (Np.sel_shape sel))) eqn:K; [|discriminate].
  intros H. inversion H; subst fr'. clear H. cbn [shape elt].
  split; [reflexivity|]. intros idx.
  destruct (Np.sel_locate sel idx) as [r|] eqn:L; [|reflexivity].
  cbn [option_map raise_to].
  destruct (sel_locate_index sel idx r L) as [I Bd].
  rewrite (bc_index_back (shape pred) (Np.sel_shape sel) rs r B K Bd).
  rewrite I. reflexivity.
Qed.

Lemma merge_patch_shape_only fr1 fr2 region pred a :
  shape fr1 = shape fr2 ->
  merge_patch fr1 region pred = Some a ->
  exists b, merge_patch fr2 region pred = Some b.
Proof.
  unfold merge_patch, Np.getitem, Np.maximum, Np.setitem, Np.broadcast_to.
  intros <-.
  destruct (Np.resolve region (shape fr1)) as [sel|]; [|discriminate].
  cbn [shape].
  destruct (Np.bshape_rev _ _) as [rs|]; [|discriminate].
  cbn [shape].
  destruct (Np.bc_ok_rev _ _); [|discriminate].
  intros _. eexists. reflexivity.
Qed.

Section PatchCells.
Variables (data : ndarray) (model : Model) (patch_size patch_offset : list Z)
          (deep_supervision : bool).
Local Abbreviation one_cell :=
  (cell_step data model patch_size patch_offset deep_supervision).
Local Abbreviation patch_of :=
  (cell_patch data model patch_size patch_offset deep_supervision).
Local Abbreviation process :=
  (process_cells data model patch_size patch_offset deep_supervision).
Local Abbreviation folded :=
  (fold_cells data model patch_size patch_offset deep_supervision).
Local Abbreviation value_of :=
  (cell_value data model patch_size patch_offset deep_supervision).
Local Abbreviation covering :=
  (covering_predictions data model patch_size patch_offset deep_supervision).
Local Abbreviation the_grid := (patch_grid data patch_size patch_offset).
Hypothesis Hsize : length patch_size = 3%nat.
Hypothesis Hoffset : length patch_offset = 3%nat.
Hypothesis Hdata : length (shape data) = 4%nat.

Lemma patch_body_step x y z fr w :
  snd (patch_body data model patch_size patch_offset deep_supervision x y z fr w)
  = one_cell (x, y, z) fr.
Proof.
  unfold cell_step, cell_patch, cell_boundaries, patch_body, bind, lift, ret.
  destruct patch_size as [|px [|py [|pz [|]]]]; try discriminate Hsize.
  destruct patch_offset as [|ox [|oy [|oz [|]]]]; try discriminate Hoffset.
  destruct (shape data) as [|d0 [|d1 [|d2 [|d3 [|]]]]]; try discriminate Hdata.
  cbn [nth_error].
  destruct (shift_boundaries (patch_boundaries x px ox) d0) as [bx|]; [|reflexivity].
  destruct (shift_boundaries (patch_boundaries y py oy) d1) as [by_|]; [|reflexivity].
  destruct (shift_boundaries (patch_boundaries z pz oz) d2) as [bz|]; [|reflexivity].
  unfold predict_patch, bind, lift, run.
  destruct (Np.getitem data (patch_region bx by_ bz)) as [patch|]; [|reflexivity].
  destruct (model (Np.expand_dims_first patch)) as [outs|]; [|reflexivity].
  destruct (patch_prediction deep_supervision outs) as [p0|]; reflexivity.
Qed.

Lemma process_cells_fold cells fr w :
  snd (process cells fr w) = folded cells fr.
Proof.
  revert fr w. induction cells as [|[[x y] z] rest IH]; intros fr w.
  - reflexivity.
  - cbn [process_cells fold_cells]. rewrite <- (patch_body_step x y z fr w).
    unfold bind.
    destruct (patch_body _ _ _ _ _ x y z fr w) as [w1 [fr1|]]; cbn [snd].
    + apply IH.
    + reflexivity.
Qed.

Lemma cell_step_spec c fr fr' :
  one_cell c fr = Some fr' ->
  shape fr' = shape fr /\
  forall idx, elt fr' idx = raise_to (value_of (shape fr) c idx) (elt fr idx).
Proof.
  unfold cell_step, cell_value. destruct (patch_of c) as [[|region pred]|].
  - intros H. inversion H. split; reflexivity.
  - apply merge_patch_spec.
  - discriminate.
Qed.

Lemma cell_step_shape_only c fr1 fr2 a :
  shape fr1 = shape fr2 -> one_cell c fr1 = Some a ->
  exists b, one_cell c fr2 = Some b.
Proof.
  unfold cell_step. destruct (patch_of c) as [[|region pred]|]; intros Hs H.
  - eexists. reflexivity.
  - eapply merge_patch_shape_only; eauto.
  - discriminate.
Qed.

Lemma fold_cells_spec cells fr0 fr :
  folded cells fr0 = Some fr ->
  shape fr = shape fr0 /\
  forall idx, elt fr idx
              = vmax_list (covering (shape fr0) cells idx) (elt fr0 idx).
Proof.
  revert fr0. induction cells as [|c rest IH]; intros fr0 H.
  - inversion H. split; reflexivity.
  - cbn [fold_cells] in H. destruct (one_cell c fr0) as [fr1|] eqn:E; [|discriminate].
    destruct (cell_step_spec c fr0 fr1 E) as [S1 V1].
    destruct (IH fr1 H) as [S2 V2]. split; [congruence|].
    intros idx. rewrite V2, V1, S1. cbn [covering_predictions flat_map].
    fold (covering (shape fr0) rest idx).
    destruct (value_of (shape fr0) c idx) as [v|]; cbn [raise_to app].
    + cbn [vmax_list fold_right]. apply vmax_list_push.
    + reflexivity.
Qed.

Lemma fold_cells_each cells fr0 fr :
  folded cells fr0 = Some fr ->
  forall c, In c cells ->
  exists fr1 a, shape fr1 = shape fr0 /\ one_cell c fr1 = Some a.
Proof.
  revert fr0. induction cells as [|c0 rest IH]; intros fr0 H c Hin.
  - destruct Hin.
  - cbn [fold_cells] in H. destruct (one_cell c0 fr0) as [fr1|] eqn:E; [|discriminate].
    destruct Hin as [->|Hin].
    + exists fr0, fr1. split; [reflexivity|exact E].
    + destruct (IH fr1 H c Hin) as (fr2 & a & S & E2).
      exists fr2, a. split; [|exact E2].
      rewrite S. apply (cell_step_spec c0 fr0 fr1 E).
Qed.

Lemma fold_cells_total cells sh :
  (forall c, In c cells -> exists fr1 a, shape fr1 = sh /\ one_cell c fr1 = Some a) ->
  forall fr0, shape fr0 = sh -> exists fr, folded cells fr0 = Some fr.
Proof.
  induction cells as [|c rest IH]; intros Hall fr0 Hs.
  - eexists. reflexivity.
  - destruct (Hall c (or_introl eq_refl)) as (fr1 & a & S1 & E1).
    destruct (cell_step_shape_only c fr1 fr0 a) as [b Eb]; [congruence|exact E1|].
    cbn [fold_cells]. rewrite Eb. apply IH.
    + intros c' Hc'. apply Hall. right. exact Hc'.
    + rewrite <- Hs. apply (cell_step_spec c fr0 b Eb).
Qed.

Lemma fold_cells_permutation cells cells' fr0 fr :
  Permutation cells cells' ->
  folded cells fr0 = Some fr ->
  exists fr', folded cells' fr0 = Some fr' /\ shape fr' = shape fr /\
              forall idx, elt fr' idx = elt fr idx.
Proof.
  intros P H.
  destruct (fold_cells_total cells' (shape fr0)) with (fr0 := fr0) as [fr' H'].
  - intros c Hc. apply (fold_cells_each cells fr0 fr H).
    apply (Permutation_in c (Permutation_sym P)). exact Hc.
  - reflexivity.
  - exists fr'. split; [exact H'|].
    destruct (fold_cells_spec cells fr0 fr H) as [S V].
    destruct (fold_cells_spec cells' fr0 fr' H') as [S' V'].
    split; [congruence|]. intros idx. rewrite V, V'.
    apply vmax_list_perm. unfold covering_predictions.
    apply Permutation_flat_map. apply Permutation_sym. exact P.
Qed.


Lemma process_cells_app l1 l2 fr w w1 fr1 w2 fr2 :
  process l1 fr w = (w1, Some fr1) ->
  process l2 fr1 w1 = (w2, Some fr2) ->
  process (l1 ++ l2) fr w = (w2, Some fr2).
Proof.
  revert fr w. induction l1 as [|[[x y] z] l1 IH]; intros fr w H1 H2.
  - apply ret_some in H1. destruct H1 as [-> ->]. exact H2.
  - cbn [app process_cells] in *. apply bind_some in H1.
    destruct H1 as (w0 & fr0 & E & H1). unfold bind. rewrite E.
    apply IH; assumption.
Qed.

Lemma for_each_cells (f : Z -> list cell) (body : Z -> ndarray -> M ndarray) :
  (forall i fr w w' fr', body i fr w = (w', Some fr') ->
                         process (f i) fr w = (w', Some fr')) ->
  forall l fr w w' fr',
    for_each l body fr w = (w', Some fr') ->
    process (flat_map f l) fr w = (w', Some fr').
Proof.
  intros Hb l. induction l as [|i l IH]; intros fr w w' fr' H.
  - exact H.
  - cbn [for_each flat_map] in *. apply bind_some in H.
    destruct H as (w1 & fr1 & E & H).
    eapply process_cells_app; [apply Hb; exact E|apply IH; exact H].
Qed.

Lemma patch_loops_cells fr w w' fr' :
  patch_loops data model patch_size patch_offset deep_supervision fr w
  = (w', Some fr') ->
  process the_grid fr w = (w', Some fr').
Proof.
  unfold patch_loops, patch_grid, grid, steps_or_zero. intros H.
  apply bind_some in H. destruct H as (w1 & nx & E & H).
  apply lift_some in E. destruct E as [-> E]. rewrite E.
  revert H. apply for_each_cells. clear. intros x fr w w' fr' H.
  apply bind_some in H. destruct H as (w1 & ny & E & H).
  apply lift_some in E. destruct E as [-> E]. rewrite E.
  revert H. apply for_each_cells. clear. intros y fr w w' fr' H.
  apply bind_some in H. destruct H as (w1 & nz & E & H).
  apply lift_some in E. destruct E as [-> E]. rewrite E.
  revert H. generalize (range 0 nz). clear. intros l.
  revert fr w. induction l as [|z l IH]; intros fr w H.
  - exact H.
  - cbn [for_each map process_cells] in *. apply bind_some in H.
    destruct H as (w1 & fr1 & E & H). unfold bind. rewrite E. apply IH. exact H.
Qed.

End PatchCells.

Lemma zeros_elt sh a idx : Np.zeros sh = Some a -> elt a idx = vzero.
Proof.
  unfold Np.zeros. destruct (forallb _ sh); [|discriminate].
  intros H. inversion H. reflexivity.
Qed.

Lemma padding_patchwise_spec data patch_size padded extra_dims :
  wf_shape (shape data) ->
  padding_for_inference_both_ends_patchwise data patch_size
  = Some (padded, extra_dims) ->
  exists d0 d1 d2 f0 b0 f1 b1 f2 b2,
    shape data = [d0; d1; d2] /\
    extra_dims = [f0; b0; f1; b1; f2; b2] /\
    shape padded = [f0 + d0 + b0; f1 + d1 + b1; f2 + d2 + b2] /\
    (0 <= d0 /\ 0 <= d1 /\ 0 <= d2) /\
    (0 <= f0 /\ 0 <= b0) /\ (0 <= f1 /\ 0 <= b1) /\ (0 <= f2 /\ 0 <= b2).
Proof.
  intros Hwf E. unfold padding_for_inference_both_ends_patchwise in E.
  destruct (shape data) as [|d0 [|d1 [|d2 [|]]]] eqn:Hsh; try discriminate.
  destruct patch_size as [|p0 [|p1 [|p2 ps]]]; try discriminate.
  destruct (pad_amounts d0 p0) as [f0 b0] eqn:A0.
  destruct (pad_amounts d1 p1) as [f1 b1] eqn:A1.
  destruct (pad_amounts d2 p2) as [f2 b2] eqn:A2.
  inversion E; subst padded extra_dims. clear E.
  apply pad_amounts_nonneg in A0, A1, A2.
  inversion Hwf as [|? ? W0 Hwf1]; subst.
  inversion Hwf1 as [|? ? W1 Hwf2]; subst.
  inversion Hwf2 as [|? ? W2 _]; subst.
  exists d0, d1, d2, f0, b0, f1, b1, f2, b2.
  cbn [Np.pad shape]. rewrite Hsh. cbn [Np.pad_shape].
  repeat split; try reflexivity; try lia.
Qed.

Lemma strip_padding_elt fr r d0 d1 d2 f0 b0 f1 b1 f2 b2 nb :
  shape fr = [f0 + d0 + b0; f1 + d1 + b1; f2 + d2 + b2; nb] ->
  0 <= d0 -> 0 <= d1 -> 0 <= d2 ->
  0 <= f0 -> 0 <= b0 -> 0 <= f1 -> 0 <= b1 -> 0 <= f2 -> 0 <= b2 ->
  strip_padding fr [f0; b0; f1; b1; f2; b2] = Some r ->
  forall i j k c,
    elt r [i; j; k; c] = elt fr (padded_voxel [f0; b0; f1; b1; f2; b2] [i; j; k; c]).
Proof.
  intros Hs ? ? ? ? ? ? ? ? ? E i j k c.
  unfold strip_padding in E. rewrite Hs in E.
  unfold Np.getitem in E. rewrite Hs in E.
  cbn [Np.resolve Np.Sl Np.All] in E.
  rewrite !slice_bounds_strip in E by lia.
  cbn in E. inversion E. reflexivity.
Qed.

(** C4, as stated: the final value at a voxel covered by two or more
    patches is the maximum of the values these patches predicted.  With a
    model that answers -1 everywhere, voxel (2, 2, 2) of a (5, 5, 5)
    volume is covered by eight patches of size 4, each predicting -1,
    and the value returned is 0. *)
Lemma C4_not_the_maximum_of_the_predictions :
  ~ (forall idx, (2 <= length (NegScenario.predictions idx))%nat ->
       returned_elt (snd NegScenario.result) idx
       = maximum_of (NegScenario.predictions idx)).
Proof.
  intros H. specialize (H [2; 2; 2; 0]).
  assert ((2 <= length (NegScenario.predictions [2; 2; 2; 0]%Z))%nat) as L.
  { vm_compute. lia. }
  specialize (H L). apply (f_equal (option_map code)) in H.
  vm_compute in H. discriminate H.
Qed.

(** C4, amended. In patch mode, for a call that returns: the call is the
    loop body run on the cells of the grid in the order of the loops,
    from a volume of zeros, followed by the removal of the padding; the
    final value at every voxel is the largest of 0, the value the
    probability volume starts with, and of the values predicted at that
    voxel by the patches covering it; running the loop body on the
    cells in any other order returns as well, with the same value at
    every voxel.  At a voxel where one of the covering patches predicts a
    value that is not negative, the final value is the maximum of the
    predicted values. *)
Theorem C4_overlap_keeps_the_larger_value
  (data : ndarray) (model : Model) (w w' : world) (r padded : ndarray)
  (extra_dims : list Z) :
  let parameters := config w in
  let patch_size := training_patch_size parameters in
  let patch_offset := training_patch_offset parameters in
  let deep_supervision := training_deep_supervision parameters in
  let volume := Np.expand_dims_last padded in
  let sh := shape padded ++ [training_nb_classes parameters] in
  let cells := patch_grid volume patch_size patch_offset in
  selected_mode parameters = Patch ->
  length patch_size = 3%nat -> length patch_offset = 3%nat ->
  wf_shape (shape data) ->
  padding_for_inference_both_ends_patchwise data patch_size
  = Some (padded, extra_dims) ->
  run_predictions data model w = (w', Returned r) ->
  (exists fr0 fr,
     Np.zeros sh = Some fr0 /\
     process_cells volume model patch_size patch_offset deep_supervision
       cells fr0 w = (w', Some fr) /\
     strip_padding fr extra_dims = Some r) /\
  (forall i j k c,
     elt r [i; j; k; c]
     = vmax_list
         (covering_predictions volume model patch_size patch_offset
            deep_supervision sh cells (padded_voxel extra_dims [i; j; k; c]))
         vzero) /\
  (forall i j k c v vs u,
     covering_predictions volume model patch_size patch_offset
       deep_supervision sh cells (padded_voxel extra_dims [i; j; k; c])
     = v :: vs ->
     In u (v :: vs) -> (vzero <= u)%Qc ->
     Some (elt r [i; j; k; c]) = maximum_of (v :: vs)) /\
  (forall cells' fr0 w0,
     Permutation cells cells' -> Np.zeros sh = Some fr0 ->
     exists w1 fr',
       process_cells volume model patch_size patch_offset deep_supervision
         cells' fr0 w0 = (w1, Some fr') /\
       forall i j k c,
         elt fr' (padded_voxel extra_dims [i; j; k; c]) = elt r [i; j; k; c]).
Proof.
  intros parameters patch_size patch_offset deep_supervision volume sh cells
         Hmode Hsize Hoffset Hwf Hpad E.
  unfold run_predictions in E. fold parameters in E. rewrite Hmode in E.
  unfold __run_predictions_patch, try_mode in E.
  destruct (patch_mode_body _ _ _ w) as [w1 [a|]] eqn:B; [|discriminate].
  inversion E; subst w1 a. clear E. unfold patch_mode_body in B.
  apply bind_some in B. destruct B as (w2 & p & B1 & B).
  inversion B1; subst w2 p. clear B1. fold parameters in B.
  unfold patch_mode_steps in B.
  fold patch_size patch_offset deep_supervision in B.
  apply bind_some in B. destruct B as (w1 & [padded0 extra0] & E1 & B).
  apply lift_some in E1. destruct E1 as [-> E1].
  rewrite Hpad in E1. inversion E1; subst padded0 extra0. clear E1.
  apply bind_some in B. destruct B as (w1 & fr0 & E2 & B).
  apply lift_some in E2. destruct E2 as [-> E2]. fold sh in E2.
  apply bind_some in B. destruct B as (w3 & fr & E3 & B).
  apply lift_some in B. destruct B as [-> B]. fold volume in E3.
  apply patch_loops_cells in E3. fold cells in E3.
  destruct (padding_patchwise_spec data patch_size padded extra_dims Hwf Hpad)
    as (d0 & d1 & d2 & f0 & b0 & f1 & b1 & f2 & b2 & Hd & He & Hp & Hdn & Hf0 & Hf1 & Hf2).
  assert (length (shape volume) = 4%nat) as Hvol.
  { unfold volume. cbn [Np.expand_dims_last shape]. rewrite Hp. reflexivity. }
  pose proof (process_cells_fold volume model patch_size patch_offset
                deep_supervision Hsize Hoffset Hvol cells fr0 w) as F.
  rewrite E3 in F. cbn [snd] in F. symmetry in F.
  destruct (fold_cells_spec volume model patch_size patch_offset
              deep_supervision cells fr0 fr F) as [S V].
  pose proof (zeros_shape _ _ E2) as S0.
  assert (forall i j k c,
            elt r [i; j; k; c] = elt fr (padded_voxel extra_dims [i; j; k; c])) as R.
  { subst extra_dims.
    apply (strip_padding_elt fr r d0 d1 d2 f0 b0 f1 b1 f2 b2
             (training_nb_classes parameters)); try lia; [|exact B].
    rewrite S, S0. unfold sh. rewrite Hp. reflexivity. }
  assert (forall i j k c,
            elt r [i; j; k; c]
            = vmax_list
                (covering_predictions volume model patch_size patch_offset
                   deep_supervision sh cells (padded_voxel extra_dims [i; j; k; c]))
                vzero) as Vr.
  { intros i j k c. rewrite R, V, S0.
    rewrite (zeros_elt _ _ _ E2). reflexivity. }
  split; [|split; [|split]].
  - exists fr0, fr. auto.
  - exact Vr.
  - intros i j k c v vs u Hc Hin Hu. rewrite Vr, Hc. cbn [maximum_of].
    f_equal. eapply vmax_list_zero; eauto.
  - intros cells' fr0' w0 P Z0. rewrite E2 in Z0. inversion Z0; subst fr0'.
    destruct (fold_cells_permutation volume model patch_size patch_offset
                deep_supervision cells cells' fr0 fr P F) as (fr' & F' & _ & V').
    pose proof (process_cells_fold volume model patch_size patch_offset
                  deep_supervision Hsize Hoffset Hvol cells' fr0 w0) as G.
    rewrite F' in G.
    destruct (process_cells volume model patch_size patch_offset
                deep_supervision cells' fr0 w0) as [w1 o] eqn:Q.
    cbn [snd] in G. subst o. exists w1, fr'. split; [reflexivity|].
    intros i j k c. rewrite V'. symmetry. apply R.
Qed.

(** The voxel (2, 2, 2) of the volume of [NegScenario], covered by eight
    patches. *)
Lemma C4_overlap_keeps_the_larger_value_witness :
  elt (result_of NegScenario.result) [2; 2; 2; 0]
  = vmax_list (NegScenario.predictions [2; 2; 2; 0]) vzero.
Proof.
  refine (proj1 (proj2 (C4_overlap_keeps_the_larger_value NegScenario.volume
            NegScenario.model (start NegScenario.parameters)
            (fst NegScenario.result) (result_of NegScenario.result)
            (Np.pad NegScenario.volume [(0, 0); (0, 0); (0, 0)])
            [0; 0; 0; 0; 0; 0] _ _ _ _ _ _)) 2 2 2 0).
  - reflexivity.
  - reflexivity.
  - reflexivity.
  - repeat constructor; lia.
  - reflexivity.
  - apply (outcome_eta NegScenario.result). vm_compute. discriminate.
Defined.

(** ** C5: shifted and skipped patches *)

Lemma shift_boundaries_overflow lo hi extent :
  extent < hi ->
  shift_boundaries (lo, hi) extent =
    if lo - (hi - extent) <? 0 then None else Some (lo - (hi - extent), extent).
Proof.
  intros H. unfold shift_boundaries.
  destruct (hi >=? extent) eqn:E; [|lia].
  cbn [fst]. replace (Z.abs (extent - hi)) with (hi - extent) by lia.
  destruct (lo - (hi - extent) <? 0); [reflexivity|].
  f_equal. f_equal. lia.
Qed.

(** C5. In patch mode, for every grid index (x, y, z) and along every
    axis: a candidate patch whose upper boundary exceeds the extent of the
    padded volume is moved back by the overflow and then ends at the far
    edge, unless its lower boundary would become negative, in which case
    the position is given up; a given-up position makes the loop body
    return normally, with the accumulator and the world (no model
    invocation) unchanged, and otherwise inference runs on the shifted
    boundaries. *)
Theorem C5_shift_or_skip
  (data : ndarray) (model : Model) (patch_size patch_offset : list Z)
  (deep_supervision : bool) (x y z : Z) (final_result : ndarray) (w : world)
  (px py pz ox oy oz d0 d1 d2 : Z)
  (Hsize : patch_size = [px; py; pz])
  (Hoffset : patch_offset = [ox; oy; oz])
  (Hshape : shape data = [d0; d1; d2; 1]) :
  let bx := patch_boundaries x px ox in
  let by_ := patch_boundaries y py oy in
  let bz := patch_boundaries z pz oz in
  (forall b extent, In (b, extent) [(bx, d0); (by_, d1); (bz, d2)] ->
     extent < snd b ->
     let overflow := snd b - extent in
     (0 <= fst b - overflow ->
        shift_boundaries b extent = Some (fst b - overflow, extent)) /\
     (fst b - overflow < 0 -> shift_boundaries b extent = None)) /\
  (shift_boundaries bx d0 = None \/ shift_boundaries by_ d1 = None
     \/ shift_boundaries bz d2 = None ->
   patch_body data model patch_size patch_offset deep_supervision x y z
     final_result w = (w, Some final_result)) /\
  (forall bx' by' bz',
     shift_boundaries bx d0 = Some bx' -> shift_boundaries by_ d1 = Some by' ->
     shift_boundaries bz d2 = Some bz' ->
     patch_body data model patch_size patch_offset deep_supervision x y z
       final_result w
     = predict_patch data model deep_supervision bx' by' bz' final_result w).
Proof.
  intros bx by_ bz. subst patch_size patch_offset.
  split; [|split].
  - intros [lo hi] extent _ Hover. cbn [fst snd] in *. cbn zeta.
    rewrite (shift_boundaries_overflow lo hi extent Hover).
    split; intros H.
    + destruct (lo - (hi - extent) <? 0) eqn:E; [lia|reflexivity].
    + destruct (lo - (hi - extent) <? 0) eqn:E; [reflexivity|lia].
  - intros H. unfold patch_body, bind, lift, ret. rewrite Hshape.
    cbn [nth_error]. fold bx by_ bz.
    destruct (shift_boundaries bx d0) as [bx'|]; [|reflexivity].
    destruct (shift_boundaries by_ d1) as [by'|]; [|reflexivity].
    destruct (shift_boundaries bz d2) as [bz'|]; [|reflexivity].
    destruct H as [H|[H|H]]; discriminate H.
  - intros bx' by' bz' Hx Hy Hz. unfold patch_body, bind, lift, ret.
    rewrite Hshape. cbn [nth_error]. fold bx by_ bz.
    rewrite Hx, Hy, Hz. reflexivity.
Qed.

(** A patch [3,7) over an extent of 5 is moved to [1,5); a patch [0,4)
    over an extent of 3 is given up. *)
Lemma C5_shift_or_skip_witness :
  shift_boundaries (patch_boundaries 1 4 1) 5 = Some (1, 5) /\
  shift_boundaries (patch_boundaries 0 4 1) 3 = None.
Proof.
  split.
  - refine (proj1 (proj1 (C5_shift_or_skip
              (Np.expand_dims_last NegScenario.volume) NegScenario.model
              [4; 4; 4] [1; 1; 1] false 1 1 1 NegScenario.volume
              (start NegScenario.parameters) 4 4 4 1 1 1 5 5 5
              eq_refl eq_refl eq_refl)
              (patch_boundaries 1 4 1) 5 _ _) _).
    + left. reflexivity.
    + reflexivity.
    + intros H. discriminate H.
  - refine (proj2 (proj1 (C5_shift_or_skip
              (Np.expand_dims_last ModeScenario.small) NegScenario.model
              [4; 4; 4] [1; 1; 1] false 0 0 0 ModeScenario.small
              (start NegScenario.parameters) 4 4 4 1 1 1 3 3 3
              eq_refl eq_refl eq_refl)
              (patch_boundaries 0 4 1) 3 _ _) _).
    + left. reflexivity.
    + reflexivity.
    + reflexivity.
Defined.

(** ** C6: the scenario of a (64, 64, 40) volume *)

(** C6, as stated: three non-skipped patch positions along each of the
    three axes.  The axis of extent 40 has two. *)
Lemma C6_not_three_positions_per_axis :
  ~ (forall extent, In extent [64; 64; 40] ->
       option_map (fun l => length (non_skipped l)) (axis_positions extent 32 8)
       = Some 3%nat).
Proof.
  intros H. specialize (H 40). discriminate H. simpl. auto.
Qed.

(** C6, amended. For a volume of shape (64, 64, 40), patches of size
    (32, 32, 32) and offsets (8, 8, 8): the two axes of extent 64 have
    three patch positions each, [0,32), [24,56) and the last one shifted
    to [32,64); the axis of extent 40 has two, [0,32) and the last one
    shifted to [8,40); no position is given up; the model is invoked on
    the 3 * 3 * 2 = 18 patches these positions span, and the volume
    returned has shape (64, 64, 40, 1). *)
Theorem C6_positions_of_the_scenario :
  axis_positions 64 32 8 = Some [Some (0, 32); Some (24, 56); Some (32, 64)] /\
  axis_positions 40 32 8 = Some [Some (0, 32); Some (8, 40)] /\
  patch_grid (Np.expand_dims_last EdgeScenario.volume) [32; 32; 32] [8; 8; 8]
  = grid 3 3 2 /\
  map EdgeScenario.corner (calls (fst EdgeScenario.result))
  = flat_map (fun x => flat_map (fun y => map (fun z =>
        ([1; 32; 32; 32; 1], 10000 * x + 100 * y + z)) [0; 8]) [0; 24; 32])
      [0; 24; 32] /\
  returned_shape (snd EdgeScenario.result) = Some [64; 64; 40; 1].
Proof.
  repeat split; vm_compute; reflexivity.
Qed.


(** ** C7: a failing model invocation *)

Lemma keeps_run model input : keeps (clean model) (run model input).
Proof.
  intros w w' outs Hw E. unfold run in E. inversion E; subst. clear E.
  unfold clean. cbn [calls]. apply Forall_app. split; [exact Hw|].
  constructor; [congruence|constructor].
Qed.

Lemma keeps_store model l : keeps (clean model) (store_new_axial_size l).
Proof. intros w w' u Hw E. inversion E; subst. exact Hw. Qed.

Lemma keeps_get model : keeps (clean model) get_parameters.
Proof. intros w w' u Hw E. inversion E; subst. exact Hw. Qed.

Ltac keep_step :=
  match goal with
  | |- keeps _ (bind _ _) => apply keeps_bind; [|intros]
  | |- keeps _ (lift _) => apply keeps_lift
  | |- keeps _ (ret _) => apply keeps_ret
  | |- keeps _ raise => apply keeps_raise
  | |- keeps _ (for_each _ _ _) => apply keeps_for_each; intros
  | |- keeps _ (run _ _) => apply keeps_run
  | |- keeps _ (unwrap _ _ ) => apply keeps_unwrap
  | |- keeps _ (store_new_axial_size _) => apply keeps_store
  | |- keeps _ get_parameters => apply keeps_get
  | |- keeps _ (if ?b then _ else _) => destruct b
  | |- keeps _ (match ?x with _ => _ end) => destruct x
  | |- keeps _ (let _ := _ in _) => cbv zeta
  end.

Ltac keep_all := cbv beta zeta; repeat (keep_step; cbv beta zeta).

Lemma keeps_extract_slab model data plane lo hi :
  keeps (clean model) (extract_slab data plane lo hi).
Proof. unfold extract_slab. keep_all. Qed.

Lemma keeps_write_chunk model fr plane sl keep pred c :
  keeps (clean model) (write_chunk fr plane sl keep pred c).
Proof. unfold write_chunk. keep_all. Qed.

Lemma keeps_write_center model fr plane slice half pred c :
  keeps (clean model) (write_center fr plane slice half pred c).
Proof. unfold write_center. keep_all. Qed.

Lemma keeps_nonoverlapping_chunk model data p ds pad_value scale chunk st :
  keeps (clean model)
    (nonoverlapping_chunk data model p ds pad_value scale chunk st).
Proof.
  unfold nonoverlapping_chunk. destruct st as [fr unpad]. keep_all;
    try apply keeps_extract_slab; apply keeps_write_chunk.
Qed.

Lemma keeps_single_slice model data nas ds slice fr :
  keeps (clean model) (single_slice data model nas ds slice fr).
Proof. unfold single_slice. keep_all. Qed.

Lemma keeps_window_slice model data p nas ds half slice fr :
  keeps (clean model) (window_slice data model p nas ds half slice fr).
Proof.
  unfold window_slice, window_input. keep_all;
    try apply keeps_extract_slab; apply keeps_write_center.
Qed.

Lemma keeps_slabbed_body model data ds :
  keeps (clean model) (slabbed_body data model ds).
Proof.
  unfold slabbed_body, slabbed_steps, swap_new_axial_size, upper_boundary_of.
  keep_all; first [apply keeps_nonoverlapping_chunk
                  |apply keeps_single_slice|apply keeps_window_slice].
Qed.

Lemma keeps_patch_body model data ps po ds x y z fr :
  keeps (clean model) (patch_body data model ps po ds x y z fr).
Proof. unfold patch_body, predict_patch. keep_all. Qed.

Lemma keeps_patch_mode_body model data ds :
  keeps (clean model) (patch_mode_body data model ds).
Proof.
  unfold patch_mode_body, patch_mode_steps, patch_loops.
  keep_all. apply keeps_patch_body.
Qed.

Lemma clean_start model parameters : clean model (start parameters).
Proof. constructor. Qed.

Lemma clean_no_failure model w input :
  clean model w -> In input (calls w) -> model input = None -> False.
Proof.
  unfold clean. rewrite Forall_forall. intros H Hin Hnone.
  exact (H input Hin Hnone).
Qed.

Lemma try_mode_fatal {A} model mode (m : M A) parameters input :
  keeps (clean model) m ->
  In input (calls (fst (try_mode mode m (start parameters)))) ->
  model input = None ->
  snd (try_mode mode m (start parameters))
  = Raised (ValueError (mode_message mode)).
Proof.
  intros Hk Hin Hnone. unfold try_mode in *.
  destruct (m (start parameters)) as [w' [a|]] eqn:E; [|reflexivity].
  exfalso. cbn [fst] in Hin.
  eapply (clean_no_failure model w'); eauto.
  eapply Hk; [apply clean_start|exact E].
Qed.

(** C7. In every mode, if some invocation of the model made during a call
    of [run_predictions] raises, the call raises a [ValueError] whose
    message names the selected mode, "Segmentation inference (<mode> mode)
    could not fully proceed."; the outcome is that exception, so no
    volume, partial or not, is returned. *)
Theorem C7_model_failure_is_fatal (data : ndarray) (model : Model)
  (parameters : ConfigResources) (input : ndarray) :
  In input (calls (fst (run_predictions data model (start parameters)))) ->
  model input = None ->
  snd (run_predictions data model (start parameters))
  = Raised (ValueError (mode_message (mode_name (selected_mode parameters))))
  /\ returned_shape (snd (run_predictions data model (start parameters))) = None.
Proof.
  intros Hin Hnone.
  assert (snd (run_predictions data model (start parameters))
          = Raised (ValueError
                      (mode_message (mode_name (selected_mode parameters))))) as R.
  { unfold run_predictions in *. cbn [config start] in *.
    destruct (selected_mode parameters); cbn [mode_name].
    - unfold __run_predictions_whole, try_mode, run in *.
      cbn [config calls start app] in *.
      destruct (model (Np.expand_dims_last (Np.expand_dims_first data)))
        as [outs|] eqn:E; [|reflexivity].
      exfalso.
      assert (In input [Np.expand_dims_last (Np.expand_dims_first data)]) as Hin'.
      { destruct (first (PList outs)) as [p0|]; [|exact Hin].
        destruct (first p0) as [[l|r]|]; exact Hin. }
      destruct Hin' as [<-|[]]. congruence.
    - apply (try_mode_fatal model "slab" _ parameters input);
        [apply keeps_slabbed_body|exact Hin|exact Hnone].
    - apply (try_mode_fatal model "patch" _ parameters input);
        [apply keeps_patch_mode_body|exact Hin|exact Hnone]. }
  split; [exact R|]. rewrite R. reflexivity.
Qed.

(** A model whose first invocation raises, in each of the three modes. *)
Lemma C7_model_failure_is_fatal_witness :
  snd ModeScenario.whole_broken
  = Raised (ValueError "Segmentation inference (whole mode) could not fully proceed.") /\
  snd ModeScenario.slab_broken
  = Raised (ValueError "Segmentation inference (slab mode) could not fully proceed.") /\
  snd ModeScenario.patch_broken
  = Raised (ValueError "Segmentation inference (patch mode) could not fully proceed.").
Proof.
  split; [|split].
  - apply (C7_model_failure_is_fatal ModeScenario.volume Samples.broken
             (Samples.whole_config 2)
             (Np.expand_dims_last (Np.expand_dims_first ModeScenario.volume))).
    + left. reflexivity.
    + reflexivity.
  - apply (C7_model_failure_is_fatal ModeScenario.volume Samples.broken
             (Samples.slab_config "coronal" 2 true)
             (nth 0 (calls (fst ModeScenario.slab_broken))
                (mk_array [] (fun _ => vzero)))).
    + vm_compute. left. reflexivity.
    + reflexivity.
  - apply (C7_model_failure_is_fatal ModeScenario.small Samples.broken
             ModeScenario.patch_parameters
             (nth 0 (calls (fst ModeScenario.patch_broken))
                (mk_array [] (fun _ => vzero)))).
    + vm_compute. left. reflexivity.
    + reflexivity.
Defined.

(** ** C8: the configuration after a call *)

(** C8. With [swap_training_input] set, a call that returns normally
    leaves the caller's configuration with the two entries of
    [new_axial_size] exchanged: the field does not hold the value it had
    before the call. *)
Theorem C8_configuration_is_mutated :
  new_axial_size (config (start SwapScenario.parameters)) = Some [1; 2] /\
  new_axial_size (config (fst SwapScenario.result)) = Some [2; 1] /\
  returned_shape (snd SwapScenario.result) = Some [2; 1; 1; 1].
Proof.
  repeat split; vm_compute; reflexivity.
Qed.


(** ** C9: the slicing axis in the sliding window of thickness 1 *)

Lemma upper_boundary_of_returns data plane d0 d1 d2 w :
  shape data = [d0; d1; d2] ->
  exists ub, upper_boundary_of data plane w = (w, Some ub).
Proof.
  intros Hsh. unfold upper_boundary_of, bind, lift, ret. rewrite Hsh. cbn [nth_error].
  destruct (is_plane plane "sagittal"); [eexists; reflexivity|].
  destruct (is_plane plane "coronal"); eexists; reflexivity.
Qed.

(** In the sliding window of thickness 1, the strategy does the same
    whatever the slicing plane. *)
Lemma thin_slices_ignore_the_plane p plane data model ds d0 d1 d2 w :
  predictions_non_overlapping p = false ->
  training_slab_size p = 1 ->
  shape data = [d0; d1; d2] ->
  slabbed_steps (with_slicing_plane p plane) data model ds w
  = slabbed_steps p data model ds w.
Proof.
  intros Hnov Hslab Hsh. unfold slabbed_steps.
  cbn [with_slicing_plane slicing_plane training_slab_size training_nb_classes
       predictions_non_overlapping swap_training_input new_axial_size].
  rewrite Hnov, Hslab. cbn [Z.eqb Pos.eqb]. cbv zeta.
  change (swap_new_axial_size (with_slicing_plane p plane))
    with (swap_new_axial_size p).
  unfold bind.
  destruct (swap_new_axial_size p w) as [w1 [nas|]]; [|reflexivity].
  destruct (upper_boundary_of_returns data plane d0 d1 d2 w1 Hsh) as [ub1 E1].
  destruct (upper_boundary_of_returns data (slicing_plane p) d0 d1 d2 w1 Hsh)
    as [ub2 E2].
  rewrite E1, E2. reflexivity.
Qed.

(** C9. With [slicing_plane] sagittal, [training_slab_size] 1 and a
    volume of shape (2, 2, 4), the model is invoked four times, on the
    four 2x2 slices of axis 2 (the input of invocation [s] holds voxel
    (1, 1, s)), not on the two 2x4 slices of axis 0. *)
Theorem C9_thin_slices_follow_axis_2 :
  map SagittalScenario.voxel11 (calls (fst SagittalScenario.result))
  = map (fun s => ([1; 2; 2; 1], 10000 * 1 + 100 * 1 + s)) [0; 1; 2; 3] /\
  returned_shape (snd SagittalScenario.result) = Some [2; 2; 4; 1].
Proof.
  repeat split; vm_compute; reflexivity.
Qed.


(** ** C10: empty slices in the sliding window of thickness 1 *)

Lemma single_slice_skip data model nas ds s fr w d0 d1 d2 :
  shape data = [d0; d1; d2] ->
  0 <= s < d2 ->
  (forall i j, 0 <= i < d0 -> 0 <= j < d1 ->
     vltb vtenth (elt data [i; j; s]) = false) ->
  single_slice (Np.expand_dims_last data) model nas ds s fr w = (w, Some fr).
Proof.
  intros Hsh Hs Hempty. unfold single_slice, bind, lift, Np.getitem.
  cbn [Np.expand_dims_last shape]. rewrite Hsh.
  cbn [app Np.resolve Np.All].
  unfold Np.slice_bounds.
  replace ((- d2 <=? s) && (s <? d2)) with true by lia.
  cbn.
  destruct (s <? 0) eqn:E; [lia|].
  rewrite count_gt_zero; [reflexivity|].
  cbn [shape elt]. intros idx Hidx.
  apply in_indices_cons in Hidx. destruct Hidx as (i & idx1 & -> & Hi & Hidx).
  apply in_indices_cons in Hidx. destruct Hidx as (j & idx2 & -> & Hj & Hidx).
  simpl in Hidx. destruct Hidx as [<-|[]].
  cbn. apply Hempty; lia.
Qed.

Lemma single_slice_keeps_zero data model nas ds slice fr s :
  0 <= slice -> slice <> s -> slice_is_zero s fr ->
  yields (single_slice data model nas ds slice fr) (slice_is_zero s).
Proof.
  intros H0 Hne Hz. unfold single_slice. repeat yield_step.
  - apply yields_ret. exact Hz.
  - apply yields_for_each; [|exact Hz].
    intros c fr1 Hz1. yield_step. apply yields_lift. intros fr2 E.
    intros i j c'. rewrite (setitem_other_slice _ _ _ _ _ s i j c' E H0 Hne).
    apply Hz1.
Qed.

Lemma thin_slices_keep_zero p data model ds d0 d1 d2 s :
  predictions_non_overlapping p = false ->
  training_slab_size p = 1 ->
  shape data = [d0; d1; d2] -> 0 <= s < d2 ->
  (forall i j, 0 <= i < d0 -> 0 <= j < d1 ->
     vltb vtenth (elt data [i; j; s]) = false) ->
  yields (slabbed_steps p data model ds) (slice_is_zero s).
Proof.
  intros Hnov Hslab Hsh Hs Hempty. unfold slabbed_steps.
  rewrite Hnov, Hslab. cbn [Z.eqb Pos.eqb]. cbv zeta.
  yield_step. yield_step.
  eapply yields_bind_with with (R := slice_is_zero s).
  { apply yields_lift. intros fr. apply zeros_slice_is_zero. }
  intros fr Hfr. yield_step.
  apply yields_for_each_in; [|exact Hfr].
  intros slice fr1 Hin Hz1. apply in_range in Hin.
  destruct (Z.eq_dec slice s) as [->|Hne].
  - intros w w' fr2 E.
    rewrite (single_slice_skip data model _ ds s fr1 w d0 d1 d2 Hsh Hs Hempty) in E.
    inversion E; subst. exact Hz1.
  - apply single_slice_keeps_zero; [lia|exact Hne|exact Hz1].
Qed.

(** C10. The empty-slice skip does not follow the slicing plane.  Under a
    sagittal plane, with the sliding window of thickness 1, the slices
    tested and skipped are those of axis 2 (lines 167-170), not the
    sagittal ones.  For a (2, 2, 4) volume whose sagittal slice 0 holds
    no voxel above 0.1 and whose sagittal slice 1 holds ones, and a model
    that answers 1: no slice of axis 2 is empty, so the model is invoked
    four times (there are two sagittal slices, one of them empty), and
    every probability of the empty sagittal slice 0 is 1 in the volume
    returned, not 0. *)
Theorem C10_empty_sagittal_slice_is_not_skipped :
  option_map shape EmptySliceScenario.slice0 = Some [2; 4] /\
  option_map (fun a => Np.count_gt a vtenth) EmptySliceScenario.slice0 = Some 0 /\
  length (calls (fst EmptySliceScenario.result)) = 4%nat /\
  returned_shape (snd EmptySliceScenario.result) = Some [2; 2; 4; 1] /\
  map (returned_code (snd EmptySliceScenario.result))
    EmptySliceScenario.slice0_voxels
  = repeat (Some 1) 8.
Proof.
  split; [|split; [|split; [|split]]]; vm_compute; reflexivity.
Qed.

(** X24. In slab mode with the sliding window ([predictions_non_overlapping]
    unset) and [training_slab_size] 1, for a slice [s] of axis 2 (the axis
    this sub-mode walks, whatever the slicing plane) none of whose voxels
    exceeds the double 0.1: the iteration for [s] returns at once, leaving
    the probability volume and the world as they were, so the model is
    not invoked for it; and in the volume a call returns, every
    probability of slice [s] is still zero. *)
Theorem X24_empty_slice_of_axis_2_is_skipped (data : ndarray) (model : Model)
  (w : world) (d0 d1 d2 s : Z) :
  selected_mode (config w) = Slab ->
  predictions_non_overlapping (config w) = false ->
  training_slab_size (config w) = 1 ->
  shape data = [d0; d1; d2] ->
  0 <= s < d2 ->
  (forall i j, 0 <= i < d0 -> 0 <= j < d1 ->
     vltb vtenth (elt data [i; j; s]) = false) ->
  (forall new_axial_size final_result w0,
     single_slice (Np.expand_dims_last data) model new_axial_size
       (training_deep_supervision (config w)) s final_result w0
     = (w0, Some final_result)) /\
  (forall w' r, run_predictions data model w = (w', Returned r) ->
     forall i j c, elt r [i; j; s; c] = vzero).
Proof.
  intros Hmode Hnov Hslab Hsh Hs Hempty. split.
  - intros nas fr w0. eapply single_slice_skip; eauto.
  - intros w' r E. unfold run_predictions in E. rewrite Hmode in E.
    unfold __run_predictions_slabbed, try_mode in E.
    destruct (slabbed_body _ _ _ w) as [w1 [a|]] eqn:B; [|discriminate].
    inversion E; subst. unfold slabbed_body in B.
    apply bind_some in B. destruct B as (w2 & p & B1 & B).
    inversion B1; subst.
    eapply (thin_slices_keep_zero (config w2)); eauto.
Qed.

(** A volume of three slices, the middle one empty: two invocations, and
    the middle slice of the result holds zeros. *)
Lemma X24_empty_slice_of_axis_2_is_skipped_witness :
  length (calls (fst GapScenario.result)) = 2%nat /\
  elt (result_of GapScenario.result) [0; 1; 1; 0] = vzero.
Proof.
  split; [vm_compute; reflexivity|].
  refine (proj2 (X24_empty_slice_of_axis_2_is_skipped GapScenario.volume (Samples.echo 1)
                   (start GapScenario.parameters) 2 2 3 1 _ _ _ _ _ _)
            (fst GapScenario.result) (result_of GapScenario.result) _ 0 1 0).
  - reflexivity.
  - reflexivity.
  - reflexivity.
  - reflexivity.
  - lia.
  - intros i j _ _. reflexivity.
  - apply (outcome_eta GapScenario.result). vm_compute. discriminate.
Defined.
(** * Further properties of the strategies *)

Lemma shift_boundaries_cases lo hi extent :
  shift_boundaries (lo, hi) extent =
    if hi <? extent then Some (lo, hi)
    else if lo - (hi - extent) <? 0 then None
    else Some (lo - (hi - extent), extent).
Proof.
  unfold shift_boundaries.
  destruct (hi >=? extent) eqn:E, (hi <? extent) eqn:E'; try lia; [|reflexivity].
  cbn [fst]. replace (Z.abs (extent - hi)) with (hi - extent) by lia.
  destruct (lo - (hi - extent) <? 0); [reflexivity|]. f_equal. f_equal. lia.
Qed.

(** ** The boundaries of a patch *)

Lemma boundaries_within (i size offset extent lo hi : Z) :
  0 <= i -> offset <= size ->
  shift_boundaries (patch_boundaries i size offset) extent = Some (lo, hi) ->
  0 <= lo /\ hi <= extent /\ hi - lo = size.
Proof.
  intros Hi Ho. unfold patch_boundaries. rewrite shift_boundaries_cases.
  assert (0 <= i * (size - offset)) by nia.
  destruct (_ <? extent) eqn:E1.
  - intros H'. inversion H'; subst. lia.
  - destruct (_ <? 0) eqn:E2; [discriminate|].
    intros H'. inversion H'; subst. lia.
Qed.

Lemma boundaries_none_iff (i size offset extent : Z) :
  0 <= i -> offset <= size ->
  (shift_boundaries (patch_boundaries i size offset) extent = None
   <-> extent < size).
Proof.
  intros Hi Ho. unfold patch_boundaries. rewrite shift_boundaries_cases.
  assert (0 <= i * (size - offset)) by nia.
  destruct (_ <? extent) eqn:E1.
  - split; [discriminate|lia].
  - destruct (_ <? 0) eqn:E2; split; intros; try reflexivity; try discriminate; lia.
Qed.

(** X1. A patch that is kept lies inside the volume and has the full
    patch size: for a grid index [i >= 0] and an offset not above the
    patch size, the boundaries that lines 242-251 leave, when the cell is
    not given up, satisfy [0 <= lo], [hi <= extent] and [hi - lo = size]. *)
Theorem X1_patch_lies_within_the_extent (i size offset extent lo hi : Z) :
  0 <= i -> offset <= size ->
  shift_boundaries (patch_boundaries i size offset) extent = Some (lo, hi) ->
  0 <= lo /\ hi <= extent /\ hi - lo = size.
Proof.
  intros Hi Ho. unfold patch_boundaries. rewrite shift_boundaries_cases.
  assert (0 <= i * (size - offset)) by nia.
  destruct (_ <? extent) eqn:E1.
  - intros H'. inversion H'; subst. lia.
  - destruct (_ <? 0) eqn:E2; [discriminate|].
    intros H'. inversion H'; subst. lia.
Qed.

(** Grid index 1 of patches of size 4 with offset 1 over an extent of 5:
    the patch [3,7) is moved to [1,5). *)
Lemma X1_patch_lies_within_the_extent_witness :
  shift_boundaries (patch_boundaries 1 4 1) 5 = Some (1, 5) /\
  (0 <= 1 /\ 5 <= 5 /\ 5 - 1 = 4).
Proof.
  split; [reflexivity|].
  apply (X1_patch_lies_within_the_extent 1 4 1 5 1 5); [lia|lia|reflexivity].
Defined.

(** X2. A cell of the grid is given up (the [continue] of lines 249-250)
    exactly when the extent of the axis is smaller than the patch size,
    whatever the grid index [i >= 0], for an offset not above the size. *)
Theorem X2_cell_skipped_iff_extent_too_small (i size offset extent : Z) :
  0 <= i -> offset <= size ->
  (shift_boundaries (patch_boundaries i size offset) extent = None
   <-> extent < size).
Proof.
  intros Hi Ho. unfold patch_boundaries. rewrite shift_boundaries_cases.
  assert (0 <= i * (size - offset)) by nia.
  destruct (_ <? extent) eqn:E1.
  - split; [discriminate|lia].
  - destruct (_ <? 0) eqn:E2; split; intros; try reflexivity; try discriminate; lia.
Qed.

(** A patch of size 4 over an extent of 3. *)
Lemma X2_cell_skipped_iff_extent_too_small_witness :
  shift_boundaries (patch_boundaries 0 4 1) 3 = None <-> 3 < 4.
Proof. apply (X2_cell_skipped_iff_extent_too_small 0 4 1 3); lia. Defined.

(** ** Steps along one axis *)

Lemma ceil_div_bounds a b n :
  0 < b -> ceil_div a b = Some n -> (n - 1) * b < a <= n * b.
Proof.
  unfold ceil_div. intros Hb. destruct (b =? 0) eqn:E; [lia|].
  intros H. inversion H; subst n. clear H.
  pose proof (Z.div_mod (- a) b ltac:(lia)) as D.
  pose proof (Z.mod_pos_bound (- a) b Hb) as M.
  nia.
Qed.

Lemma axis_is_covered size offset extent n v :
  0 <= offset < size -> size <= extent -> 0 <= v < extent ->
  ceil_div extent (size - offset) = Some n ->
  exists i lo hi,
    In i (range 0 n) /\
    shift_boundaries (patch_boundaries i size offset) extent = Some (lo, hi) /\
    lo <= v < hi.
Proof.
  intros Ho Hs Hv Hn.
  apply ceil_div_bounds in Hn; [|lia].
  set (stride := size - offset) in *.
  assert (0 < stride) as Hst by (unfold stride; lia).
  pose proof (Z.div_mod v stride ltac:(lia)) as D.
  pose proof (Z.mod_pos_bound v stride Hst) as M.
  set (i := v / stride) in *.
  assert (0 <= i) by (apply Z.div_pos; lia).
  assert (i < n) by nia.
  exists i. unfold patch_boundaries. fold stride.
  rewrite shift_boundaries_cases.
  destruct (i * stride + size <? extent) eqn:E1.
  - exists (i * stride), (i * stride + size). split; [apply in_range; lia|].
    split; [reflexivity|]. unfold stride in *. nia.
  - destruct (i * stride - (i * stride + size - extent) <? 0) eqn:E2; [lia|].
    exists (i * stride - (i * stride + size - extent)), extent.
    split; [apply in_range; lia|]. split; [reflexivity|]. unfold stride in *. nia.
Qed.

(** ** Rules for [always] and [adds] *)

Lemma always_ret {A} I (x : A) : always I (ret x).
Proof. intros w H. exact H. Qed.

Lemma always_raise {A} I : always I (@raise A).
Proof. intros w H. exact H. Qed.

Lemma always_lift {A} I (o : option A) : always I (lift o).
Proof. intros w H. exact H. Qed.

Lemma always_bind {A B} I (m : M A) (f : A -> M B) :
  always I m -> (forall a, always I (f a)) -> always I (bind m f).
Proof.
  intros Hm Hf w H. unfold bind. specialize (Hm w H).
  destruct (m w) as [w1 [a|]]; cbn [fst] in *; [apply Hf; exact Hm|exact Hm].
Qed.

Lemma always_bind_lift {A B} I (o : option A) (f : A -> M B) :
  (forall a, o = Some a -> always I (f a)) -> always I (bind (lift o) f).
Proof.
  intros Hf w H. unfold bind, lift. destruct o as [a|]; [|exact H].
  apply (Hf a eq_refl). exact H.
Qed.

Lemma always_for_each_in {S} I (l : list Z) (body : Z -> S -> M S) :
  (forall i s, In i l -> always I (body i s)) ->
  forall s, always I (for_each l body s).
Proof.
  induction l as [|i l IH]; intros Hb s; simpl.
  - apply always_ret.
  - apply always_bind; [apply Hb; left; reflexivity|].
    intros s'. apply IH. intros j s0 Hj. apply Hb. right. exact Hj.
Qed.

Lemma always_for_each {S} I (l : list Z) (body : Z -> S -> M S) :
  (forall i s, always I (body i s)) -> forall s, always I (for_each l body s).
Proof. intros Hb. apply always_for_each_in. intros i s _. apply Hb. Qed.

Lemma always_unwrap I ds outs : always I (unwrap ds outs).
Proof. unfold unwrap. destruct ds; [apply always_lift|apply always_ret]. Qed.

Lemma adds_ret {A} (x : A) : adds 0 (ret x).
Proof. intros w w' a E. apply ret_some in E. destruct E as [-> _]. lia. Qed.

Lemma adds_raise {A} n : adds n (@raise A).
Proof. intros w w' a E. discriminate E. Qed.

Lemma adds_lift {A} (o : option A) : adds 0 (lift o).
Proof. intros w w' a E. apply lift_some in E. destruct E as [-> _]. lia. Qed.

Lemma adds_bind {A B} n k (m : M A) (f : A -> M B) :
  adds n m -> (forall a, adds k (f a)) -> adds (n + k) (bind m f).
Proof.
  intros Hm Hf w w' b E. apply bind_some in E. destruct E as (w1 & a & E1 & E2).
  rewrite (Hf a _ _ _ E2), (Hm _ _ _ E1). lia.
Qed.

Lemma adds_run model input : adds 1 (run model input).
Proof.
  intros w w' a E. unfold run in E. inversion E; subst. cbn [calls].
  rewrite length_app. reflexivity.
Qed.

Lemma adds_for_each_in {S} n (l : list Z) (body : Z -> S -> M S) :
  (forall i s, In i l -> adds n (body i s)) ->
  forall s, adds (length l * n) (for_each l body s).
Proof.
  induction l as [|i l IH]; intros Hb s; simpl.
  - apply adds_ret.
  - apply adds_bind; [apply Hb; left; reflexivity|].
    intros s'. apply IH. intros j s0 Hj. apply Hb. right. exact Hj.
Qed.

Lemma adds_bind_lift {A B} k (o : option A) (f : A -> M B) :
  (forall a, o = Some a -> adds k (f a)) -> adds k (bind (lift o) f).
Proof.
  intros Hf w w' b E. apply bind_some in E. destruct E as (w1 & a & E1 & E2).
  apply lift_some in E1. destruct E1 as [-> E1]. eapply Hf; eauto.
Qed.

Lemma adds_eq {A} n k (m : M A) : n = k -> adds n m -> adds k m.
Proof. intros ->. auto. Qed.

Lemma range_length lo hi : length (range lo hi) = Z.to_nat (hi - lo).
Proof. unfold range. rewrite length_map, length_seq. reflexivity. Qed.

(** ** The inputs and the invocations of the patch loops *)

Lemma slice_bounds_inside lo hi d :
  0 <= lo -> lo <= hi -> hi <= d ->
  Np.slice_bounds (Some lo) (Some hi) d = (lo, hi - lo).
Proof.
  intros. unfold Np.slice_bounds, Np.slice_index.
  destruct (lo <? 0) eqn:E1; [lia|]. destruct (hi <? 0) eqn:E2; [lia|].
  f_equal; lia.
Qed.

Lemma getitem_patch data d0 d1 d2 bx by_ bz :
  shape data = [d0; d1; d2; 1] ->
  0 <= fst bx <= snd bx -> snd bx <= d0 ->
  0 <= fst by_ <= snd by_ -> snd by_ <= d1 ->
  0 <= fst bz <= snd bz -> snd bz <= d2 ->
  exists patch,
    Np.getitem data (patch_region bx by_ bz) = Some patch /\
    shape patch = [snd bx - fst bx; snd by_ - fst by_; snd bz - fst bz; 1] /\
    forall a b c e,
      elt patch [a; b; c; e] = elt data [fst bx + a; fst by_ + b; fst bz + c; e].
Proof.
  intros Hs Hx Hx' Hy Hy' Hz Hz'. unfold Np.getitem, patch_region. rewrite Hs.
  cbn [Np.resolve Np.Sl].
  rewrite !slice_bounds_inside by lia. cbn.
  eexists. split; [reflexivity|]. split; reflexivity.
Qed.

Section PatchBody.
Variables (data : ndarray) (model : Model) (deep_supervision : bool).
Variables (d0 d1 d2 px py pz ox oy oz : Z).
Hypothesis Hshape : shape data = [d0; d1; d2; 1].
Hypothesis Hpx : 0 <= px.
Hypothesis Hpy : 0 <= py.
Hypothesis Hpz : 0 <= pz.
Hypothesis Hox : ox <= px.
Hypothesis Hoy : oy <= py.
Hypothesis Hoz : oz <= pz.

Local Abbreviation body :=
  (patch_body data model [px; py; pz] [ox; oy; oz] deep_supervision).

Lemma patch_body_inputs x y z fr :
  0 <= x -> 0 <= y -> 0 <= z ->
  always (fun w => Forall (full_patch px py pz) (calls w)) (body x y z fr).
Proof.
  intros Hx Hy Hz w Hw. unfold patch_body, bind, lift, ret. rewrite Hshape.
  cbn [nth_error].
  destruct (shift_boundaries (patch_boundaries x px ox) d0) as [[lx hx]|] eqn:Ex;
    [|exact Hw].
  destruct (shift_boundaries (patch_boundaries y py oy) d1) as [[ly hy]|] eqn:Ey;
    [|exact Hw].
  destruct (shift_boundaries (patch_boundaries z pz oz) d2) as [[lz hz]|] eqn:Ez;
    [|exact Hw].
  apply boundaries_within in Ex, Ey, Ez; try assumption.
  destruct (getitem_patch data d0 d1 d2 (lx, hx) (ly, hy) (lz, hz) Hshape)
    as (patch & G & S & _); cbn [fst snd]; try lia.
  unfold predict_patch, bind, lift, run. rewrite G.
  assert (Forall (full_patch px py pz) (calls w ++ [Np.expand_dims_first patch])) as Hw'.
  { apply Forall_app. split; [exact Hw|]. constructor; [|constructor].
    unfold full_patch. cbn [Np.expand_dims_first shape]. rewrite S.
    cbn [fst snd]. f_equal. f_equal; [lia|]. f_equal; [lia|]. f_equal. lia. }
  destruct (model (Np.expand_dims_first patch)) as [outs|]; [|exact Hw'].
  destruct (patch_prediction deep_supervision outs) as [p0|]; exact Hw'.
Qed.

Lemma patch_loops_inputs fr :
  always (fun w => Forall (full_patch px py pz) (calls w))
    (patch_loops data model [px; py; pz] [ox; oy; oz] deep_supervision fr).
Proof.
  unfold patch_loops.
  apply always_bind; [apply always_lift|]. intros nx.
  apply always_for_each_in. intros x s Hx. apply in_range in Hx.
  apply always_bind; [apply always_lift|]. intros ny.
  apply always_for_each_in. intros y s' Hy. apply in_range in Hy.
  apply always_bind; [apply always_lift|]. intros nz.
  apply always_for_each_in. intros z s'' Hz. apply in_range in Hz.
  apply patch_body_inputs; lia.
Qed.

Hypothesis Hdx : px <= d0.
Hypothesis Hdy : py <= d1.
Hypothesis Hdz : pz <= d2.

Lemma patch_body_adds x y z fr :
  0 <= x -> 0 <= y -> 0 <= z -> adds 1 (body x y z fr).
Proof.
  intros Hx Hy Hz w w' a E. unfold patch_body, bind, lift, ret in E.
  rewrite Hshape in E. cbn [nth_error] in E.
  destruct (shift_boundaries (patch_boundaries x px ox) d0) as [bx|] eqn:Ex.
  2:{ apply boundaries_none_iff in Ex; lia. }
  destruct (shift_boundaries (patch_boundaries y py oy) d1) as [by_|] eqn:Ey.
  2:{ apply boundaries_none_iff in Ey; lia. }
  destruct (shift_boundaries (patch_boundaries z pz oz) d2) as [bz|] eqn:Ez.
  2:{ apply boundaries_none_iff in Ez; lia. }
  revert E. unfold predict_patch. cbv zeta. revert w w' a.
  change (adds 1 (bind (lift (Np.getitem data (patch_region bx by_ bz)))
                    (fun patch => bind (run model (Np.expand_dims_first patch))
                       (fun outs => bind (lift (patch_prediction deep_supervision outs))
                          (fun p0 => lift (merge_patch fr
                                             (patch_region bx by_ bz ++ [Np.All]) p0)))))).
  apply (adds_bind 0 1); [apply adds_lift|]. intros patch.
  apply (adds_bind 1 0); [apply adds_run|]. intros outs.
  apply (adds_bind 0 0); [apply adds_lift|]. intros p0. apply adds_lift.
Qed.

Lemma patch_loops_adds fr nx ny nz :
  patch_steps data [px; py; pz] [ox; oy; oz] 0 = Some nx ->
  patch_steps data [px; py; pz] [ox; oy; oz] 1 = Some ny ->
  patch_steps data [px; py; pz] [ox; oy; oz] 2 = Some nz ->
  adds (Z.to_nat nx * (Z.to_nat ny * Z.to_nat nz))
    (patch_loops data model [px; py; pz] [ox; oy; oz] deep_supervision fr).
Proof.
  intros Ex Ey Ez. unfold patch_loops. rewrite Ex, Ey, Ez.
  apply adds_bind_lift. intros nx0 H0. inversion H0; subst nx0.
  eapply adds_eq; cycle 1.
  - apply adds_for_each_in. intros x s Hx. apply in_range in Hx.
    apply adds_bind_lift. intros ny0 H1. inversion H1; subst ny0.
    apply adds_for_each_in. intros y s' Hy. apply in_range in Hy.
    apply adds_bind_lift. intros nz0 H2. inversion H2; subst nz0.
    apply adds_for_each_in. intros z s'' Hz. apply in_range in Hz.
    apply patch_body_adds; lia.
  - rewrite !range_length, !Z.sub_0_r. lia.
Qed.
End PatchBody.

Lemma step_bind {A B} (P J : world -> Prop) (m : M A) (f : A -> M B) :
  (forall w, P w -> J (fst (m w))) -> (forall a, always J (f a)) ->
  forall w, P w -> J (fst (bind m f w)).
Proof.
  intros Hm Hf w H. unfold bind. specialize (Hm w H).
  destruct (m w) as [w1 [a|]]; cbn [fst] in *; [apply Hf; exact Hm|exact Hm].
Qed.

(** ** Invariants that invoking the model does not disturb *)

Section Frames.
Variable I : world -> Prop.
Hypothesis I_run : forall w input, I w -> I (mk_world (config w) (calls w ++ [input])).

Lemma always_run model input : always I (run model input).
Proof. intros w H. unfold run. cbn [fst]. apply I_run. exact H. Qed.

Lemma always_get : always I get_parameters.
Proof. intros w H. exact H. Qed.

Ltac always_step :=
  match goal with
  | |- always _ (bind _ _) => apply always_bind; [|intros]
  | |- always _ (lift _) => apply always_lift
  | |- always _ (ret _) => apply always_ret
  | |- always _ raise => apply always_raise
  | |- always _ (for_each _ _ _) => apply always_for_each; intros
  | |- always _ (run _ _) => apply always_run
  | |- always _ (unwrap _ _ ) => apply always_unwrap
  | |- always _ get_parameters => apply always_get
  | |- always _ (if ?b then _ else _) => destruct b
  | |- always _ (match ?x with _ => _ end) => destruct x
  end.

Ltac always_all := cbv beta zeta; repeat (always_step; cbv beta zeta).

Lemma always_extract_slab data plane lo hi : always I (extract_slab data plane lo hi).
Proof. unfold extract_slab. always_all. Qed.

Lemma always_write_chunk fr plane sl keep pred c :
  always I (write_chunk fr plane sl keep pred c).
Proof. unfold write_chunk. always_all. Qed.

Lemma always_write_center fr plane slice half pred c :
  always I (write_center fr plane slice half pred c).
Proof. unfold write_center. always_all. Qed.

Lemma always_nonoverlapping_chunk model data p ds pad_value scale chunk st :
  always I (nonoverlapping_chunk data model p ds pad_value scale chunk st).
Proof.
  unfold nonoverlapping_chunk. destruct st as [fr unpad]. always_all;
    try apply always_extract_slab; apply always_write_chunk.
Qed.

Lemma always_single_slice model data nas ds slice fr :
  always I (single_slice data model nas ds slice fr).
Proof. unfold single_slice. always_all. Qed.

Lemma always_window_slice model data p nas ds half slice fr :
  always I (window_slice data model p nas ds half slice fr).
Proof.
  unfold window_slice, window_input. always_all;
    try apply always_extract_slab; apply always_write_center.
Qed.

(** The slab strategy, whatever lines 97-100 do to the world. *)
Lemma slabbed_steps_from (P : world -> Prop) model data ds p :
  (forall w, P w -> I (fst (swap_new_axial_size p w))) ->
  forall w, P w -> I (fst (slabbed_steps p data model ds w)).
Proof.
  intros Hs. unfold slabbed_steps. cbv zeta. apply step_bind; [exact Hs|].
  intros nas. unfold upper_boundary_of. always_all;
    first [apply always_nonoverlapping_chunk
          |apply always_single_slice|apply always_window_slice].
Qed.

Lemma always_patch_mode_steps model data ds p :
  always I (patch_mode_steps p data model ds).
Proof.
  unfold patch_mode_steps, patch_loops. always_all.
  unfold patch_body, predict_patch. always_all.
Qed.

Lemma always_whole model data ds w :
  I w -> I (fst (__run_predictions_whole data model ds w)).
Proof.
  intros Hw. unfold __run_predictions_whole, try_mode, run.
  destruct (model _) as [outs|]; cbn [fst]; [|apply I_run; exact Hw].
  destruct (first (PList outs)) as [p0|]; [|apply I_run; exact Hw].
  destruct (first p0) as [[l|r]|]; apply I_run; exact Hw.
Qed.
End Frames.

(** ** The configuration after a call *)

Lemma fst_try_mode {A} mode (m : M A) w : fst (try_mode mode m w) = fst (m w).
Proof. unfold try_mode. destruct (m w) as [w1 [a|]]; reflexivity. Qed.

Lemma slabbed_body_eq data model ds w :
  slabbed_body data model ds w = slabbed_steps (config w) data model ds w.
Proof. reflexivity. Qed.

Lemma patch_mode_body_eq data model ds w :
  patch_mode_body data model ds w = patch_mode_steps (config w) data model ds w.
Proof. reflexivity. Qed.

(** X3. In whole-volume and patch mode, and in slab mode when
    [swap_training_input] is unset, a call leaves the caller's
    configuration as it was, whether it returns or raises. *)
Theorem X3_configuration_is_kept (data : ndarray) (model : Model) (w : world) :
  selected_mode (config w) <> Slab \/ swap_training_input (config w) = false ->
  config (fst (run_predictions data model w)) = config w.
Proof.
  intros H. unfold run_predictions.
  set (I := fun w' : world => config w' = config w).
  assert (forall w0 input, I w0 -> I (mk_world (config w0) (calls w0 ++ [input])))
    as I_run by (intros w0 input H0; exact H0).
  destruct (selected_mode (config w)) eqn:Hm.
  - apply (always_whole I I_run). reflexivity.
  - destruct H as [H|H]; [congruence|].
    unfold __run_predictions_slabbed. rewrite fst_try_mode, slabbed_body_eq.
    apply (slabbed_steps_from I I_run I); [|reflexivity].
    intros w0 H0. unfold swap_new_axial_size. rewrite H. exact H0.
  - unfold __run_predictions_patch. rewrite fst_try_mode, patch_mode_body_eq.
    apply (always_patch_mode_steps I I_run). reflexivity.
Qed.

(** A call in patch mode, and a call in slab mode without the swap. *)
Lemma X3_configuration_is_kept_witness :
  config (fst ModeScenario.patch) = ModeScenario.patch_parameters /\
  config (fst GapScenario.result) = GapScenario.parameters.
Proof.
  split.
  - apply (X3_configuration_is_kept ModeScenario.small (Samples.echo 2)
             (start ModeScenario.patch_parameters)).
    left. intros H. discriminate H.
  - apply (X3_configuration_is_kept GapScenario.volume (Samples.echo 1)
             (start GapScenario.parameters)).
    right. reflexivity.
Defined.

Lemma swap_exchanges (data : ndarray) (model : Model) (w : world) (a b : Z) :
  selected_mode (config w) = Slab ->
  swap_training_input (config w) = true ->
  new_axial_size (config w) = Some [a; b] ->
  config (fst (run_predictions data model w))
  = with_new_axial_size (config w) (Some [b; a]).
Proof.
  intros Hm Hs Hn. unfold run_predictions. rewrite Hm.
  unfold __run_predictions_slabbed. rewrite fst_try_mode, slabbed_body_eq.
  set (J := fun w' : world =>
              config w' = with_new_axial_size (config w) (Some [b; a])).
  apply (slabbed_steps_from J ltac:(intros w0 input H0; exact H0)
           (fun w' => config w' = config w)); [|reflexivity].
  intros w0 H0. unfold swap_new_axial_size. rewrite Hs, Hn.
  unfold J, bind, store_new_axial_size, ret. cbn [fst config]. rewrite H0.
  reflexivity.
Qed.

(** X4. With [swap_training_input] set and a [new_axial_size] of two
    entries, every call (returning or raising) exchanges the two entries
    in the caller's configuration (lines 96-100 write into the caller's
    list), so a second call with the same configuration object works on
    the exchanged size and leaves the configuration as it was before the
    first. *)
Theorem X4_second_call_restores_the_configuration
  (data data' : ndarray) (model model' : Model) (w : world) (a b : Z) :
  new_axial_size (config w) = Some [a; b] ->
  swap_training_input (config w) = true ->
  let w1 := fst (run_predictions data model w) in
  let w2 := fst (run_predictions data' model' w1) in
  config w1 = with_new_axial_size (config w) (Some [b; a]) /\
  config w2 = config w.
Proof.
  intros Hn Hs w1 w2.
  assert (selected_mode (config w) = Slab) as Hm.
  { unfold selected_mode. rewrite Hn. reflexivity. }
  assert (config w1 = with_new_axial_size (config w) (Some [b; a])) as H1.
  { apply swap_exchanges; assumption. }
  split; [exact H1|].
  unfold w2. rewrite (swap_exchanges data' model' w1 b a).
  - rewrite H1. destruct (config w); cbn in *. subst. reflexivity.
  - rewrite H1. reflexivity.
  - rewrite H1. exact Hs.
  - rewrite H1. reflexivity.
Qed.

(** Two calls in a row with a [new_axial_size] of [1; 2]. *)
Lemma X4_second_call_restores_the_configuration_witness :
  new_axial_size (config (fst SwapScenario.result)) = Some [2; 1] /\
  config (fst EdgeCases.swapped_twice) = SwapScenario.parameters.
Proof.
  destruct (X4_second_call_restores_the_configuration SwapScenario.volume
              SwapScenario.volume (Samples.echo 1) (Samples.echo 1)
              (start SwapScenario.parameters) 1 2 eq_refl eq_refl) as [H1 H2].
  split; [|exact H2].
  unfold SwapScenario.result. rewrite H1. reflexivity.
Defined.

(** ** Whole-volume mode *)

Lemma sel_index_all sh idx :
  length idx = length sh ->
  Np.sel_index (map (fun d => Np.Span 0 d) sh) idx = idx.
Proof.
  revert idx. induction sh as [|d sh IH]; intros [|i idx] H; try discriminate H.
  - reflexivity.
  - cbn. f_equal. apply IH. simpl in H. lia.
Qed.

(** X5. In whole-volume mode the model is invoked once, on the volume
    with a batch axis in front and a channel axis behind, and the call
    returns the first batch element of the model's first output: the
    shape of the output without its leading axis, the values those at
    batch index 0.  [deep_supervision] plays no part. *)
Theorem X5_whole_returns_first_batch_element (data : ndarray) (model : Model)
  (w : world) (o : ndarray) (rest : list ndarray) (d : Z) (sh : list Z) :
  selected_mode (config w) = Whole ->
  model (Np.expand_dims_last (Np.expand_dims_first data)) = Some (o :: rest) ->
  shape o = d :: sh -> 0 < d ->
  exists r,
    run_predictions data model w
    = (mk_world (config w)
         (calls w ++ [Np.expand_dims_last (Np.expand_dims_first data)]),
       Returned r) /\
    shape r = sh /\
    forall idx, length idx = length sh -> elt r idx = elt o (0 :: idx).
Proof.
  intros Hm Ho Hs Hd. unfold run_predictions. rewrite Hm.
  unfold __run_predictions_whole, try_mode, run. rewrite Ho.
  cbn [first]. unfold Np.getitem. rewrite Hs. cbn [Np.resolve].
  replace ((- d <=? 0) && (0 <? d)) with true by lia.
  cbn [Z.ltb Z.compare option_map].
  eexists. split; [reflexivity|]. cbn [shape elt Np.sel_shape Np.sel_index].
  split; [apply sel_shape_all|].
  intros idx Hl. rewrite sel_index_all by exact Hl. reflexivity.
Qed.

(** The whole-volume call of a (2, 2, 2) volume with two classes. *)
Lemma X5_whole_returns_first_batch_element_witness :
  shape (result_of ModeScenario.whole) = [2; 2; 2; 2] /\
  code (elt (result_of ModeScenario.whole) [1; 1; 1; 0]) = 2 /\
  length (calls (fst ModeScenario.whole)) = 1%nat.
Proof.
  destruct (X5_whole_returns_first_batch_element ModeScenario.volume
              (Samples.echo 2) (start (Samples.whole_config 2)) _ [] 1
              [2; 2; 2; 2] eq_refl eq_refl eq_refl eq_refl) as (r & E & S & V).
  unfold result_of, ModeScenario.whole. rewrite E. cbn [snd fst].
  split; [exact S|]. split; [|reflexivity].
  rewrite V by reflexivity. reflexivity.
Defined.

(** X6. In whole-volume mode, when the model returns no output, or a
    first output with an empty batch axis or with no axis at all, the
    indexing of line 86 fails outside the [try]: the call raises an
    [IndexError], not the [ValueError] of the mode, after one invocation
    of the model. *)
Theorem X6_whole_without_output_raises_index_error (data : ndarray)
  (model : Model) (w : world) (outs : list ndarray) :
  selected_mode (config w) = Whole ->
  model (Np.expand_dims_last (Np.expand_dims_first data)) = Some outs ->
  outs = [] \/ (exists o rest sh, outs = o :: rest /\ shape o = 0 :: sh)
  \/ (exists o rest, outs = o :: rest /\ shape o = []) ->
  run_predictions data model w
  = (mk_world (config w)
       (calls w ++ [Np.expand_dims_last (Np.expand_dims_first data)]),
     Raised IndexError).
Proof.
  intros Hm Ho H. unfold run_predictions. rewrite Hm.
  unfold __run_predictions_whole, try_mode, run. rewrite Ho.
  destruct H as [->|[(o & rest & sh & -> & Hs)|(o & rest & -> & Hs)]].
  - reflexivity.
  - cbn [first]. unfold Np.getitem. rewrite Hs. reflexivity.
  - cbn [first]. unfold Np.getitem. rewrite Hs. reflexivity.
Qed.

(** A model that returns an empty list. *)
Lemma X6_whole_without_output_raises_index_error_witness :
  snd EdgeCases.whole_silent = Raised IndexError /\
  length (calls (fst EdgeCases.whole_silent)) = 1%nat.
Proof.
  unfold EdgeCases.whole_silent.
  rewrite (X6_whole_without_output_raises_index_error ModeScenario.volume
             EdgeCases.silent (start (Samples.whole_config 2)) []
             eq_refl eq_refl (or_introl eq_refl)).
  split; reflexivity.
Defined.

(** ** The removal of the padding *)

(** X7. The cut of lines 282-284 removes exactly the recorded padding:
    for amounts that are not negative and fit into the extents, the
    result has the extents less the amounts before and after, every
    class channel, and its voxel (i, j, k) is the voxel of the padded
    volume moved by the amounts added in front. *)
Theorem X7_strip_padding_removes_the_recorded_amounts (fr : ndarray)
  (s0 s1 s2 nb e0 e1 e2 e3 e4 e5 : Z) :
  shape fr = [s0; s1; s2; nb] -> 0 <= nb ->
  0 <= e0 -> 0 <= e1 -> e0 + e1 <= s0 ->
  0 <= e2 -> 0 <= e3 -> e2 + e3 <= s1 ->
  0 <= e4 -> 0 <= e5 -> e4 + e5 <= s2 ->
  exists r,
    strip_padding fr [e0; e1; e2; e3; e4; e5] = Some r /\
    shape r = [s0 - e0 - e1; s1 - e2 - e3; s2 - e4 - e5; nb] /\
    forall i j k c, elt r [i; j; k; c] = elt fr [e0 + i; e2 + j; e4 + k; c].
Proof.
  intros Hs Hn ? ? ? ? ? ? ? ? ?. unfold strip_padding, Np.getitem. rewrite Hs.
  cbn [Np.resolve Np.Sl Np.All].
  rewrite !slice_bounds_inside by lia.
  unfold Np.slice_bounds. cbn.
  eexists. split; [reflexivity|]. cbn. split; [|reflexivity].
  f_equal; [lia|]. f_equal; [lia|]. f_equal; [lia|]. f_equal. lia.
Qed.

(** A (4, 4, 4) volume padded by 1 before axis 0, 1 after axis 1 and 1 on
    both ends of axis 2. *)
Lemma X7_strip_padding_removes_the_recorded_amounts_witness :
  option_map shape EdgeCases.stripped = Some [3; 3; 2; 1] /\
  option_map (fun r => code (elt r [0; 0; 0; 0])) EdgeCases.stripped = Some 10001.
Proof.
  destruct (X7_strip_padding_removes_the_recorded_amounts EdgeCases.padded_result
              4 4 4 1 1 0 0 1 1 1 eq_refl) as (r & E & S & V); try lia.
  unfold EdgeCases.stripped. rewrite E. cbn [option_map]. rewrite S, V.
  split; reflexivity.
Defined.

(** ** Strides that are not positive *)

Lemma ceil_div_negative d s n :
  0 <= d -> s < 0 -> ceil_div d s = Some n -> n <= 0.
Proof.
  unfold ceil_div. intros Hd Hs. destruct (s =? 0) eqn:E; [lia|].
  intros H. inversion H; subst n. clear H.
  rewrite <- (Z.opp_involutive s) at 1. rewrite Z.div_opp_opp by lia.
  assert (0 <= d / - s) by (apply Z.div_pos; lia). lia.
Qed.

Lemma range_empty lo hi : hi <= lo -> range lo hi = [].
Proof. intros H. unfold range. replace (Z.to_nat (hi - lo)) with 0%nat by lia. reflexivity. Qed.

Lemma patch_run_returns data model w w' r :
  selected_mode (config w) = Patch ->
  run_predictions data model w = (w', Returned r) ->
  exists padded extra_dims fr0 fr,
    padding_for_inference_both_ends_patchwise data
      (training_patch_size (config w)) = Some (padded, extra_dims) /\
    Np.zeros (shape padded ++ [training_nb_classes (config w)]) = Some fr0 /\
    patch_loops (Np.expand_dims_last padded) model
      (training_patch_size (config w)) (training_patch_offset (config w))
      (training_deep_supervision (config w)) fr0 w = (w', Some fr) /\
    strip_padding fr extra_dims = Some r.
Proof.
  intros Hm E. unfold run_predictions in E. rewrite Hm in E.
  unfold __run_predictions_patch, try_mode in E.
  destruct (patch_mode_body _ _ _ w) as [w1 [a|]] eqn:B; [|discriminate].
  inversion E; subst w1 a. clear E. rewrite patch_mode_body_eq in B.
  unfold patch_mode_steps in B.
  apply bind_some in B. destruct B as (w1 & [padded extra] & E1 & B).
  apply lift_some in E1. destruct E1 as [-> E1].
  apply bind_some in B. destruct B as (w1 & fr0 & E2 & B).
  apply lift_some in E2. destruct E2 as [-> E2].
  apply bind_some in B. destruct B as (w3 & fr & E3 & B).
  apply lift_some in B. destruct B as [-> B].
  exists padded, extra, fr0, fr. auto.
Qed.

Lemma strip_padding_elt_of fr extra_dims r idx :
  strip_padding fr extra_dims = Some r -> exists idx', elt r idx = elt fr idx'.
Proof.
  unfold strip_padding, Np.getitem.
  destruct (shape fr) as [|s0 [|s1 [|s2 l]]]; try discriminate.
  destruct extra_dims as [|e0 [|e1 [|e2 [|e3 [|e4 [|e5 [|]]]]]]]; try discriminate.
  destruct (Np.resolve _ _) as [sel|]; [|discriminate].
  intros H. inversion H. cbn [elt]. eexists. reflexivity.
Qed.

(** X8. In patch mode, when the patch offset along the first axis is
    larger than the patch size, the stride is negative and the loop of
    line 236 has no iteration: a call that returns has not invoked the
    model, and every probability it returns is zero. *)
Theorem X8_offset_beyond_size_predicts_nothing (data : ndarray) (model : Model)
  (w w' : world) (r : ndarray) (p0 o0 : Z) :
  selected_mode (config w) = Patch ->
  nth_error (training_patch_size (config w)) 0 = Some p0 ->
  nth_error (training_patch_offset (config w)) 0 = Some o0 ->
  p0 < o0 ->
  run_predictions data model w = (w', Returned r) ->
  w' = w /\ forall idx, elt r idx = vzero.
Proof.
  intros Hm Hp Ho Hlt E.
  destruct (patch_run_returns data model w w' r Hm E)
    as (padded & extra & fr0 & fr & _ & Z0 & L & S).
  unfold patch_loops in L. apply bind_some in L.
  destruct L as (w1 & nx & E1 & L). apply lift_some in E1. destruct E1 as [-> E1].
  unfold patch_steps in E1. rewrite Hp, Ho in E1.
  destruct (nth_error (shape (Np.expand_dims_last padded)) 0) as [d|] eqn:Hd;
    [|discriminate].
  assert (0 <= d) as Hd0.
  { pose proof (zeros_nonneg _ _ Z0) as W. cbn [Np.expand_dims_last shape] in Hd.
    destruct (shape padded) as [|d' l]; cbn in Hd; inversion Hd; subst; [lia|].
    inversion W; subst. assumption. }
  apply ceil_div_negative in E1; [|exact Hd0|lia].
  rewrite range_empty in L by lia. cbn [for_each] in L.
  apply ret_some in L. destruct L as [-> ->]. split; [reflexivity|].
  intros idx. destruct (strip_padding_elt_of fr0 extra r idx S) as [idx' ->].
  apply (zeros_elt _ _ _ Z0).
Qed.

(** Patches of size 4 with an offset of 5 along the first axis. *)
Lemma X8_offset_beyond_size_predicts_nothing_witness :
  fst EdgeCases.beyond = start EdgeCases.beyond_parameters /\
  elt (result_of EdgeCases.beyond) [2; 2; 2; 0] = vzero.
Proof.
  destruct (X8_offset_beyond_size_predicts_nothing NegScenario.volume
              (Samples.echo 1) (start EdgeCases.beyond_parameters)
              (fst EdgeCases.beyond) (result_of EdgeCases.beyond) 4 5
              eq_refl eq_refl eq_refl eq_refl) as [E V].
  - apply (outcome_eta EdgeCases.beyond). vm_compute. discriminate.
  - split; [exact E|apply V].
Defined.

(** X9. In patch mode, when the patch offset along the first axis equals
    the patch size, the division of line 236 is by zero: the call raises
    the [ValueError] of the mode without invoking the model. *)
Theorem X9_offset_equal_to_size_raises (data : ndarray) (model : Model)
  (w : world) (p0 : Z) :
  selected_mode (config w) = Patch ->
  nth_error (training_patch_size (config w)) 0 = Some p0 ->
  nth_error (training_patch_offset (config w)) 0 = Some p0 ->
  run_predictions data model w
  = (w, Raised (ValueError (mode_message "patch"))).
Proof.
  intros Hm Hp Ho. unfold run_predictions. rewrite Hm.
  unfold __run_predictions_patch, try_mode. rewrite patch_mode_body_eq.
  unfold patch_mode_steps, bind, lift.
  destruct (padding_for_inference_both_ends_patchwise _ _) as [[padded extra]|];
    [|reflexivity].
  destruct (Np.zeros _) as [fr0|]; [|reflexivity].
  unfold patch_loops, bind, lift, patch_steps. rewrite Hp, Ho.
  destruct (nth_error (shape (Np.expand_dims_last padded)) 0) as [d|];
    [|reflexivity].
  unfold ceil_div. rewrite Z.sub_diag. reflexivity.
Qed.

(** Patches of size 4 with an offset of 4 along the first axis. *)
Lemma X9_offset_equal_to_size_raises_witness :
  EdgeCases.equal
  = (start EdgeCases.equal_parameters,
     Raised (ValueError "Segmentation inference (patch mode) could not fully proceed.")).
Proof.
  exact (X9_offset_equal_to_size_raises NegScenario.volume (Samples.echo 1)
           (start EdgeCases.equal_parameters) 4 eq_refl eq_refl eq_refl).
Defined.

(** ** Values of the patch strategy *)

Lemma vmax_ge_right x y : (y <= vmax x y)%Qc.
Proof.
  unfold vmax. destruct (vltb x y) eqn:E; [apply Qcle_refl|].
  apply vltb_ge. exact E.
Qed.

(** Writing a patch lowers no value of the volume. *)
Lemma merge_patch_raises fr region pred fr' idx :
  merge_patch fr region pred = Some fr' -> (elt fr idx <= elt fr' idx)%Qc.
Proof.
  intros H. destruct (merge_patch_spec fr region pred fr' H) as [_ V].
  rewrite V. destruct (predicted_at _ _ _ _); cbn [raise_to];
    [apply vmax_ge_right|apply Qcle_refl].
Qed.

Lemma patch_body_above a data model ps po ds x y z fr :
  above a fr -> yields (patch_body data model ps po ds x y z fr) (above a).
Proof.
  intros H. unfold patch_body. repeat yield_step; try (apply yields_ret; exact H).
  unfold predict_patch. repeat yield_step. apply yields_lift. intros fr' E idx.
  eapply Qcle_trans; [apply H|]. eapply merge_patch_raises; eauto.
Qed.

Lemma patch_loops_above a data model ps po ds fr :
  above a fr -> yields (patch_loops data model ps po ds fr) (above a).
Proof.
  intros H. unfold patch_loops. yield_step.
  apply yields_for_each; [|exact H]. intros x s Hs. yield_step.
  apply yields_for_each; [|exact Hs]. intros y s' Hs'. yield_step.
  apply yields_for_each; [|exact Hs']. intros z s'' Hs''.
  apply patch_body_above. exact Hs''.
Qed.

(** X10. No probability a patch-mode call returns is negative, whatever
    the model answers: the volume starts at zero (line 233) and every
    write keeps the larger of the prediction and the value in place
    (lines 275-281). *)
Theorem X10_patch_mode_values_are_not_negative (data : ndarray) (model : Model)
  (w w' : world) (r : ndarray) :
  selected_mode (config w) = Patch ->
  run_predictions data model w = (w', Returned r) ->
  forall idx, (vzero <= elt r idx)%Qc.
Proof.
  intros Hm E idx.
  destruct (patch_run_returns data model w w' r Hm E)
    as (padded & extra & fr0 & fr & _ & Z0 & L & S).
  destruct (strip_padding_elt_of fr extra r idx S) as [idx' ->].
  apply (patch_loops_above fr0) in L; [|intros i; apply Qcle_refl].
  rewrite <- (zeros_elt _ fr0 idx' Z0). apply L.
Qed.

(** A model that answers -1 everywhere. *)
Lemma X10_patch_mode_values_are_not_negative_witness :
  Qcle vzero (elt (result_of NegScenario.result) [2; 2; 2; 0]).
Proof.
  apply (X10_patch_mode_values_are_not_negative NegScenario.volume
           NegScenario.model (start NegScenario.parameters)
           (fst NegScenario.result) (result_of NegScenario.result)).
  - reflexivity.
  - apply (outcome_eta NegScenario.result). vm_compute. discriminate.
Defined.

(** ** Invocations of the model in patch mode *)

(** X11. In patch mode every input the model receives is one whole patch:
    when the padded volume has three axes and the patch sizes are not
    negative and the offsets not above them, each invocation a call
    makes (returning or raising) is on an array of shape
    (1, size_0, size_1, size_2, 1). *)
Theorem X11_model_sees_full_patches (data : ndarray) (model : Model)
  (w : world) (padded : ndarray) (extra_dims : list Z)
  (d0 d1 d2 px py pz ox oy oz : Z) :
  selected_mode (config w) = Patch ->
  training_patch_size (config w) = [px; py; pz] ->
  training_patch_offset (config w) = [ox; oy; oz] ->
  padding_for_inference_both_ends_patchwise data [px; py; pz]
  = Some (padded, extra_dims) ->
  shape padded = [d0; d1; d2] ->
  0 <= px -> 0 <= py -> 0 <= pz -> ox <= px -> oy <= py -> oz <= pz ->
  Forall (full_patch px py pz) (calls w) ->
  Forall (full_patch px py pz) (calls (fst (run_predictions data model w))).
Proof.
  intros Hm Hp Ho Hpad Hs Hpx Hpy Hpz Hox Hoy Hoz Hw.
  unfold run_predictions. rewrite Hm.
  unfold __run_predictions_patch. rewrite fst_try_mode, patch_mode_body_eq.
  revert w Hm Hp Ho Hw.
  assert (forall p, training_patch_size p = [px; py; pz] ->
                    training_patch_offset p = [ox; oy; oz] ->
                    forall ds,
                    always (fun w => Forall (full_patch px py pz) (calls w))
                      (patch_mode_steps p data model ds)) as H.
  { intros p Hp Ho ds. unfold patch_mode_steps. rewrite Hp, Ho. cbv zeta.
    apply always_bind_lift. intros [padded' extra'] E.
    rewrite Hpad in E. inversion E; subst padded' extra'.
    apply always_bind; [apply always_lift|]. intros fr0.
    apply always_bind; [|intros fr; apply always_lift].
    apply (patch_loops_inputs _ model ds d0 d1 d2); try assumption.
    cbn [Np.expand_dims_last shape]. rewrite Hs. reflexivity. }
  intros w Hm Hp Ho Hw. apply H; assumption.
Qed.

(** The eight patches of size 4 over a (5, 5, 5) volume. *)
Lemma X11_model_sees_full_patches_witness :
  Forall (full_patch 4 4 4) (calls (fst NegScenario.result)).
Proof.
  apply (X11_model_sees_full_patches NegScenario.volume NegScenario.model
           (start NegScenario.parameters)
           (Np.pad NegScenario.volume [(0, 0); (0, 0); (0, 0)])
           [0; 0; 0; 0; 0; 0] 5 5 5 4 4 4 1 1 1);
    try reflexivity; try lia.
  constructor.
Defined.

(** X12. In patch mode, when the padded volume is at least one patch wide
    along every axis, no cell of the grid is given up: a call that
    returns has invoked the model once per cell, that is
    ceil(d0 / (size_0 - offset_0)) * ceil(d1 / (size_1 - offset_1))
    * ceil(d2 / (size_2 - offset_2)) times. *)
Theorem X12_one_invocation_per_cell (data : ndarray) (model : Model)
  (w w' : world) (r padded : ndarray) (extra_dims : list Z)
  (d0 d1 d2 px py pz ox oy oz nx ny nz : Z) :
  selected_mode (config w) = Patch ->
  training_patch_size (config w) = [px; py; pz] ->
  training_patch_offset (config w) = [ox; oy; oz] ->
  padding_for_inference_both_ends_patchwise data [px; py; pz]
  = Some (padded, extra_dims) ->
  shape padded = [d0; d1; d2] ->
  0 <= px <= d0 -> 0 <= py <= d1 -> 0 <= pz <= d2 ->
  ox <= px -> oy <= py -> oz <= pz ->
  ceil_div d0 (px - ox) = Some nx ->
  ceil_div d1 (py - oy) = Some ny ->
  ceil_div d2 (pz - oz) = Some nz ->
  run_predictions data model w = (w', Returned r) ->
  length (calls w')
  = (length (calls w) + Z.to_nat nx * (Z.to_nat ny * Z.to_nat nz))%nat.
Proof.
  intros Hm Hp Ho Hpad Hs Hpx Hpy Hpz Hox Hoy Hoz Ex Ey Ez E.
  destruct (patch_run_returns data model w w' r Hm E)
    as (padded' & extra & fr0 & fr & P & Z0 & L & S).
  rewrite Hp, Hpad in P. inversion P; subst padded' extra. clear P.
  rewrite Hp, Ho in L.
  assert (shape (Np.expand_dims_last padded) = [d0; d1; d2; 1]) as Hs'.
  { cbn [Np.expand_dims_last shape]. rewrite Hs. reflexivity. }
  eapply (patch_loops_adds (Np.expand_dims_last padded) model
            (training_deep_supervision (config w)) d0 d1 d2 px py pz ox oy oz);
    try eassumption; try lia;
    unfold patch_steps; rewrite Hs'; cbn [nth_error]; assumption.
Qed.

(** Patches of size 4 with offset 1 over a (5, 5, 5) volume: two steps
    along each axis. *)
Lemma X12_one_invocation_per_cell_witness :
  length (calls (fst NegScenario.result)) = 8%nat.
Proof.
  refine (X12_one_invocation_per_cell NegScenario.volume NegScenario.model
            (start NegScenario.parameters) (fst NegScenario.result)
            (result_of NegScenario.result)
            (Np.pad NegScenario.volume [(0, 0); (0, 0); (0, 0)])
            [0; 0; 0; 0; 0; 0] 5 5 5 4 4 4 1 1 1 2 2 2
            eq_refl eq_refl eq_refl eq_refl eq_refl _ _ _ _ _ _
            eq_refl eq_refl eq_refl _); try lia.
  apply (outcome_eta NegScenario.result). vm_compute. discriminate.
Defined.

(** ** Slabs without deep supervision *)

Ltac inv_some :=
  repeat match goal with
  | H : bind _ _ _ = (_, Some _) |- _ =>
      apply bind_some in H; destruct H as (? & ? & ? & H)
  | H : lift _ _ = (_, Some _) |- _ =>
      apply lift_some in H; destruct H as [? H]; subst
  | H : ret _ _ = (_, Some _) |- _ =>
      apply ret_some in H; destruct H as [? ?]; subst
  | H : raise _ = (_, Some _) |- _ => discriminate H
  | H : None = Some _ |- _ => discriminate H
  end.

Lemma for_each_idle {S} (l : list Z) (body : Z -> S -> M S) :
  (forall i s w w' s', body i s w = (w', Some s') -> w' = w /\ s' = s) ->
  forall s w w' s', for_each l body s w = (w', Some s') -> w' = w /\ s' = s.
Proof.
  intros Hb. induction l as [|i l IH]; intros s w w' s' E; simpl in E.
  - apply ret_some in E. destruct E as [-> ->]. split; reflexivity.
  - apply bind_some in E. destruct E as (w1 & s1 & E1 & E2).
    apply Hb in E1. destruct E1 as [-> ->]. apply IH in E2. exact E2.
Qed.

Lemma extract_slab_idle data plane lo hi w w' a :
  extract_slab data plane lo hi w = (w', Some a) -> w' = w.
Proof.
  unfold extract_slab. intros E.
  destruct (is_plane plane "axial"); [inv_some; reflexivity|].
  destruct (is_plane plane "sagittal"); [inv_some; reflexivity|].
  destruct (is_plane plane "coronal"); inv_some; reflexivity.
Qed.

Lemma chunk_without_deep_supervision data model p pad_value scale chunk st w w' a :
  fix_orientation p = false ->
  nonoverlapping_chunk data model p false pad_value scale chunk st w
  = (w', Some a) -> False.
Proof.
  intros Hf E. unfold nonoverlapping_chunk in E. destruct st as [fr unpad].
  rewrite Hf in E. cbv zeta in E. unfold unwrap in E. inv_some.
  cbn in *. discriminate.
Qed.

Lemma single_slice_without_deep_supervision data model nas slice fr w w' fr' :
  single_slice data model nas false slice fr w = (w', Some fr') ->
  w' = w /\ fr' = fr.
Proof.
  intros E. unfold single_slice in E.
  apply bind_some in E. destruct E as (w1 & slab & E1 & E).
  apply lift_some in E1. destruct E1 as [-> E1].
  destruct (Np.count_gt slab vtenth =? 0).
  - apply ret_some in E. destruct E as [-> ->]. split; reflexivity.
  - unfold unwrap in E. inv_some. cbn in *. discriminate.
Qed.

Lemma window_slice_without_deep_supervision data model p nas half slice fr w w' fr' :
  fix_orientation p = false ->
  window_slice data model p nas false half slice fr w = (w', Some fr') ->
  w' = w /\ fr' = fr.
Proof.
  intros Hf E. unfold window_slice in E. rewrite Hf in E. cbv zeta in E.
  apply bind_some in E. destruct E as (w1 & input & E1 & E).
  assert (w1 = w) as ->.
  { unfold window_input in E1. apply bind_some in E1.
    destruct E1 as (w2 & slab & E0 & E1). apply extract_slab_idle in E0.
    subst w2. inv_some. reflexivity. }
  destruct (Np.count_gt input vtenth =? 0).
  - apply ret_some in E. destruct E as [-> ->]. split; reflexivity.
  - unfold unwrap in E. inv_some. cbn in *. discriminate.
Qed.

Lemma swap_keeps_calls p w w' a :
  swap_new_axial_size p w = (w', Some a) -> calls w' = calls w.
Proof.
  unfold swap_new_axial_size. destruct (swap_training_input p).
  - destruct (new_axial_size p) as [[|x [|y l]]|]; try discriminate.
    intros E. inversion E. reflexivity.
  - intros E. inversion E. reflexivity.
Qed.

Lemma upper_boundary_idle data plane w w' a :
  upper_boundary_of data plane w = (w', Some a) -> w' = w.
Proof.
  unfold upper_boundary_of. intros E.
  apply bind_some in E. destruct E as (w1 & ub & E1 & E).
  apply lift_some in E1. destruct E1 as [-> _].
  destruct (is_plane plane "sagittal"); [inv_some; reflexivity|].
  destruct (is_plane plane "coronal"); inv_some; reflexivity.
Qed.

(** X13. Slab mode depends on deep supervision: with
    [training_deep_supervision] and [fix_orientation] unset, what the
    model returns is kept as a list, and reading its shape (lines 141,
    152, 175, 204) fails.  So a call that returns has not invoked the
    model at all, and every probability it returns is zero. *)
Theorem X13_slabs_need_deep_supervision (data : ndarray) (model : Model)
  (w w' : world) (r : ndarray) :
  selected_mode (config w) = Slab ->
  training_deep_supervision (config w) = false ->
  fix_orientation (config w) = false ->
  run_predictions data model w = (w', Returned r) ->
  calls w' = calls w /\ forall idx, elt r idx = vzero.
Proof.
  intros Hm Hds Hf E. unfold run_predictions in E. rewrite Hm, Hds in E.
  unfold __run_predictions_slabbed, try_mode in E.
  destruct (slabbed_body _ _ _ w) as [w1 [a|]] eqn:B; [|discriminate].
  inversion E; subst w1 a. clear E. rewrite slabbed_body_eq in B.
  unfold slabbed_steps in B. cbv zeta in B.
  apply bind_some in B. destruct B as (w1 & nas & E1 & B).
  apply swap_keeps_calls in E1. rewrite <- E1.
  apply bind_some in B. destruct B as (w2 & ub & E2 & B).
  apply upper_boundary_idle in E2. subst w2.
  apply bind_some in B. destruct B as (w2 & fr0 & E3 & B).
  apply lift_some in E3. destruct E3 as [-> E3].
  assert (w' = w1 /\ r = fr0) as [-> ->];
    [|split; [reflexivity|intros idx; apply (zeros_elt _ _ _ E3)]].
  destruct (predictions_non_overlapping (config w)).
  - apply bind_some in B. destruct B as (w2 & [padded pad_value] & E4 & B).
    apply lift_some in E4. destruct E4 as [-> E4].
    apply bind_some in B. destruct B as (w2 & scale & E5 & B).
    apply lift_some in E5. destruct E5 as [-> E5].
    apply bind_some in B. destruct B as (w2 & st & E6 & B).
    apply ret_some in B. destruct B as [-> ->].
    apply for_each_idle in E6.
    + destruct E6 as [-> ->]. split; reflexivity.
    + intros i s w0 w0' s' H. exfalso.
      eapply chunk_without_deep_supervision; eauto.
  - destruct (training_slab_size (config w) =? 1).
    + apply bind_some in B. destruct B as (w2 & n & E4 & B).
      apply lift_some in E4. destruct E4 as [-> E4].
      apply for_each_idle in B; [exact B|].
      intros i s w0 w0' s'. apply single_slice_without_deep_supervision.
    + apply bind_some in B. destruct B as (w2 & padded & E4 & B).
      apply lift_some in E4. destruct E4 as [-> E4].
      apply for_each_idle in B; [exact B|].
      intros i s w0 w0' s'. apply window_slice_without_deep_supervision. exact Hf.
Qed.

(** Thin slices of a volume of zeros: every slice is passed over. *)
Lemma X13_slabs_need_deep_supervision_witness :
  calls (fst EdgeCases.plain) = [] /\
  elt (result_of EdgeCases.plain) [1; 1; 1; 0] = vzero.
Proof.
  destruct (X13_slabs_need_deep_supervision EdgeCases.blank (Samples.echo 1)
              (start EdgeCases.plain_parameters) (fst EdgeCases.plain)
              (result_of EdgeCases.plain) eq_refl eq_refl eq_refl) as [E V].
  - apply (outcome_eta EdgeCases.plain). vm_compute. discriminate.
  - split; [exact E|apply V].
Defined.

(** ** Invocations of the non-overlapping tiling *)

Lemma adds0_bind {A B} (m : M A) (f : A -> M B) :
  adds 0 m -> (forall a, adds 0 (f a)) -> adds 0 (bind m f).
Proof. intros Hm Hf. apply (adds_bind 0 0); assumption. Qed.

Lemma adds0_for_each {S} (l : list Z) (body : Z -> S -> M S) s :
  (forall i s, adds 0 (body i s)) -> adds 0 (for_each l body s).
Proof.
  intros Hb. eapply adds_eq; [|apply adds_for_each_in; intros i s0 _; apply Hb].
  lia.
Qed.

Ltac adds0_step :=
  match goal with
  | |- adds 0 (bind _ _) => apply adds0_bind; [|intros]
  | |- adds 0 (lift _) => apply adds_lift
  | |- adds 0 (ret _) => apply adds_ret
  | |- adds _ raise => apply adds_raise
  | |- adds 0 (for_each _ _ _) => apply adds0_for_each; intros
  | |- adds 0 (if ?b then _ else _) => destruct b
  | |- adds 0 (match ?x with _ => _ end) => destruct x
  end.

Lemma adds_extract_slab data plane lo hi : adds 0 (extract_slab data plane lo hi).
Proof. unfold extract_slab. repeat adds0_step. Qed.

Lemma adds_write_chunk fr plane sl keep pred c :
  adds 0 (write_chunk fr plane sl keep pred c).
Proof. unfold write_chunk. repeat adds0_step. Qed.

Lemma adds_unwrap ds outs : adds 0 (unwrap ds outs).
Proof. unfold unwrap. destruct ds; [apply adds_lift|apply adds_ret]. Qed.

Lemma adds_nonoverlapping_chunk data model p ds pad_value scale chunk st :
  adds 1 (nonoverlapping_chunk data model p ds pad_value scale chunk st).
Proof.
  unfold nonoverlapping_chunk. destruct st as [fr unpad]. cbv zeta.
  apply (adds_bind 0 1); [apply adds_extract_slab|]. intros slab.
  apply (adds_bind 0 1); [destruct (fix_orientation p); repeat adds0_step|].
  intros slab'.
  apply (adds_bind 1 0); [apply adds_run|]. intros outs.
  apply adds0_bind; [apply adds_unwrap|]. intros pred.
  apply adds0_bind; [destruct (fix_orientation p); repeat adds0_step|].
  intros pred'. repeat adds0_step; apply adds_write_chunk.
Qed.

Lemma upper_boundary_value data plane d0 d1 d2 w w' ub :
  shape data = [d0; d1; d2] ->
  upper_boundary_of data plane w = (w', Some ub) ->
  w' = w /\ ub = extent_along plane d0 d1 d2.
Proof.
  intros Hs E. unfold upper_boundary_of, extent_along in *. rewrite Hs in E.
  unfold bind, lift, ret in E. cbn [nth_error] in E.
  destruct (is_plane plane "sagittal"); [inversion E; auto|].
  destruct (is_plane plane "coronal"); inversion E; auto.
Qed.

(** X14. With [predictions_non_overlapping] set, a slab-mode call that
    returns has invoked the model once per chunk, that is
    ceil(extent / slab_size) times, the extent taken along the slicing
    plane (axis 0 for sagittal, axis 1 for coronal, axis 2 otherwise). *)
Theorem X14_one_invocation_per_chunk (data : ndarray) (model : Model)
  (w w' : world) (r : ndarray) (d0 d1 d2 scale : Z) :
  selected_mode (config w) = Slab ->
  predictions_non_overlapping (config w) = true ->
  shape data = [d0; d1; d2] ->
  ceil_div (extent_along (slicing_plane (config w)) d0 d1 d2)
    (training_slab_size (config w)) = Some scale ->
  run_predictions data model w = (w', Returned r) ->
  length (calls w') = (length (calls w) + Z.to_nat scale)%nat.
Proof.
  intros Hm Hnov Hs Hsc E. unfold run_predictions in E. rewrite Hm in E.
  unfold __run_predictions_slabbed, try_mode in E.
  destruct (slabbed_body _ _ _ w) as [w1 [a|]] eqn:B; [|discriminate].
  inversion E; subst w1 a. clear E. rewrite slabbed_body_eq in B.
  unfold slabbed_steps in B. cbv zeta in B. rewrite Hnov in B.
  apply bind_some in B. destruct B as (w1 & nas & E1 & B).
  apply swap_keeps_calls in E1. rewrite <- E1.
  apply bind_some in B. destruct B as (w2 & ub & E2 & B).
  apply (upper_boundary_value data _ d0 d1 d2) in E2; [|exact Hs].
  destruct E2 as [-> ->].
  apply bind_some in B. destruct B as (w2 & fr0 & E3 & B).
  apply lift_some in E3. destruct E3 as [-> E3].
  apply bind_some in B. destruct B as (w2 & [padded pad_value] & E4 & B).
  apply lift_some in E4. destruct E4 as [-> E4].
  apply bind_some in B. destruct B as (w2 & scale' & E5 & B).
  apply lift_some in E5. destruct E5 as [-> E5].
  rewrite Hsc in E5. inversion E5; subst scale'.
  apply bind_some in B. destruct B as (w2 & st & E6 & B).
  apply ret_some in B. destruct B as [-> _].
  apply (adds_for_each_in 1) in E6.
  - rewrite E6, range_length, Z.sub_0_r. lia.
  - intros i s _. apply adds_nonoverlapping_chunk.
Qed.

(** Slabs of thickness 2 over four axial slices. *)
Lemma X14_one_invocation_per_chunk_witness :
  length (calls (fst EdgeCases.tiled)) = 2%nat.
Proof.
  refine (X14_one_invocation_per_chunk (Samples.ramp [2; 2; 4] 2)
            (Samples.echo 1) (start EdgeCases.tiled_parameters)
            (fst EdgeCases.tiled) (result_of EdgeCases.tiled) 2 2 4 2
            eq_refl eq_refl eq_refl eq_refl _).
  apply (outcome_eta EdgeCases.tiled). vm_compute. discriminate.
Defined.

(** ** Windows of odd thickness *)

Lemma reshape_mismatch a req :
  Forall (fun d => 0 <= d) req -> prodZ req <> prodZ (shape a) ->
  Np.reshape a req = None.
Proof.
  intros Hreq Hne. unfold Np.reshape, Np.reshape_target.
  replace (filter (fun d => d <? 0) req) with (@nil Z).
  - destruct (prodZ req =? prodZ (shape a)) eqn:E; [lia|reflexivity].
  - symmetry. clear Hne. induction Hreq as [|d l Hd _ IH]; [reflexivity|].
    simpl. destruct (d <? 0) eqn:E; [lia|exact IH].
Qed.

Lemma slice_bounds_all d : 0 <= d -> Np.slice_bounds None None d = (0, d).
Proof. intros H. unfold Np.slice_bounds. f_equal. lia. Qed.

Lemma extract_slab_shape data plane d0 d1 d2 lo hi w :
  shape data = [d0; d1; d2; 1] -> 0 <= d0 -> 0 <= d1 -> 0 <= d2 ->
  plane = "axial"%string \/ plane = "sagittal"%string \/ plane = "coronal"%string ->
  0 <= lo -> lo <= hi -> hi <= extent_along plane d0 d1 d2 ->
  exists slab,
    extract_slab data plane lo hi w = (w, Some slab) /\
    shape slab = [fst (slice_extents plane d0 d1 d2);
                  snd (slice_extents plane d0 d1 d2); hi - lo].
Proof.
  intros Hs H0 H1 H2 Hp Hlo Hlh Hhi.
  destruct Hp as [-> | [-> | ->]]; cbn in Hhi;
    unfold extract_slab, bind, lift, Np.getitem; rewrite Hs;
    cbn [is_plane String.eqb Ascii.eqb Bool.eqb Np.resolve Np.Sl Np.All];
    rewrite ?slice_bounds_all, ?slice_bounds_inside by lia;
    cbn; eexists; split; reflexivity.
Qed.

(** X15. The sliding window cuts [2 * int(slab_size / 2)] slices around a
    position (lines 183-190) and reshapes them to a thickness of
    [slab_size] (line 192): for an odd [slab_size] and a
    [new_axial_size] equal to the extents of a slice, the element counts
    differ and the reshape raises, before the model is invoked. *)
Theorem X15_odd_thickness_cannot_be_reshaped (data : ndarray) (plane : string)
  (d0 d1 d2 n0 n1 slab_size slice : Z) (w : world) :
  shape data = [d0; d1; d2; 1] -> 0 < d0 -> 0 < d1 -> 0 < d2 ->
  plane = "axial"%string \/ plane = "sagittal"%string \/ plane = "coronal"%string ->
  (n0, n1) = slice_extents plane d0 d1 d2 ->
  0 <= slab_size -> Z.odd slab_size = true ->
  0 <= slice - half_of slab_size ->
  slice + half_of slab_size <= extent_along plane d0 d1 d2 ->
  window_input data plane (Some [n0; n1]) slab_size (half_of slab_size) slice w
  = (w, None).
Proof.
  intros Hs H0 H1 H2 Hp Hn Hsz Hodd Hlo Hhi.
  assert (slab_size = 2 * half_of slab_size + 1 /\ 0 <= half_of slab_size)
    as [Hh Hh0].
  { unfold half_of. rewrite Z.quot_div_nonneg by lia.
    pose proof (Zdiv.Zodd_mod slab_size) as M. rewrite Hodd in M.
    pose proof (Z.div_mod slab_size 2 ltac:(lia)) as D.
    assert (slab_size mod 2 = 1).
    { destruct (Z.eqb_spec (slab_size mod 2) 1); [assumption|discriminate]. }
    split; [lia|]. apply Z.div_pos; lia. }
  destruct (extract_slab_shape data plane d0 d1 d2
              (slice - half_of slab_size) (slice + half_of slab_size) w Hs)
    as (slab & E & S); try lia; try assumption.
  unfold window_input. unfold bind at 1. rewrite E.
  unfold bind, lift. cbn [nth_error].
  rewrite reshape_mismatch; [reflexivity| |].
  - assert (0 <= n0 /\ 0 <= n1) as [? ?].
    { destruct Hp as [-> | [-> | ->]]; cbn in Hn; inversion Hn; lia. }
    repeat constructor; lia.
  - rewrite S, <- Hn. cbn [fst snd prodZ fold_right].
    assert (0 < n0 /\ 0 < n1) as [? ?].
    { destruct Hp as [-> | [-> | ->]]; cbn in Hn; inversion Hn; lia. }
    nia.
Qed.

(** A window of thickness 3 around slice 1. *)
Lemma X15_odd_thickness_cannot_be_reshaped_witness :
  EdgeCases.thick_window = (start (Samples.slab_config "axial" 3 false), None).
Proof.
  apply (X15_odd_thickness_cannot_be_reshaped EdgeCases.thick "axial"
           2 2 5 2 2 3 1 (start (Samples.slab_config "axial" 3 false)));
    try reflexivity; try lia; try (vm_compute; discriminate).
  left. reflexivity.
Defined.

(** ** The grid covers the volume *)

Lemma in_grid x y z nx ny nz :
  In x (range 0 nx) -> In y (range 0 ny) -> In z (range 0 nz) ->
  In (x, y, z) (grid nx ny nz).
Proof.
  intros Hx Hy Hz. unfold grid. apply in_flat_map. exists x. split; [exact Hx|].
  apply in_flat_map. exists y. split; [exact Hy|].
  apply in_map_iff. exists z. split; [reflexivity|exact Hz].
Qed.

Lemma ceil_div_defined a b : b <> 0 -> exists n, ceil_div a b = Some n.
Proof.
  intros H. unfold ceil_div. destruct (b =? 0) eqn:E; [lia|]. eexists. reflexivity.
Qed.

(** X16. The grid of patches leaves no voxel out: when, along every
    axis, the offset is below the patch size and the patch fits into the
    (padded) volume, every voxel lies inside the boundaries of a cell of
    the grid that is not given up. *)
Theorem X16_every_voxel_is_covered (data : ndarray)
  (d0 d1 d2 px py pz ox oy oz a b c : Z) :
  shape data = [d0; d1; d2; 1] ->
  0 <= ox < px -> px <= d0 -> 0 <= oy < py -> py <= d1 ->
  0 <= oz < pz -> pz <= d2 ->
  0 <= a < d0 -> 0 <= b < d1 -> 0 <= c < d2 ->
  exists x y z bx by_ bz,
    In (x, y, z) (patch_grid data [px; py; pz] [ox; oy; oz]) /\
    cell_boundaries data [px; py; pz] [ox; oy; oz] 0 x = Some (Some bx) /\
    cell_boundaries data [px; py; pz] [ox; oy; oz] 1 y = Some (Some by_) /\
    cell_boundaries data [px; py; pz] [ox; oy; oz] 2 z = Some (Some bz) /\
    fst bx <= a < snd bx /\ fst by_ <= b < snd by_ /\ fst bz <= c < snd bz.
Proof.
  intros Hs Hox Hpx Hoy Hpy Hoz Hpz Ha Hb Hc.
  destruct (ceil_div_defined d0 (px - ox)) as [nx Ex]; [lia|].
  destruct (ceil_div_defined d1 (py - oy)) as [ny Ey]; [lia|].
  destruct (ceil_div_defined d2 (pz - oz)) as [nz Ez]; [lia|].
  destruct (axis_is_covered px ox d0 nx a Hox Hpx Ha Ex) as (x & lx & hx & Ix & Sx & Cx).
  destruct (axis_is_covered py oy d1 ny b Hoy Hpy Hb Ey) as (y & ly & hy & Iy & Sy & Cy).
  destruct (axis_is_covered pz oz d2 nz c Hoz Hpz Hc Ez) as (z & lz & hz & Iz & Sz & Cz).
  exists x, y, z, (lx, hx), (ly, hy), (lz, hz).
  unfold patch_grid, steps_or_zero, patch_steps, cell_boundaries. rewrite Hs.
  cbn [nth_error]. rewrite Ex, Ey, Ez, Sx, Sy, Sz. cbn [fst snd].
  split; [apply in_grid; assumption|]. repeat split; try reflexivity; lia.
Qed.

(** The last voxel of a (5, 5, 5) volume under patches of size 4 with
    offset 1. *)
Lemma X16_every_voxel_is_covered_witness :
  exists x y z bx by_ bz,
    In (x, y, z) (patch_grid (Np.expand_dims_last NegScenario.volume)
                    [4; 4; 4] [1; 1; 1]) /\
    cell_boundaries (Np.expand_dims_last NegScenario.volume)
      [4; 4; 4] [1; 1; 1] 0 x = Some (Some bx) /\
    cell_boundaries (Np.expand_dims_last NegScenario.volume)
      [4; 4; 4] [1; 1; 1] 1 y = Some (Some by_) /\
    cell_boundaries (Np.expand_dims_last NegScenario.volume)
      [4; 4; 4] [1; 1; 1] 2 z = Some (Some bz) /\
    fst bx <= 4 < snd bx /\ fst by_ <= 4 < snd by_ /\ fst bz <= 4 < snd bz.
Proof.
  apply (X16_every_voxel_is_covered (Np.expand_dims_last NegScenario.volume)
           5 5 5 4 4 4 1 1 1 4 4 4); try reflexivity; lia.
Defined.

(** ** Inputs of the sliding window *)

Ltac quiet_step :=
  match goal with
  | |- always _ (bind _ _) => apply always_bind; [|intros]
  | |- always _ (lift _) => apply always_lift
  | |- always _ (ret _) => apply always_ret
  | |- always _ raise => apply always_raise
  | |- always _ (for_each _ _ _) => apply always_for_each; intros
  | |- always _ (unwrap _ _ ) => apply always_unwrap
  | |- always _ (if ?b then _ else _) => destruct b
  | |- always _ (match ?x with _ => _ end) => destruct x
  end.

Lemma always_bind_ret {A B} I (x : A) (f : A -> M B) :
  always I (f x) -> always I (bind (ret x) f).
Proof. intros H w Hw. exact (H w Hw). Qed.

Lemma fed_run sh model input :
  shape input = sh -> always (fed_with sh) (run model input).
Proof.
  intros H w Hw. unfold run, fed_with. cbn [fst calls].
  apply Forall_app. split; [exact Hw|]. constructor; [exact H|constructor].
Qed.

Lemma fed_after_swap {B} sh p n0 n1 (f : option (list Z) -> M B) :
  new_axial_size p = Some [n0; n1] ->
  always (fed_with sh)
    (f (Some (if swap_training_input p then [n1; n0] else [n0; n1]))) ->
  always (fed_with sh) (bind (swap_new_axial_size p) f).
Proof.
  intros Hn Hf w Hw. unfold bind, swap_new_axial_size. rewrite Hn.
  destruct (swap_training_input p); cbn; apply Hf; exact Hw.
Qed.

Lemma reshape_shape a req r :
  Forall (fun d => 0 <= d) req -> Np.reshape a req = Some r -> shape r = req.
Proof.
  intros Hreq. unfold Np.reshape, Np.reshape_target.
  replace (filter (fun d => d <? 0) req) with (@nil Z).
  - destruct (prodZ req =? prodZ (shape a)); [|discriminate].
    intros H. inversion H. reflexivity.
  - symmetry. induction Hreq as [|d l Hd _ IH]; [reflexivity|].
    simpl. destruct (d <? 0) eqn:E; [lia|exact IH].
Qed.

Lemma single_slice_inputs data model a b ds slice fr :
  0 <= a -> 0 <= b ->
  always (fed_with [1; a; b; 1])
    (single_slice data model (Some [a; b]) ds slice fr).
Proof.
  intros Ha Hb. unfold single_slice.
  apply always_bind; [apply always_lift|]. intros slab.
  destruct (_ =? 0); [apply always_ret|].
  apply always_bind_lift. intros nas E. inversion E; subst nas. clear E.
  apply always_bind_lift. intros n0 E. inversion E; subst n0. clear E.
  apply always_bind_lift. intros n1 E. inversion E; subst n1. clear E.
  apply always_bind_lift. intros input E.
  apply reshape_shape in E; [|repeat constructor; lia].
  apply always_bind; [apply fed_run; exact E|]. intros outs.
  repeat quiet_step.
Qed.

Lemma transpose_window_shape x a b s r :
  shape x = [1; a; b; s; 1] ->
  Np.transpose x [0; 3; 1; 2; 4] = Some r -> shape r = [1; s; a; b; 1].
Proof.
  intros Hs. unfold Np.transpose, ndim. rewrite Hs. cbn.
  intros H. inversion H. reflexivity.
Qed.

Lemma always_bind_with {A B} I (R : A -> Prop) (m : M A) (f : A -> M B) :
  always I m -> yields m R -> (forall a, R a -> always I (f a)) ->
  always I (bind m f).
Proof.
  intros Hm Hy Hf w H. unfold bind. specialize (Hm w H). specialize (Hy w).
  destruct (m w) as [w1 [a|]]; cbn [fst] in *; [|exact Hm].
  apply (Hf a); [eapply Hy; reflexivity|exact Hm].
Qed.

Lemma window_input_shape data plane a b slab_size half slice :
  0 <= a -> 0 <= b -> 0 <= slab_size ->
  yields (window_input data plane (Some [a; b]) slab_size half slice)
    (fun input => shape input = [1; a; b; slab_size; 1]).
Proof.
  intros Ha Hb Hs. unfold window_input.
  apply yields_bind. intros slab.
  apply yields_bind_with with (R := fun nas => nas = [a; b]).
  { apply yields_lift. intros nas E. inversion E. reflexivity. }
  intros nas ->. cbn [nth_error].
  apply yields_bind_with with (R := fun n0 => n0 = a).
  { apply yields_lift. intros n0 E. inversion E. reflexivity. }
  intros n0 ->.
  apply yields_bind_with with (R := fun n1 => n1 = b).
  { apply yields_lift. intros n1 E. inversion E. reflexivity. }
  intros n1 ->.
  apply yields_lift. intros input E.
  apply reshape_shape in E; [exact E|repeat constructor; lia].
Qed.

Lemma window_slice_inputs data model p a b ds half slice fr :
  0 <= a -> 0 <= b -> 0 <= training_slab_size p ->
  always (fed_with (if fix_orientation p
                    then [1; training_slab_size p; a; b; 1]
                    else [1; a; b; training_slab_size p; 1]))
    (window_slice data model p (Some [a; b]) ds half slice fr).
Proof.
  intros Ha Hb Hs. unfold window_slice. cbv zeta.
  eapply always_bind_with.
  - unfold window_input, extract_slab. repeat quiet_step.
  - apply window_input_shape; assumption.
  - intros input Hin. cbv beta in Hin.
    destruct (_ =? 0); [apply always_ret|].
    destruct (fix_orientation p).
    + apply always_bind_lift. intros input' E.
      apply (transpose_window_shape _ _ _ _ _ Hin) in E.
      apply always_bind; [apply fed_run; exact E|]. intros outs.
      repeat quiet_step; unfold write_center; repeat quiet_step.
    + apply always_bind_ret.
      apply always_bind; [apply fed_run; exact Hin|]. intros outs.
      repeat quiet_step; unfold write_center; repeat quiet_step.
Qed.

(** X17. In the sliding window ([predictions_non_overlapping] unset) every
    input the model receives has the configured size: for a
    [new_axial_size] of two entries that are not negative, the two
    entries (exchanged when [swap_training_input] is set) with a batch
    axis, the thickness of the window when it is not 1, moved in front
    when [fix_orientation] is set, and a channel axis. *)
Theorem X17_sliding_window_inputs_have_the_configured_size
  (data : ndarray) (model : Model) (w : world) (n0 n1 : Z) :
  new_axial_size (config w) = Some [n0; n1] ->
  predictions_non_overlapping (config w) = false ->
  0 <= n0 -> 0 <= n1 -> 0 <= training_slab_size (config w) ->
  fed_with (window_shape (config w) n0 n1) w ->
  fed_with (window_shape (config w) n0 n1) (fst (run_predictions data model w)).
Proof.
  intros Hn Hnov H0 H1 Hs Hw.
  assert (selected_mode (config w) = Slab) as Hm.
  { unfold selected_mode. rewrite Hn. reflexivity. }
  unfold run_predictions. rewrite Hm.
  unfold __run_predictions_slabbed. rewrite fst_try_mode, slabbed_body_eq.
  revert Hw. generalize (training_deep_supervision (config w)) as ds.
  intros ds.
  enough (always (fed_with (window_shape (config w) n0 n1))
            (slabbed_steps (config w) data model ds)) as H by apply H.
  revert Hn Hnov Hs. generalize (config w) as p. intros p Hn Hnov Hs.
  unfold slabbed_steps. cbv zeta. rewrite Hnov.
  apply (fed_after_swap _ p n0 n1); [exact Hn|].
  apply always_bind; [unfold upper_boundary_of; repeat quiet_step|].
  intros ub. apply always_bind; [apply always_lift|]. intros fr0.
  unfold window_shape.
  destruct (swap_training_input p);
    (destruct (training_slab_size p =? 1);
     [ apply always_bind; [apply always_lift|]; intros n;
       apply always_for_each; intros slice fr;
       apply single_slice_inputs; assumption
     | apply always_bind; [apply always_lift|]; intros padded;
       apply always_for_each; intros slice fr;
       apply window_slice_inputs; assumption ]).
Qed.

(** Windows of thickness 2 over a (2, 2, 4) volume. *)
Lemma X17_sliding_window_inputs_have_the_configured_size_witness :
  fed_with [1; 2; 2; 2; 1] (fst WindowScenario.axial_echo).
Proof.
  apply (X17_sliding_window_inputs_have_the_configured_size
           (Samples.ramp [2; 2; 4] 2) (Samples.echo 1)
           (start (Samples.slab_config "axial" 2 false)) 2 2);
    try reflexivity; try lia; try (vm_compute; discriminate).
  apply Forall_nil.
Defined.

(** ** What the thin slices write *)

Lemma range_cons lo hi : lo < hi -> range lo hi = lo :: range (lo + 1) hi.
Proof.
  intros H. unfold range.
  replace (Z.to_nat (hi - lo)) with (S (Z.to_nat (hi - (lo + 1)))) by lia.
  cbn [seq map]. f_equal; [lia|].
  rewrite <- seq_shift, map_map. apply map_ext. intros k. lia.
Qed.

Lemma for_each_range {S} (P : Z -> S -> Prop) (body : Z -> S -> M S) hi :
  (forall k s w w' s', k < hi -> P k s -> body k s w = (w', Some s') -> P (k + 1) s') ->
  forall n lo s w w' s',
    n = Z.to_nat (hi - lo) -> lo <= hi ->
    P lo s -> for_each (range lo hi) body s w = (w', Some s') -> P hi s'.
Proof.
  intros Hb n. induction n as [|n IH]; intros lo s w w' s' Hn Hle HP E.
  - assert (lo = hi) as -> by lia. rewrite range_empty in E by lia.
    apply ret_some in E. destruct E as [_ ->]. exact HP.
  - rewrite range_cons in E by lia. cbn [for_each] in E.
    apply bind_some in E. destruct E as (w1 & s1 & E1 & E2).
    apply (IH (lo + 1) s1 w1 w' s'); try lia; [|exact E2].
    eapply Hb; [|exact HP|exact E1]. lia.
Qed.

Lemma setitem_at fr d0 d1 d2 nb k c v fr' :
  shape fr = [d0; d1; d2; nb] -> 0 <= k -> 0 <= c ->
  Np.setitem fr [Np.All; Np.All; Np.At k; Np.At c] v = Some fr' ->
  forall i j, 0 <= i < d0 -> 0 <= j < d1 ->
    elt fr' [i; j; k; c] = elt v (Np.bc_index (shape v) [i; j]).
Proof.
  intros Hs Hk Hc H i j Hi Hj. unfold Np.setitem in H. rewrite Hs in H.
  cbn [Np.resolve Np.All] in H. unfold Np.slice_bounds in H.
  destruct ((- d2 <=? k) && (k <? d2)); [|discriminate H].
  destruct ((- nb <=? c) && (c <? nb)); [|discriminate H].
  cbn [option_map] in H.
  destruct (Np.broadcast_to v _) as [vb|] eqn:B; [|discriminate H].
  inversion H; subst fr'. clear H. cbn [elt Np.sel_locate].
  destruct (k <? 0) eqn:Ek; [lia|]. destruct (c <? 0) eqn:Ec; [lia|].
  unfold Np.broadcast_to in B. destruct (Np.bc_ok_rev _ _); [|discriminate B].
  injection B as <-. cbn [elt].
  destruct ((0 <=? i) && (i <? _)) eqn:Ei; [|lia].
  destruct ((0 <=? j) && (j <? _)) eqn:Ej; [|lia].
  rewrite !Z.eqb_refl. cbn [option_map]. rewrite !Z.sub_0_r. reflexivity.
Qed.

Lemma setitem_other_channel fr k c v fr' i j s c' :
  Np.setitem fr [Np.All; Np.All; Np.At k; Np.At c] v = Some fr' ->
  0 <= c -> c <> c' ->
  elt fr' [i; j; s; c'] = elt fr [i; j; s; c'].
Proof.
  unfold Np.setitem. intros H Hc Hne.
  destruct (Np.resolve _ (shape fr)) as [sel|] eqn:R; [|discriminate].
  destruct (Np.broadcast_to v _) as [vb|]; [|discriminate].
  inversion H; subst fr'. clear H. cbn [elt].
  assert (Np.sel_locate sel [i; j; s; c'] = None) as L; [|rewrite L; reflexivity].
  destruct (shape fr) as [|e0 [|e1 [|e2 [|e3 rest]]]];
    cbn [Np.resolve Np.All] in R; unfold Np.slice_bounds in R;
    cbn [option_map] in R; try discriminate R.
  - destruct ((- e2 <=? k) && (k <? e2)); discriminate R.
  - destruct ((- e2 <=? k) && (k <? e2)); [|discriminate R].
    destruct ((- e3 <=? c) && (c <? e3)); [|discriminate R].
    cbn in R. inversion R; subst sel. clear R.
    cbn [Np.sel_locate].
    destruct ((0 <=? i) && (i <? 0 + _)); [|reflexivity].
    destruct ((0 <=? j) && (j <? 0 + _)); [|reflexivity].
    destruct (s =? _); [|reflexivity].
    destruct (c <? 0) eqn:Ec; [lia|].
    destruct (c' =? c) eqn:Es; [lia|reflexivity].
Qed.

(** What [pred[:, :, c]] holds for a prediction with four axes. *)
Lemma prediction_column o h wd nc c v :
  shape o = [1; h; wd; nc] -> 0 <= c -> 0 <= h -> 0 <= nc ->
  Np.getitem o [Np.All; Np.All; Np.At c] = Some v ->
  shape v = [1; h; nc] /\
  forall x y z, elt v [x; y; z] = elt o [x; y; c; z].
Proof.
  intros Hs Hc Hh Hn H. unfold Np.getitem in H. rewrite Hs in H.
  cbn [Np.resolve Np.All] in H. unfold Np.slice_bounds in H.
  destruct ((- wd <=? c) && (c <? wd)); [|discriminate H].
  cbn in H. inversion H. cbn [shape elt Np.sel_shape Np.sel_index].
  destruct (c <? 0) eqn:Ec; [lia|].
  split; [|intros x y z; reflexivity].
  repeat (f_equal; try lia).
Qed.

Lemma thin_channels o d0 d1 d2 nb wd nc s :
  shape o = [1; d0; wd; nc] -> 0 <= s -> 0 <= d0 ->
  forall fr w w' fr',
    shape fr = [d0; d1; d2; nb] ->
    for_each (range 0 nc)
      (fun c final_result =>
         v <- lift (pygetitem (PArr o) [Np.All; Np.All; Np.At c]) ;;
         lift (Np.setitem final_result [Np.All; Np.All; Np.At s; Np.At c] v))
      fr w = (w', Some fr') ->
    forall i j c, 0 <= i < d0 -> 0 <= j < d1 -> 0 <= c < nc ->
      elt fr' [i; j; s; c] = thin_value o nc i j c.
Proof.
  intros Ho Hs Hd0 fr w w' fr' Hfr E i j c Hi Hj Hc.
  assert (0 <= nc) as Hnc by lia.
  set (P := fun (k : Z) (fr : ndarray) =>
              0 <= k /\ shape fr = [d0; d1; d2; nb] /\
              forall c, 0 <= c < k -> elt fr [i; j; s; c] = thin_value o nc i j c).
  assert (P nc fr') as (_ & _ & H); [|apply H; exact Hc].
  eapply (for_each_range P _ nc) with (lo := 0); [|reflexivity|lia| |exact E].
  - clear E Hfr fr w w' fr' c Hc. intros k fr w w' fr' Hk (Hk0 & Hfr & IH) E.
    cbv beta in E.
    apply bind_some in E. destruct E as (w1 & v & E1 & E).
    apply lift_some in E1. destruct E1 as [-> G].
    apply lift_some in E. destruct E as [-> S].
    cbn [pygetitem] in G.
    destruct (prediction_column o d0 wd nc k v Ho Hk0 Hd0 Hnc G) as [Sv Ev].
    split; [lia|]. split; [rewrite (setitem_shape _ _ _ _ S); exact Hfr|].
    intros c Hc. destruct (Z.eq_dec c k) as [->|Hne].
    + rewrite (setitem_at fr d0 d1 d2 nb s k v fr' Hfr Hs Hk0 S i j Hi Hj).
      rewrite Sv. unfold Np.bc_index. cbn [rev app Np.bc_index_rev].
      rewrite Ev. unfold thin_value.
      destruct (d0 =? 1) eqn:E1; [|reflexivity].
      replace i with 0 by lia. reflexivity.
    + rewrite (setitem_other_channel fr s k v fr' i j s c S Hk0 ltac:(lia)).
      apply IH. lia.
  - split; [lia|]. split; [exact Hfr|]. intros c0 Hc0. lia.
Qed.

Lemma single_slice_hit data model n0 n1 s fr w w' fr' slab input o rest
  d0 d1 d2 nb wd nc :
  Np.getitem data [Np.All; Np.All; Np.At s; Np.At 0] = Some slab ->
  Np.count_gt slab vtenth <> 0 ->
  Np.reshape slab [1; n0; n1; 1] = Some input ->
  model input = Some (o :: rest) ->
  shape o = [1; d0; wd; nc] -> 0 <= s -> 0 <= d0 ->
  shape fr = [d0; d1; d2; nb] ->
  single_slice data model (Some [n0; n1]) true s fr w = (w', Some fr') ->
  forall i j c, 0 <= i < d0 -> 0 <= j < d1 -> 0 <= c < nc ->
    elt fr' [i; j; s; c] = thin_value o nc i j c.
Proof.
  intros Hslab Hcount Hre Hmodel Ho Hs Hd0 Hfr E. unfold single_slice in E.
  apply bind_some in E. destruct E as (w1 & slab' & E1 & E).
  apply lift_some in E1. destruct E1 as [-> E1].
  rewrite Hslab in E1. injection E1 as <-.
  destruct (Np.count_gt slab vtenth =? 0) eqn:C; [lia|].
  apply bind_some in E. destruct E as (w1 & nas & E1 & E).
  apply lift_some in E1. destruct E1 as [-> E1]. injection E1 as <-.
  cbn [nth_error] in E.
  apply bind_some in E. destruct E as (w1 & a & E1 & E).
  apply lift_some in E1. destruct E1 as [-> E1]. injection E1 as <-.
  apply bind_some in E. destruct E as (w1 & b & E1 & E).
  apply lift_some in E1. destruct E1 as [-> E1]. injection E1 as <-.
  apply bind_some in E. destruct E as (w1 & input' & E1 & E).
  apply lift_some in E1. destruct E1 as [-> E1].
  rewrite Hre in E1. injection E1 as <-.
  apply bind_some in E. destruct E as (w1 & outs & E1 & E).
  unfold run in E1. rewrite Hmodel in E1. inversion E1; subst w1 outs. clear E1.
  apply bind_some in E. destruct E as (w1 & pred & E1 & E).
  unfold unwrap in E1. apply lift_some in E1. destruct E1 as [-> E1].
  cbn [first] in E1. injection E1 as <-.
  apply bind_some in E. destruct E as (w1 & nc' & E1 & E).
  apply lift_some in E1. destruct E1 as [-> E1].
  cbn [shape_last] in E1. rewrite Ho in E1. cbn in E1. injection E1 as <-.
  eapply thin_channels; eauto.
Qed.

Lemma single_slice_other data model nas ds k fr s i j c :
  0 <= k -> k <> s ->
  yields (single_slice data model nas ds k fr)
    (fun fr' => elt fr' [i; j; s; c] = elt fr [i; j; s; c]).
Proof.
  intros H0 Hne. unfold single_slice. repeat yield_step.
  - apply yields_ret. reflexivity.
  - apply yields_for_each; [|reflexivity].
    intros c0 fr1 H1. yield_step. apply yields_lift. intros fr2 E.
    rewrite (setitem_other_slice _ _ _ _ _ s i j c E H0 Hne). exact H1.
Qed.

(** X18. What the thin slices write.  In the sliding window of thickness
    1 with deep supervision, for a slice [s] that is not passed over and
    a first model output [o] of shape (1, d0, wd, nc): in the volume a
    call returns, the probability of class [c] at voxel (i, j) of the
    slice is [o[0, i, c, j]] (or [o[0, i, c, 0]] when there is one class
    only).  The [o[:, :, c]] of line 176 indexes the columns of the
    prediction, not its classes, so columns and classes are exchanged. *)
Theorem X18_thin_slices_exchange_columns_and_classes
  (data : ndarray) (model : Model) (w w' : world) (r slab input o : ndarray)
  (rest : list ndarray) (d0 d1 d2 n0 n1 wd nc s : Z) :
  new_axial_size (config w) = Some [n0; n1] ->
  predictions_non_overlapping (config w) = false ->
  training_slab_size (config w) = 1 ->
  training_deep_supervision (config w) = true ->
  shape data = [d0; d1; d2] -> 0 <= s < d2 ->
  Np.getitem (Np.expand_dims_last data) [Np.All; Np.All; Np.At s; Np.At 0]
  = Some slab ->
  Np.count_gt slab vtenth <> 0 ->
  Np.reshape slab (window_shape (config w) n0 n1) = Some input ->
  model input = Some (o :: rest) ->
  shape o = [1; d0; wd; nc] ->
  run_predictions data model w = (w', Returned r) ->
  forall i j c, 0 <= i < d0 -> 0 <= j < d1 -> 0 <= c < nc ->
    elt r [i; j; s; c] = thin_value o nc i j c.
Proof.
  intros Hn Hnov Hslab Hds Hs Hsl Hget Hcount Hre Hmodel Ho E i j c Hi Hj Hc.
  assert (selected_mode (config w) = Slab) as Hm.
  { unfold selected_mode. rewrite Hn. reflexivity. }
  unfold run_predictions in E. rewrite Hm, Hds in E.
  unfold __run_predictions_slabbed, try_mode in E.
  destruct (slabbed_body _ _ _ w) as [w1 [a|]] eqn:B; [|discriminate].
  inversion E; subst w1 a. clear E. rewrite slabbed_body_eq in B.
  unfold slabbed_steps in B. cbv zeta in B. rewrite Hnov, Hslab in B.
  cbn [Z.eqb Pos.eqb] in B.
  apply bind_some in B. destruct B as (w1 & nas & E1 & B).
  assert (nas = Some (if swap_training_input (config w)
                      then [n1; n0] else [n0; n1])) as ->.
  { unfold swap_new_axial_size in E1. rewrite Hn in E1.
    destruct (swap_training_input (config w)); inversion E1; reflexivity. }
  clear E1.
  apply bind_some in B. destruct B as (w2 & ub & E2 & B). clear E2.
  apply bind_some in B. destruct B as (w3 & fr0 & E3 & B).
  apply lift_some in E3. destruct E3 as [-> E3].
  apply bind_some in B. destruct B as (w3 & n & E4 & B).
  apply lift_some in E4. destruct E4 as [-> E4].
  cbn [Np.expand_dims_last shape] in E4. rewrite Hs in E4. cbn in E4.
  injection E4 as <-.
  pose proof (zeros_shape _ _ E3) as Hfr0. rewrite Hs in Hfr0. cbn [app] in Hfr0.
  assert (0 <= d0) as Hd0.
  { pose proof (zeros_nonneg _ _ E3) as W. rewrite Hs in W.
    inversion W; subst. assumption. }
  unfold window_shape in Hre. rewrite Hslab in Hre. cbn [Z.eqb Pos.eqb] in Hre.
  set (nb := training_nb_classes (config w)) in *.
  set (P := fun (k : Z) (fr : ndarray) =>
              0 <= k /\ shape fr = [d0; d1; d2; nb] /\
              (s < k -> elt fr [i; j; s; c] = thin_value o nc i j c)).
  assert (P d2 r) as (_ & _ & H); [|apply H; lia].
  eapply (for_each_range P _ d2) with (lo := 0); [|reflexivity|lia| |exact B].
  - clear B. intros k fr wa wb fr' Hk (Hk0 & Hfr & IH) E.
    split; [lia|]. split; [eapply single_slice_shape; eauto|]. intros Hsk.
    destruct (Z.eq_dec k s) as [->|Hne].
    + destruct (swap_training_input (config w));
        eapply single_slice_hit; eauto; lia.
    + rewrite (single_slice_other _ _ _ _ k fr s i j c Hk0 Hne _ _ _ E).
      apply IH. lia.
  - split; [lia|]. split; [exact Hfr0|]. lia.
Qed.

(** Slice 1 of a (2, 2, 4) volume of coordinates, one class: the voxel
    (1, 1) of the slice receives what the model answered at (1, 0). *)
Lemma X18_thin_slices_exchange_columns_and_classes_witness :
  elt (result_of SagittalScenario.result) [1; 1; 1; 0]
  = elt EdgeCases.thin_output [0; 1; 0; 0] /\
  code (elt EdgeCases.thin_output [0; 1; 0; 0]) = 10001.
Proof.
  split; [|reflexivity].
  apply (X18_thin_slices_exchange_columns_and_classes SagittalScenario.volume
           (Samples.echo 1) (start SagittalScenario.parameters)
           (fst SagittalScenario.result) (result_of SagittalScenario.result)
           EdgeCases.thin_slab EdgeCases.thin_input EdgeCases.thin_output []
           2 2 4 2 2 2 1 1); try reflexivity; try lia.
  vm_compute. discriminate.
Defined.
(** * What the slab strategy writes *)

(** ** Sliding windows *)

Lemma setitem_spec fr its v fr' :
  Np.setitem fr its v = Some fr' ->
  exists sel,
    Np.resolve its (shape fr) = Some sel /\
    Np.bc_ok_rev (rev (shape v)) (rev (Np.sel_shape sel)) = true /\
    forall idx, elt fr' idx = match Np.sel_locate sel idx with
                              | Some r => elt v (Np.bc_index (shape v) r)
                              | None => elt fr idx
                              end.
Proof.
  unfold Np.setitem, Np.broadcast_to. intros H.
  destruct (Np.resolve its (shape fr)) as [sel|]; [|discriminate].
  destruct (Np.bc_ok_rev _ _) eqn:K; [|discriminate].
  inversion H; subst fr'. exists sel. repeat split; auto.
Qed.

(** [o[0][:, :, half, c]] for an output with five axes. *)
Lemma center_of_output o e0 e1 sz nc half c p0 v :
  shape o = [1; e0; e1; sz; nc] -> 0 <= e0 -> 0 <= e1 -> 0 <= half -> 0 <= c ->
  first (PArr o) = Some p0 ->
  pygetitem p0 [Np.All; Np.All; Np.At half; Np.At c] = Some v ->
  shape v = [e0; e1] /\ forall i j, elt v [i; j] = elt o [0; i; j; half; c].
Proof.
  intros Ho H0 H1 Hh Hc F G. cbn [first] in F. unfold Np.getitem in F.
  rewrite Ho in F. cbn in F. injection F as <-.
  cbn [pygetitem] in G. unfold Np.getitem in G. cbn [shape Np.sel_shape] in G.
  cbn [Np.resolve Np.All] in G. unfold Np.slice_bounds in G.
  destruct ((- sz <=? half) && (half <? sz)); [|discriminate G].
  destruct ((- nc <=? c) && (c <? nc)); [|discriminate G].
  cbn in G. injection G as <-. cbn [shape elt Np.sel_shape Np.sel_index].
  destruct (half <? 0) eqn:E1; [lia|]. destruct (c <? 0) eqn:E2; [lia|].
  split; [|intros i j; reflexivity].
  repeat (f_equal; try lia).
Qed.

Lemma bc_index_same e0 e1 i j :
  0 <= i < e0 -> 0 <= j < e1 -> Np.bc_index [e0; e1] [i; j] = [i; j].
Proof.
  intros Hi Hj. unfold Np.bc_index. cbn [rev app Np.bc_index_rev].
  destruct (e1 =? 1) eqn:E1, (e0 =? 1) eqn:E0; f_equal; try lia; f_equal; lia.
Qed.

Lemma write_center_spec fr plane slice half o c w w' fr' d0 d1 d2 nb e0 e1 sz nc :
  plane = "axial"%string \/ plane = "sagittal"%string \/ plane = "coronal"%string ->
  shape fr = [d0; d1; d2; nb] ->
  (e0, e1) = slice_extents plane d0 d1 d2 ->
  shape o = [1; e0; e1; sz; nc] ->
  0 <= d0 -> 0 <= d1 -> 0 <= d2 ->
  0 <= written_slice plane slice half -> 0 <= half -> 0 <= c ->
  write_center fr plane slice half (PArr o) c w = (w', Some fr') ->
  forall i j k c', 0 <= i < e0 -> 0 <= j < e1 -> 0 <= k -> 0 <= c' ->
    elt fr' (place plane i j k ++ [c'])
    = if (k =? written_slice plane slice half) && (c' =? c)
      then elt o [0; i; j; half; c]
      else elt fr (place plane i j k ++ [c']).
Proof.
  intros Hp Hfr He Ho H0 H1 H2 Hk Hh Hc E i j k c' Hi Hj Hk' Hc'.
  assert (0 <= e0 /\ 0 <= e1) as [He0 He1].
  { destruct Hp as [-> | [-> | ->]]; cbn in He; inversion He; lia. }
  destruct Hp as [-> | [-> | ->]]; cbn in He; inversion He; subst e0 e1; clear He;
    unfold write_center in E;
    cbn [is_plane String.eqb Ascii.eqb Bool.eqb] in E;
    unfold written_slice, place in *;
    cbn [is_plane String.eqb Ascii.eqb Bool.eqb app] in *;
    apply bind_some in E; destruct E as (w1 & p0 & E1 & E);
    apply lift_some in E1; destruct E1 as [-> F];
    apply bind_some in E; destruct E as (w1 & v & E1 & E);
    apply lift_some in E1; destruct E1 as [-> G];
    apply lift_some in E; destruct E as [-> S];
    (edestruct (center_of_output o) as [Sv Ev]; [exact Ho| | | | |exact F|exact G|];
     try lia);
    destruct (setitem_spec _ _ _ _ S) as (sel & R & _ & V);
    rewrite V; clear V;
    rewrite Hfr in R; cbn [Np.resolve Np.All] in R; unfold Np.slice_bounds in R;
    repeat match type of R with
           | context [if ?b then _ else _] => destruct b eqn:?; cbn [option_map] in R
           end; try discriminate R;
    cbn [option_map] in R; injection R as <-; cbn [Np.sel_locate].
  all: repeat match goal with
       | |- context [(?a <=? ?b) && (?x <? ?y)] =>
           destruct ((a <=? b) && (x <? y)) eqn:?; try lia
       end.
  all: destruct (k =? _) eqn:Ek; destruct (c' =? c) eqn:Ec';
    cbn [option_map andb]; try reflexivity.
  all: rewrite Sv, !Z.sub_0_r, bc_index_same by lia; rewrite Ev; reflexivity.
Qed.

Lemma write_center_keeps_shape sh fr plane slice half pred c w w' fr' :
  shape fr = sh -> write_center fr plane slice half pred c w = (w', Some fr') ->
  shape fr' = sh.
Proof. intros H E. eapply write_center_shape; eauto. Qed.

(** The channel loop of one window (lines 204-211). *)
Lemma window_channels fr plane slice half o w w' fr' d0 d1 d2 nb e0 e1 sz nc :
  plane = "axial"%string \/ plane = "sagittal"%string \/ plane = "coronal"%string ->
  shape fr = [d0; d1; d2; nb] ->
  (e0, e1) = slice_extents plane d0 d1 d2 ->
  shape o = [1; e0; e1; sz; nc] ->
  0 <= d0 -> 0 <= d1 -> 0 <= d2 ->
  0 <= written_slice plane slice half -> 0 <= half ->
  for_each (range 0 nc)
    (fun c final_result => write_center final_result plane slice half (PArr o) c)
    fr w = (w', Some fr') ->
  forall i j k c, 0 <= i < e0 -> 0 <= j < e1 -> 0 <= k -> 0 <= c ->
    elt fr' (place plane i j k ++ [c])
    = if (k =? written_slice plane slice half) && (c <? nc)
      then elt o [0; i; j; half; c]
      else elt fr (place plane i j k ++ [c]).
Proof.
  intros Hp Hfr He Ho H0 H1 H2 Hk Hh E i j k c Hi Hj Hk' Hc.
  set (P := fun (n : Z) (x : ndarray) =>
              0 <= n /\ shape x = [d0; d1; d2; nb] /\
              elt x (place plane i j k ++ [c])
              = if (k =? written_slice plane slice half) && (c <? n)
                then elt o [0; i; j; half; c]
                else elt fr (place plane i j k ++ [c])).
  destruct (Z_lt_le_dec nc 0) as [Hneg|Hnc].
  { rewrite range_empty in E by lia. apply ret_some in E. destruct E as [_ ->].
    replace (c <? nc) with false by lia. rewrite andb_false_r. reflexivity. }
  assert (P nc fr') as (_ & _ & H); [|exact H].
  eapply (for_each_range P _ nc) with (lo := 0); [|reflexivity|lia| |exact E].
  - clear E. intros n x wa wb x' Hn (Hn0 & Hx & IH) E. cbv beta in E.
    split; [lia|]. split; [eapply write_center_keeps_shape; eauto|].
    rewrite (write_center_spec x plane slice half o n wa wb x' d0 d1 d2 nb e0 e1 sz nc
               Hp Hx He Ho H0 H1 H2 Hk Hh Hn0 E i j k c Hi Hj Hk' Hc).
    rewrite IH.
    destruct (k =? written_slice plane slice half); cbn [andb]; [|reflexivity].
    destruct (c <? n) eqn:E2, (c <? n + 1) eqn:E3, (Z.eqb_spec c n) as [E1|E1];
      try lia; try reflexivity.
    subst c. reflexivity.
  - split; [lia|]. split; [exact Hfr|].
    replace (c <? 0) with false by lia. rewrite andb_false_r. reflexivity.
Qed.

Lemma pure_ret {A} (x : A) : pure (ret x).
Proof. exists (Some x). reflexivity. Qed.

Lemma pure_raise {A} : pure (@raise A).
Proof. exists None. reflexivity. Qed.

Lemma pure_lift {A} (o : option A) : pure (lift o).
Proof. exists o. reflexivity. Qed.

Lemma pure_bind {A B} (m : M A) (f : A -> M B) :
  pure m -> (forall a, pure (f a)) -> pure (bind m f).
Proof.
  intros [r Hm] Hf. destruct r as [a|].
  - destruct (Hf a) as [r' Hr']. exists r'. intros w. unfold bind.
    rewrite Hm. apply Hr'.
  - exists None. intros w. unfold bind. rewrite Hm. reflexivity.
Qed.

Lemma pure_same {A} (m : M A) w w1 r :
  pure m -> m w = (w1, r) -> forall w2, m w2 = (w2, r).
Proof.
  intros [r' H] E w2. rewrite H in E. inversion E; subst. apply H.
Qed.

Ltac pure_step :=
  match goal with
  | |- pure (bind _ _) => apply pure_bind; [|intros]
  | |- pure (lift _) => apply pure_lift
  | |- pure (ret _) => apply pure_ret
  | |- pure raise => apply pure_raise
  | |- pure (if ?b then _ else _) => destruct b
  end.

Lemma pure_window_input data plane nas slab_size half slice :
  pure (window_input data plane nas slab_size half slice).
Proof. unfold window_input, extract_slab. repeat pure_step. Qed.

Lemma write_center_other fr plane slice half pred c w w' fr' d0 d1 d2 nb i j k c' :
  plane = "axial"%string \/ plane = "sagittal"%string \/ plane = "coronal"%string ->
  shape fr = [d0; d1; d2; nb] ->
  0 <= written_slice plane slice half ->
  k <> written_slice plane slice half ->
  write_center fr plane slice half pred c w = (w', Some fr') ->
  elt fr' (place plane i j k ++ [c']) = elt fr (place plane i j k ++ [c']).
Proof.
  intros Hp Hfr Hk Hne E.
  destruct Hp as [-> | [-> | ->]];
    unfold write_center in E;
    unfold written_slice, place in *;
    cbn [is_plane String.eqb Ascii.eqb Bool.eqb app] in *;
    apply bind_some in E; destruct E as (w1 & p0 & E1 & E);
    apply bind_some in E; destruct E as (w2 & v & E2 & E);
    apply lift_some in E; destruct E as [_ S];
    destruct (setitem_spec _ _ _ _ S) as (sel & R & _ & V);
    rewrite V; clear V;
    rewrite Hfr in R; cbn [Np.resolve Np.All] in R; unfold Np.slice_bounds in R;
    repeat match type of R with
           | context [if ?b then _ else _] =>
               destruct b eqn:?; cbn [option_map] in R; try lia
           end; try discriminate R;
    cbn [option_map] in R; injection R as <-; cbn [Np.sel_locate].
  all: repeat match goal with
       | |- context [(?a <=? ?b) && (?x <? ?y)] =>
           destruct ((a <=? b) && (x <? y)) eqn:?; try reflexivity
       end.
  all: destruct (k =? _) eqn:Ek; [lia|reflexivity].
Qed.

Lemma written_slice_injective plane k slice half :
  k <> slice -> written_slice plane k half <> written_slice plane slice half.
Proof. unfold written_slice. destruct (is_plane plane "axial"); lia. Qed.

Lemma yields_weaken {A} (m : M A) (Q R : A -> Prop) :
  yields m Q -> (forall a, Q a -> R a) -> yields m R.
Proof. intros H HQ w w' a E. apply HQ. eapply H. exact E. Qed.

Lemma window_slice_other data model p nas ds half slice fr d0 d1 d2 nb i j k c :
  slicing_plane p = "axial"%string \/ slicing_plane p = "sagittal"%string
  \/ slicing_plane p = "coronal"%string ->
  shape fr = [d0; d1; d2; nb] ->
  0 <= written_slice (slicing_plane p) slice half ->
  k <> written_slice (slicing_plane p) slice half ->
  yields (window_slice data model p nas ds half slice fr)
    (fun fr' => elt fr' (place (slicing_plane p) i j k ++ [c])
                = elt fr (place (slicing_plane p) i j k ++ [c])).
Proof.
  intros Hp Hfr Hk Hne. unfold window_slice. cbv zeta. repeat yield_step.
  - apply yields_ret. reflexivity.
  - apply (yields_weaken _
             (fun x => shape x = [d0; d1; d2; nb] /\
                       elt x (place (slicing_plane p) i j k ++ [c])
                       = elt fr (place (slicing_plane p) i j k ++ [c])));
      [|intros x [_ H]; exact H].
    apply yields_for_each; [|split; [exact Hfr|reflexivity]].
    intros c0 x [Hx IH] wa wb x' E. split.
    + eapply write_center_keeps_shape; eauto.
    + rewrite (write_center_other x _ slice half _ c0 wa wb x' d0 d1 d2 nb
                 i j k c Hp Hx Hk Hne E). exact IH.
Qed.

Lemma window_slice_hit data model p nas half slice fr w w' fr' input o rest
  d0 d1 d2 nb e0 e1 sz nc :
  slicing_plane p = "axial"%string \/ slicing_plane p = "sagittal"%string
  \/ slicing_plane p = "coronal"%string ->
  fix_orientation p = false ->
  window_input data (slicing_plane p) nas (training_slab_size p) half slice w
  = (w, Some input) ->
  Np.count_gt input vtenth <> 0 ->
  model input = Some (o :: rest) ->
  (e0, e1) = slice_extents (slicing_plane p) d0 d1 d2 ->
  shape o = [1; e0; e1; sz; nc] ->
  shape fr = [d0; d1; d2; nb] -> 0 <= d0 -> 0 <= d1 -> 0 <= d2 ->
  0 <= written_slice (slicing_plane p) slice half -> 0 <= half ->
  window_slice data model p nas true half slice fr w = (w', Some fr') ->
  forall i j c, 0 <= i < e0 -> 0 <= j < e1 -> 0 <= c < nc ->
    elt fr' (place (slicing_plane p) i j
               (written_slice (slicing_plane p) slice half) ++ [c])
    = elt o [0; i; j; half; c].
Proof.
  intros Hp Hfix Hin Hcount Hmodel He Ho Hfr H0 H1 H2 Hk Hh E i j c Hi Hj Hc.
  unfold window_slice in E. cbv zeta in E. rewrite Hfix in E.
  unfold bind at 1 in E. rewrite Hin in E.
  destruct (Np.count_gt input vtenth =? 0) eqn:C; [lia|].
  apply bind_some in E. destruct E as (w1 & input' & E1 & E).
  apply ret_some in E1. destruct E1 as [-> ->].
  apply bind_some in E. destruct E as (w1 & outs & E1 & E).
  unfold run in E1. rewrite Hmodel in E1. inversion E1; subst w1 outs. clear E1.
  apply bind_some in E. destruct E as (w1 & pred & E1 & E).
  unfold unwrap in E1. apply lift_some in E1. destruct E1 as [-> E1].
  cbn [first] in E1. injection E1 as <-.
  apply bind_some in E. destruct E as (w1 & pred & E1 & E).
  apply ret_some in E1. destruct E1 as [-> ->].
  apply bind_some in E. destruct E as (w1 & nc' & E1 & E).
  apply lift_some in E1. destruct E1 as [-> E1].
  cbn [shape_last] in E1. rewrite Ho in E1. cbn in E1. injection E1 as <-.
  rewrite (window_channels fr _ slice half o _ _ fr' d0 d1 d2 nb e0 e1 sz nc
             Hp Hfr He Ho H0 H1 H2 Hk Hh E i j _ c Hi Hj Hk ltac:(lia)).
  rewrite Z.eqb_refl. replace (c <? nc) with true by lia. reflexivity.
Qed.

(** X19. What the sliding window writes.  In the sliding window of a
    thickness other than 1, with deep supervision and without
    [fix_orientation] or [swap_training_input], for a loop position
    [slice] whose window is not passed over and a first model output [o]
    of shape (1, e0, e1, sz, nc), where (e0, e1) are the extents of a
    slice: in the volume a call returns, the slice written for that
    position holds the central slice [int(slab_size / 2)] of [o], class by
    class.  The slice written is [slice - int(slab_size / 2)] for the
    axial plane and [slice] itself for the two other planes. *)
Theorem X19_sliding_window_writes_the_centre
  (data : ndarray) (model : Model) (w w' : world) (r padded input o : ndarray)
  (rest : list ndarray) (d0 d1 d2 e0 e1 sz nc slice : Z) :
  selected_mode (config w) = Slab ->
  swap_training_input (config w) = false ->
  predictions_non_overlapping (config w) = false ->
  training_slab_size (config w) <> 1 -> 0 <= training_slab_size (config w) ->
  training_deep_supervision (config w) = true ->
  fix_orientation (config w) = false ->
  slicing_plane (config w) = "axial"%string
  \/ slicing_plane (config w) = "sagittal"%string
  \/ slicing_plane (config w) = "coronal"%string ->
  shape data = [d0; d1; d2] ->
  padding_for_inference_both_ends (Np.expand_dims_last data)
    (training_slab_size (config w)) (slicing_plane (config w)) = Some padded ->
  half_of (training_slab_size (config w)) <= slice
  < extent_along (slicing_plane (config w)) d0 d1 d2 ->
  window_input padded (slicing_plane (config w)) (new_axial_size (config w))
    (training_slab_size (config w)) (half_of (training_slab_size (config w)))
    slice w = (w, Some input) ->
  Np.count_gt input vtenth <> 0 ->
  model input = Some (o :: rest) ->
  (e0, e1) = slice_extents (slicing_plane (config w)) d0 d1 d2 ->
  shape o = [1; e0; e1; sz; nc] ->
  run_predictions data model w = (w', Returned r) ->
  forall i j c, 0 <= i < e0 -> 0 <= j < e1 -> 0 <= c < nc ->
    elt r (place (slicing_plane (config w)) i j
             (written_slice (slicing_plane (config w)) slice
                (half_of (training_slab_size (config w)))) ++ [c])
    = elt o [0; i; j; half_of (training_slab_size (config w)); c].
Proof.
  intros Hm Hswap Hnov Hsz Hsz0 Hds Hfix Hp Hs Hpad Hsl Hin Hcount Hmodel He Ho
         E i j c Hi Hj Hc.
  unfold run_predictions in E. rewrite Hm, Hds in E.
  unfold __run_predictions_slabbed, try_mode in E.
  destruct (slabbed_body _ _ _ w) as [w1 [a|]] eqn:B; [|discriminate].
  inversion E; subst w1 a. clear E. rewrite slabbed_body_eq in B.
  unfold slabbed_steps in B. cbv zeta in B. rewrite Hnov in B.
  replace (training_slab_size (config w) =? 1) with false in B by lia.
  apply bind_some in B. destruct B as (w1 & nas & E1 & B).
  unfold swap_new_axial_size in E1. rewrite Hswap in E1.
  apply ret_some in E1. destruct E1 as [-> ->].
  apply bind_some in B. destruct B as (w2 & ub & E2 & B).
  apply (upper_boundary_value data _ d0 d1 d2) in E2; [|exact Hs].
  destruct E2 as [-> ->].
  apply bind_some in B. destruct B as (w3 & fr0 & E3 & B).
  apply lift_some in E3. destruct E3 as [-> E3].
  apply bind_some in B. destruct B as (w3 & padded' & E4 & B).
  apply lift_some in E4. destruct E4 as [-> E4].
  rewrite Hpad in E4. injection E4 as <-.
  pose proof (zeros_shape _ _ E3) as Hfr0. rewrite Hs in Hfr0. cbn [app] in Hfr0.
  assert (0 <= d0 /\ 0 <= d1 /\ 0 <= d2) as (H0 & H1 & H2).
  { pose proof (zeros_nonneg _ _ E3) as W. rewrite Hs in W.
    inversion W as [|? ? ? W1]; subst. inversion W1 as [|? ? ? W2]; subst.
    inversion W2; subst. auto. }
  set (p := config w) in *.
  set (plane := slicing_plane p) in *.
  set (half := half_of (training_slab_size p)) in *.
  set (nb := training_nb_classes p) in *.
  assert (0 <= half) as Hh.
  { unfold half, half_of. apply Z.quot_pos; lia. }
  set (P := fun (k : Z) (fr : ndarray) =>
              half <= k /\ shape fr = [d0; d1; d2; nb] /\
              (slice < k ->
               elt fr (place plane i j (written_slice plane slice half) ++ [c])
               = elt o [0; i; j; half; c])).
  assert (P (extent_along plane d0 d1 d2) r) as (_ & _ & H); [|apply H; lia].
  eapply (for_each_range P _ (extent_along plane d0 d1 d2)) with (lo := half);
    [|reflexivity|lia| |exact B].
  - clear B. intros k fr wa wb fr' Hk (Hk0 & Hfr & IH) E.
    assert (forall x, half <= x -> 0 <= written_slice plane x half) as Hw.
    { intros x Hx. unfold written_slice. destruct (is_plane plane "axial"); lia. }
    split; [lia|]. split; [eapply window_slice_shape; eauto|]. intros Hsk.
    destruct (Z.eq_dec k slice) as [->|Hne].
    + assert (window_input padded plane (new_axial_size p) (training_slab_size p)
                half slice wa = (wa, Some input)) as Hin'.
      { apply (pure_same _ w w); [apply pure_window_input|exact Hin]. }
      apply (window_slice_hit padded model p _ half slice fr wa wb fr' input o rest
               d0 d1 d2 nb e0 e1 sz nc Hp Hfix Hin' Hcount Hmodel He Ho Hfr
               H0 H1 H2 (Hw slice Hk0) Hh E i j c Hi Hj Hc).
    + etransitivity; [|apply IH; lia].
      exact (window_slice_other padded model p _ true half k fr d0 d1 d2 nb
               i j (written_slice plane slice half) c Hp Hfr (Hw k Hk0)
               (written_slice_injective plane slice k half (not_eq_sym Hne))
               _ _ _ E).
  - split; [lia|]. split; [exact Hfr0|]. lia.
Qed.

(** Coronal windows of thickness 2 over a (2, 4, 2) volume of
    coordinates: the window of loop position 2 is written to slice 2,
    and holds the voxels of slice 1. *)
Lemma X19_sliding_window_writes_the_centre_witness :
  elt (result_of EdgeCases.windows) [1; 2; 1; 0]
  = elt EdgeCases.windows_output [0; 1; 1; 1; 0] /\
  code (elt EdgeCases.windows_output [0; 1; 1; 1; 0]) = 10101.
Proof.
  split; [|reflexivity].
  apply (X19_sliding_window_writes_the_centre EdgeCases.windows_volume
           (Samples.echo 1) (start EdgeCases.windows_parameters)
           (fst EdgeCases.windows) (result_of EdgeCases.windows)
           EdgeCases.windows_padded EdgeCases.windows_input
           EdgeCases.windows_output [] 2 4 2 2 2 2 1 2 eq_refl eq_refl eq_refl);
    try reflexivity; try lia; try (vm_compute; discriminate).
  - right. right. reflexivity.
  - split; vm_compute; first [discriminate|reflexivity].
Defined.

(** ** Non-overlapping chunks *)

(** [o[0][:, :, :keep, c]] for an output with five axes. *)
Lemma head_of_output o e0 e1 sz nc keep c p0 v :
  shape o = [1; e0; e1; sz; nc] -> 0 <= e0 -> 0 <= e1 -> 0 <= keep <= sz -> 0 <= c ->
  first (PArr o) = Some p0 ->
  pygetitem p0 [Np.All; Np.All; Np.Upto keep; Np.At c] = Some v ->
  shape v = [e0; e1; keep] /\ forall i j t, elt v [i; j; t] = elt o [0; i; j; t; c].
Proof.
  intros Ho H0 H1 Hk Hc F G. cbn [first] in F. unfold Np.getitem in F.
  rewrite Ho in F. cbn in F. injection F as <-.
  cbn [pygetitem] in G. unfold Np.getitem in G. cbn [shape Np.sel_shape] in G.
  cbn [Np.resolve Np.All Np.Upto] in G. unfold Np.slice_bounds, Np.slice_index in G.
  destruct ((- nc <=? c) && (c <? nc)); [|discriminate G].
  cbn in G. injection G as <-. cbn [shape elt Np.sel_shape Np.sel_index].
  destruct (keep <? 0) eqn:E1; [lia|]. destruct (c <? 0) eqn:E2; [lia|].
  split; [|intros i j t; reflexivity].
  repeat (f_equal; try lia).
Qed.

Lemma bc_index_same3 e0 e1 e2 i j k :
  0 <= i < e0 -> 0 <= j < e1 -> 0 <= k < e2 ->
  Np.bc_index [e0; e1; e2] [i; j; k] = [i; j; k].
Proof.
  intros Hi Hj Hk. unfold Np.bc_index. cbn [rev app Np.bc_index_rev].
  destruct (e2 =? 1) eqn:E2, (e1 =? 1) eqn:E1, (e0 =? 1) eqn:E0;
    repeat (f_equal; try lia).
Qed.

Lemma write_chunk_spec fr plane lo hi keep o c w w' fr' d0 d1 d2 nb e0 e1 sz nc a :
  plane = "axial"%string \/ plane = "sagittal"%string \/ plane = "coronal"%string ->
  shape fr = [d0; d1; d2; nb] ->
  (e0, e1) = slice_extents plane d0 d1 d2 ->
  shape o = [1; e0; e1; sz; nc] ->
  0 <= d0 -> 0 <= d1 -> 0 <= d2 ->
  Np.slice_bounds lo hi (extent_along plane d0 d1 d2) = (a, keep) ->
  0 <= a -> 0 <= keep <= sz -> 0 <= c ->
  write_chunk fr plane (Np.Slice lo hi) keep (PArr o) c w = (w', Some fr') ->
  forall i j k c', 0 <= i < e0 -> 0 <= j < e1 -> 0 <= k -> 0 <= c' ->
    elt fr' (place plane i j k ++ [c'])
    = if (a <=? k) && (k <? a + keep) && (c' =? c)
      then elt o [0; i; j; k - a; c]
      else elt fr (place plane i j k ++ [c']).
Proof.
  intros Hp Hfr He Ho H0 H1 H2 Hb Ha Hkeep Hc E i j k c' Hi Hj Hk' Hc'.
  destruct Hp as [-> | [-> | ->]]; cbn in He; cbn in Hb; inversion He; subst e0 e1; clear He;
    unfold write_chunk in E;
    cbn [is_plane String.eqb Ascii.eqb Bool.eqb] in E;
    unfold place in *;
    cbn [is_plane String.eqb Ascii.eqb Bool.eqb app] in *;
    apply bind_some in E; destruct E as (w1 & p0 & E1 & E);
    apply lift_some in E1; destruct E1 as [-> F];
    apply bind_some in E; destruct E as (w1 & v & E1 & E);
    apply lift_some in E1; destruct E1 as [-> G];
    (edestruct (head_of_output o) as [Sv Ev]; [exact Ho| | | | |exact F|exact G|];
     try lia).
  - apply lift_some in E. destruct E as [_ S].
    destruct (setitem_spec _ _ _ _ S) as (sel & R & _ & V). rewrite V. clear V.
    rewrite Hfr in R. cbn [Np.resolve Np.All] in R. rewrite Hb in R.
    unfold Np.slice_bounds in R.
    repeat match type of R with
           | context [if ?b then _ else _] =>
               destruct b eqn:?; cbn [option_map] in R; try lia
           end; try discriminate R.
    cbn [option_map] in R. injection R as <-. cbn [Np.sel_locate].
    replace ((0 <=? i) && (i <? 0 + Z.max 0 (d0 - 0))) with true by lia.
    replace ((0 <=? j) && (j <? 0 + Z.max 0 (d1 - 0))) with true by lia.
    destruct ((a <=? k) && (k <? a + keep)) eqn:Ek; cbn [andb option_map];
      [|reflexivity].
    destruct (c' =? c) eqn:Ec; cbn [option_map]; [|reflexivity].
    rewrite Sv, !Z.sub_0_r, bc_index_same3 by lia. apply Ev.
  - apply bind_some in E. destruct E as (w1 & v' & E1 & E).
    apply lift_some in E1. destruct E1 as [-> T].
    apply lift_some in E. destruct E as [_ S].
    unfold Np.transpose, ndim in T. rewrite Sv in T. cbn in T. injection T as <-.
    destruct (setitem_spec _ _ _ _ S) as (sel & R & _ & V). rewrite V. clear V.
    rewrite Hfr in R. cbn [Np.resolve Np.All] in R. rewrite Hb in R.
    unfold Np.slice_bounds in R.
    repeat match type of R with
           | context [if ?b then _ else _] =>
               destruct b eqn:?; cbn [option_map] in R; try lia
           end; try discriminate R.
    cbn [option_map] in R. injection R as <-. cbn [Np.sel_locate].
    replace ((0 <=? i) && (i <? 0 + Z.max 0 (d1 - 0))) with true by lia.
    replace ((0 <=? j) && (j <? 0 + Z.max 0 (d2 - 0))) with true by lia.
    destruct ((a <=? k) && (k <? a + keep)) eqn:Ek; cbn [andb option_map];
      [|reflexivity].
    destruct (c' =? c) eqn:Ec; cbn [option_map]; [|reflexivity].
    cbn [shape elt]. rewrite !Z.sub_0_r, bc_index_same3 by lia.
    cbn. apply Ev.
  - apply bind_some in E. destruct E as (w1 & v' & E1 & E).
    apply lift_some in E1. destruct E1 as [-> T].
    apply lift_some in E. destruct E as [_ S].
    unfold Np.transpose, ndim in T. rewrite Sv in T. cbn in T. injection T as <-.
    destruct (setitem_spec _ _ _ _ S) as (sel & R & _ & V). rewrite V. clear V.
    rewrite Hfr in R. cbn [Np.resolve Np.All] in R. rewrite Hb in R.
    unfold Np.slice_bounds in R.
    repeat match type of R with
           | context [if ?b then _ else _] =>
               destruct b eqn:?; cbn [option_map] in R; try lia
           end; try discriminate R.
    cbn [option_map] in R. injection R as <-. cbn [Np.sel_locate].
    replace ((0 <=? i) && (i <? 0 + Z.max 0 (d0 - 0))) with true by lia.
    replace ((0 <=? j) && (j <? 0 + Z.max 0 (d2 - 0))) with true by lia.
    destruct ((a <=? k) && (k <? a + keep)) eqn:Ek; cbn [andb option_map];
      [|reflexivity].
    destruct (c' =? c) eqn:Ec; cbn [option_map]; [|reflexivity].
    cbn [shape elt]. rewrite !Z.sub_0_r, bc_index_same3 by lia.
    cbn. apply Ev.
Qed.

Lemma write_chunk_other fr plane lo hi keep pred c w w' fr' d0 d1 d2 nb i j k c' a L :
  plane = "axial"%string \/ plane = "sagittal"%string \/ plane = "coronal"%string ->
  shape fr = [d0; d1; d2; nb] ->
  Np.slice_bounds lo hi (extent_along plane d0 d1 d2) = (a, L) ->
  k < a \/ a + L <= k ->
  write_chunk fr plane (Np.Slice lo hi) keep pred c w = (w', Some fr') ->
  elt fr' (place plane i j k ++ [c']) = elt fr (place plane i j k ++ [c']).
Proof.
  intros Hp Hfr Hb Hk E.
  destruct Hp as [-> | [-> | ->]]; cbn in Hb;
    unfold write_chunk in E; unfold place;
    cbn [is_plane String.eqb Ascii.eqb Bool.eqb app] in *;
    apply bind_some in E; destruct E as (w1 & p0 & E1 & E);
    apply bind_some in E; destruct E as (w2 & v & E2 & E).
  2,3: apply bind_some in E; destruct E as (w3 & v' & E3 & E).
  all: apply lift_some in E; destruct E as [_ S];
    destruct (setitem_spec _ _ _ _ S) as (sel & R & _ & V); rewrite V; clear V;
    rewrite Hfr in R; cbn [Np.resolve Np.All] in R; rewrite Hb in R;
    unfold Np.slice_bounds in R;
    repeat match type of R with
           | context [if ?b then _ else _] =>
               destruct b eqn:?; cbn [option_map] in R
           end; try discriminate R;
    cbn [option_map] in R; injection R as <-; cbn [Np.sel_locate];
    replace ((a <=? k) && (k <? a + L)) with false by lia;
    repeat match goal with
           | |- context [(?x <=? ?y) && (?u <? ?v)] =>
               destruct ((x <=? y) && (u <? v)) eqn:?; try reflexivity
           end.
  all: reflexivity.
Qed.

Lemma write_chunk_keeps_shape sh fr plane sl keep pred c w w' fr' :
  shape fr = sh -> write_chunk fr plane sl keep pred c w = (w', Some fr') ->
  shape fr' = sh.
Proof. intros H E. eapply write_chunk_shape; eauto. Qed.

(** The channel loop of one chunk (lines 141-161). *)
Lemma chunk_channels fr plane lo hi keep o w w' fr' d0 d1 d2 nb e0 e1 sz nc a :
  plane = "axial"%string \/ plane = "sagittal"%string \/ plane = "coronal"%string ->
  shape fr = [d0; d1; d2; nb] ->
  (e0, e1) = slice_extents plane d0 d1 d2 ->
  shape o = [1; e0; e1; sz; nc] ->
  0 <= d0 -> 0 <= d1 -> 0 <= d2 ->
  Np.slice_bounds lo hi (extent_along plane d0 d1 d2) = (a, keep) ->
  0 <= a -> 0 <= keep <= sz ->
  for_each (range 0 nc)
    (fun c final_result =>
       write_chunk final_result plane (Np.Slice lo hi) keep (PArr o) c)
    fr w = (w', Some fr') ->
  forall i j k c, 0 <= i < e0 -> 0 <= j < e1 -> 0 <= k -> 0 <= c ->
    elt fr' (place plane i j k ++ [c])
    = if (a <=? k) && (k <? a + keep) && (c <? nc)
      then elt o [0; i; j; k - a; c]
      else elt fr (place plane i j k ++ [c]).
Proof.
  intros Hp Hfr He Ho H0 H1 H2 Hb Ha Hkeep E i j k c Hi Hj Hk' Hc.
  set (P := fun (n : Z) (x : ndarray) =>
              0 <= n /\ shape x = [d0; d1; d2; nb] /\
              elt x (place plane i j k ++ [c])
              = if (a <=? k) && (k <? a + keep) && (c <? n)
                then elt o [0; i; j; k - a; c]
                else elt fr (place plane i j k ++ [c])).
  destruct (Z_lt_le_dec nc 0) as [Hneg|Hnc].
  { rewrite range_empty in E by lia. apply ret_some in E. destruct E as [_ ->].
    replace (c <? nc) with false by lia. rewrite andb_false_r. reflexivity. }
  assert (P nc fr') as (_ & _ & H); [|exact H].
  eapply (for_each_range P _ nc) with (lo := 0); [|reflexivity|lia| |exact E].
  - clear E. intros n x wa wb x' Hn (Hn0 & Hx & IH) E. cbv beta in E.
    split; [lia|]. split; [eapply write_chunk_keeps_shape; eauto|].
    rewrite (write_chunk_spec x plane lo hi keep o n wa wb x' d0 d1 d2 nb e0 e1 sz nc a
               Hp Hx He Ho H0 H1 H2 Hb Ha Hkeep Hn0 E i j k c Hi Hj Hk' Hc).
    rewrite IH.
    destruct ((a <=? k) && (k <? a + keep)); cbn [andb]; [|reflexivity].
    destruct (c <? n) eqn:E2, (c <? n + 1) eqn:E3, (Z.eqb_spec c n) as [E1|E1];
      try lia; try reflexivity.
    subst c. reflexivity.
  - split; [lia|]. split; [exact Hfr|].
    replace (c <? 0) with false by lia. rewrite andb_false_r. reflexivity.
Qed.

Lemma pure_extract_slab data plane lo hi : pure (extract_slab data plane lo hi).
Proof. unfold extract_slab. repeat pure_step. Qed.

(** One chunk of the tiling, taken apart. *)
Lemma chunk_steps data model p pad scale chunk fr unpad w w' st :
  fix_orientation p = false ->
  nonoverlapping_chunk data model p true pad scale chunk (fr, unpad) w
  = (w', Some st) ->
  exists slab o rest nc w1,
    extract_slab data (slicing_plane p) (chunk * training_slab_size p)
      ((chunk + 1) * training_slab_size p) w = (w, Some slab) /\
    model (Np.expand_dims_last (Np.expand_dims_first slab)) = Some (o :: rest) /\
    shape_last (PArr o) = Some nc /\
    snd st = (if (chunk =? scale - 1) && negb (pad =? 0) then true else unpad) /\
    for_each (range 0 nc)
      (fun c final_result =>
         if negb (snd st) then
           write_chunk final_result (slicing_plane p)
             (Np.Sl (chunk * training_slab_size p)
                ((chunk + 1) * training_slab_size p))
             (training_slab_size p) (PArr o) c
         else
           write_chunk final_result (slicing_plane p)
             (Np.From (chunk * training_slab_size p))
             (training_slab_size p - pad) (PArr o) c)
      fr w1 = (w', Some (fst st)).
Proof.
  intros Hfix E. unfold nonoverlapping_chunk in E. cbv zeta in E.
  rewrite Hfix in E.
  apply bind_some in E. destruct E as (w1 & slab & E1 & E).
  pose proof (extract_slab_idle _ _ _ _ _ _ _ E1) as ->.
  apply bind_some in E. destruct E as (w1 & slab' & E2 & E).
  apply ret_some in E2. destruct E2 as [-> ->].
  apply bind_some in E. destruct E as (w1 & outs & E2 & E).
  unfold run in E2. destruct (model _) as [outs'|] eqn:Hmodel; [|discriminate E2].
  inversion E2; subst w1 outs'. clear E2.
  apply bind_some in E. destruct E as (w1 & pred & E2 & E).
  unfold unwrap in E2. apply lift_some in E2. destruct E2 as [-> E2].
  destruct outs as [|o rest]; [discriminate E2|]. cbn [first] in E2.
  injection E2 as <-.
  apply bind_some in E. destruct E as (w1 & pred & E2 & E).
  apply ret_some in E2. destruct E2 as [-> ->].
  apply bind_some in E. destruct E as (w1 & nc & E2 & E).
  apply lift_some in E2. destruct E2 as [-> E2].
  apply bind_some in E. destruct E as (w1 & fr' & E3 & E).
  apply ret_some in E. destruct E as [-> ->]. cbn [fst snd].
  exists slab, o, rest, nc. eexists. repeat split; eauto.
Qed.

Lemma slice_bounds_from a d :
  0 <= a <= d -> Np.slice_bounds (Some a) None d = (a, d - a).
Proof.
  intros H. unfold Np.slice_bounds, Np.slice_index.
  destruct (a <? 0) eqn:E; [lia|]. f_equal; lia.
Qed.

Lemma slice_bounds_start a hi d :
  0 <= a -> 0 <= d -> fst (Np.slice_bounds (Some a) hi d) = Z.min a d.
Proof.
  intros Ha Hd. unfold Np.slice_bounds, Np.slice_index. cbn [fst].
  destruct (a <? 0) eqn:E; [lia|]. reflexivity.
Qed.

Lemma extent_along_nonneg plane d0 d1 d2 :
  0 <= d0 -> 0 <= d1 -> 0 <= d2 -> 0 <= extent_along plane d0 d1 d2.
Proof.
  intros. unfold extent_along.
  destruct (is_plane plane "sagittal"); [lia|].
  destruct (is_plane plane "coronal"); lia.
Qed.

(** A chunk leaves the slices before its own as they are. *)
Lemma chunk_other data model p pad scale chunk fr unpad w w' st d0 d1 d2 nb i j k c :
  slicing_plane p = "axial"%string \/ slicing_plane p = "sagittal"%string
  \/ slicing_plane p = "coronal"%string ->
  fix_orientation p = false ->
  shape fr = [d0; d1; d2; nb] -> 0 <= d0 -> 0 <= d1 -> 0 <= d2 ->
  0 <= chunk * training_slab_size p ->
  k < chunk * training_slab_size p ->
  k < extent_along (slicing_plane p) d0 d1 d2 ->
  nonoverlapping_chunk data model p true pad scale chunk (fr, unpad) w
  = (w', Some st) ->
  elt (fst st) (place (slicing_plane p) i j k ++ [c])
  = elt fr (place (slicing_plane p) i j k ++ [c]).
Proof.
  intros Hp Hfix Hfr H0 H1 H2 Ha Hk Hkd E.
  destruct (chunk_steps _ _ _ _ _ _ _ _ _ _ _ Hfix E)
    as (slab & o & rest & nc & w1 & _ & _ & _ & _ & L).
  pose proof (extent_along_nonneg (slicing_plane p) d0 d1 d2 H0 H1 H2) as Hd.
  eapply (for_each_keeps
            (fun x => shape x = [d0; d1; d2; nb] /\
                      elt x (place (slicing_plane p) i j k ++ [c])
                      = elt fr (place (slicing_plane p) i j k ++ [c])))
    in L; [apply L| |split; [exact Hfr|reflexivity]].
  intros c0 x wa wb x' [Hx IH] B. cbv beta in B.
  destruct (negb (snd st)).
  - split; [eapply write_chunk_keeps_shape; eauto|].
    rewrite <- IH. unfold Np.Sl in B.
    eapply (write_chunk_other x); [exact Hp|exact Hx| | |exact B].
    + apply surjective_pairing.
    + left. rewrite slice_bounds_start by lia. lia.
  - split; [eapply write_chunk_keeps_shape; eauto|].
    rewrite <- IH. unfold Np.From in B.
    eapply (write_chunk_other x); [exact Hp|exact Hx| | |exact B].
    + apply surjective_pairing.
    + left. rewrite slice_bounds_start by lia. lia.
Qed.

(** A chunk writes the prediction over its own slices. *)
Lemma chunk_hit data model p pad scale chunk fr unpad w w' st slab o rest
  d0 d1 d2 nb e0 e1 nc :
  slicing_plane p = "axial"%string \/ slicing_plane p = "sagittal"%string
  \/ slicing_plane p = "coronal"%string ->
  fix_orientation p = false ->
  shape fr = [d0; d1; d2; nb] -> 0 <= d0 -> 0 <= d1 -> 0 <= d2 ->
  0 < training_slab_size p -> 0 <= chunk ->
  extract_slab data (slicing_plane p) (chunk * training_slab_size p)
    ((chunk + 1) * training_slab_size p) w = (w, Some slab) ->
  model (Np.expand_dims_last (Np.expand_dims_first slab)) = Some (o :: rest) ->
  (e0, e1) = slice_extents (slicing_plane p) d0 d1 d2 ->
  shape o = [1; e0; e1; training_slab_size p; nc] ->
  (snd st = false ->
   (chunk + 1) * training_slab_size p <= extent_along (slicing_plane p) d0 d1 d2) ->
  (snd st = true ->
   chunk * training_slab_size p <= extent_along (slicing_plane p) d0 d1 d2 /\
   0 <= pad /\
   training_slab_size p - pad
   = extent_along (slicing_plane p) d0 d1 d2 - chunk * training_slab_size p) ->
  nonoverlapping_chunk data model p true pad scale chunk (fr, unpad) w
  = (w', Some st) ->
  forall i j t c, 0 <= i < e0 -> 0 <= j < e1 -> 0 <= t < training_slab_size p ->
    chunk * training_slab_size p + t < extent_along (slicing_plane p) d0 d1 d2 ->
    0 <= c < nc ->
    elt (fst st) (place (slicing_plane p) i j (chunk * training_slab_size p + t) ++ [c])
    = elt o [0; i; j; t; c].
Proof.
  intros Hp Hfix Hfr H0 H1 H2 Hsz Hch Hslab Hmodel He Ho Hnormal Hlast E
         i j t c Hi Hj Ht Hs Hc.
  destruct (chunk_steps _ _ _ _ _ _ _ _ _ _ _ Hfix E)
    as (slab' & o' & rest' & nc' & w1 & S & M & N & _ & L).
  rewrite Hslab in S. injection S as <-.
  rewrite Hmodel in M. injection M as <- <-.
  cbn [shape_last] in N. rewrite Ho in N. cbn in N. injection N as <-.
  set (sz := training_slab_size p) in *.
  set (d := extent_along (slicing_plane p) d0 d1 d2) in *.
  assert (0 <= chunk * sz) as Ha by nia.
  destruct (snd st) eqn:U; cbn [negb] in L.
  - destruct (Hlast eq_refl) as (Hle & Hpad & Hkeep).
    unfold Np.From in L.
    assert (Np.slice_bounds (Some (chunk * sz)) None d = (chunk * sz, sz - pad))
      as Hb by (rewrite slice_bounds_from by lia; f_equal; lia).
    rewrite (chunk_channels fr (slicing_plane p) (Some (chunk * sz)) None
               (sz - pad) o _ _ (fst st) d0 d1 d2 nb e0 e1 sz nc
               (chunk * sz) Hp Hfr He Ho H0 H1 H2 Hb
               Ha ltac:(lia) L i j (chunk * sz + t) c Hi Hj ltac:(lia) ltac:(lia)).
    replace ((chunk * sz <=? chunk * sz + t)
             && (chunk * sz + t <? chunk * sz + (sz - pad)) && (c <? nc))
      with true by lia.
    f_equal. f_equal. f_equal. f_equal. f_equal. lia.
  - specialize (Hnormal eq_refl). unfold Np.Sl in L.
    assert (Np.slice_bounds (Some (chunk * sz)) (Some ((chunk + 1) * sz)) d
            = (chunk * sz, sz))
      as Hb by (rewrite slice_bounds_inside by lia; f_equal; lia).
    rewrite (chunk_channels fr (slicing_plane p) (Some (chunk * sz))
               (Some ((chunk + 1) * sz)) sz o _ _ (fst st) d0 d1 d2 nb e0 e1 sz nc
               (chunk * sz) Hp Hfr He Ho H0 H1 H2 Hb
               Ha ltac:(lia) L i j (chunk * sz + t) c Hi Hj ltac:(lia) ltac:(lia)).
    replace ((chunk * sz <=? chunk * sz + t)
             && (chunk * sz + t <? chunk * sz + sz) && (c <? nc))
      with true by lia.
    f_equal. f_equal. f_equal. f_equal. f_equal. lia.
Qed.

(** X20. What the tiling writes.  With [predictions_non_overlapping],
    deep supervision and no [fix_orientation], when the padding makes
    the extent a multiple of the slab size, for chunk number [chunk] and
    a first model output [o] of shape (1, e0, e1, slab_size, nc) for it:
    in the volume a call returns, slice [chunk * slab_size + t] of the
    slicing plane holds slice [t] of [o], class by class, for every
    slice of the chunk that lies inside the volume. *)
Theorem X20_tiles_land_on_their_slices
  (data : ndarray) (model : Model) (w w' : world) (r padded slab o : ndarray)
  (rest : list ndarray) (d0 d1 d2 e0 e1 nc scale pad_value chunk : Z) :
  selected_mode (config w) = Slab ->
  predictions_non_overlapping (config w) = true ->
  training_deep_supervision (config w) = true ->
  fix_orientation (config w) = false ->
  slicing_plane (config w) = "axial"%string
  \/ slicing_plane (config w) = "sagittal"%string
  \/ slicing_plane (config w) = "coronal"%string ->
  0 < training_slab_size (config w) ->
  shape data = [d0; d1; d2] ->
  padding_for_inference (Np.expand_dims_last data)
    (training_slab_size (config w)) (slicing_plane (config w))
  = Some (padded, pad_value) ->
  ceil_div (extent_along (slicing_plane (config w)) d0 d1 d2)
    (training_slab_size (config w)) = Some scale ->
  extent_along (slicing_plane (config w)) d0 d1 d2 + pad_value
  = scale * training_slab_size (config w) ->
  0 <= chunk < scale ->
  extract_slab padded (slicing_plane (config w))
    (chunk * training_slab_size (config w))
    ((chunk + 1) * training_slab_size (config w)) w = (w, Some slab) ->
  model (Np.expand_dims_last (Np.expand_dims_first slab)) = Some (o :: rest) ->
  (e0, e1) = slice_extents (slicing_plane (config w)) d0 d1 d2 ->
  shape o = [1; e0; e1; training_slab_size (config w); nc] ->
  run_predictions data model w = (w', Returned r) ->
  forall i j t c,
    0 <= i < e0 -> 0 <= j < e1 -> 0 <= t < training_slab_size (config w) ->
    chunk * training_slab_size (config w) + t
    < extent_along (slicing_plane (config w)) d0 d1 d2 ->
    0 <= c < nc ->
    elt r (place (slicing_plane (config w)) i j
             (chunk * training_slab_size (config w) + t) ++ [c])
    = elt o [0; i; j; t; c].
Proof.
  intros Hm Hnov Hds Hfix Hp Hsz Hs Hpad Hscale Hpv Hch Hslab Hmodel He Ho E
         i j t c Hi Hj Ht Hst Hc.
  unfold run_predictions in E. rewrite Hm, Hds in E.
  unfold __run_predictions_slabbed, try_mode in E.
  destruct (slabbed_body _ _ _ w) as [w1 [a|]] eqn:B; [|discriminate].
  inversion E; subst w1 a. clear E. rewrite slabbed_body_eq in B.
  unfold slabbed_steps in B. cbv zeta in B. rewrite Hnov in B.
  apply bind_some in B. destruct B as (w1 & nas & E1 & B). clear E1.
  apply bind_some in B. destruct B as (w2 & ub & E2 & B).
  apply (upper_boundary_value data _ d0 d1 d2) in E2; [|exact Hs].
  destruct E2 as [-> ->].
  apply bind_some in B. destruct B as (w3 & fr0 & E3 & B).
  apply lift_some in E3. destruct E3 as [-> E3].
  apply bind_some in B. destruct B as (w3 & [padded' pad'] & E4 & B).
  apply lift_some in E4. destruct E4 as [-> E4].
  rewrite Hpad in E4. injection E4 as <- <-.
  apply bind_some in B. destruct B as (w3 & scale' & E5 & B).
  apply lift_some in E5. destruct E5 as [-> E5].
  rewrite Hscale in E5. injection E5 as <-.
  apply bind_some in B. destruct B as (w3 & st & L & B).
  apply ret_some in B. destruct B as [-> ->].
  pose proof (zeros_shape _ _ E3) as Hfr0. rewrite Hs in Hfr0. cbn [app] in Hfr0.
  assert (0 <= d0 /\ 0 <= d1 /\ 0 <= d2) as (H0 & H1 & H2).
  { pose proof (zeros_nonneg _ _ E3) as W. rewrite Hs in W.
    inversion W as [|? ? ? W1]; subst. inversion W1 as [|? ? ? W2]; subst.
    inversion W2; subst. auto. }
  apply ceil_div_bounds in Hscale; [|exact Hsz].
  set (p := config w) in *.
  set (sz := training_slab_size p) in *.
  set (d := extent_along (slicing_plane p) d0 d1 d2) in *.
  set (nb := training_nb_classes p) in *.
  set (P := fun (k : Z) (st : ndarray * bool) =>
              0 <= k /\ shape (fst st) = [d0; d1; d2; nb] /\
              (k <= scale - 1 -> snd st = false) /\
              (chunk < k ->
               elt (fst st) (place (slicing_plane p) i j (chunk * sz + t) ++ [c])
               = elt o [0; i; j; t; c])).
  assert (P scale st) as (_ & _ & _ & H); [|apply H; lia].
  eapply (for_each_range P _ scale) with (lo := 0); [|reflexivity|lia| |exact L].
  - clear L. intros k [fr unpad] wa wb st' Hk (Hk0 & Hfr & Hun & IH) E.
    cbn [fst snd] in Hfr, Hun, IH.
    specialize (Hun ltac:(lia)). subst unpad.
    destruct (chunk_steps _ _ _ _ _ _ _ _ _ _ _ Hfix E)
      as (_ & _ & _ & _ & _ & _ & _ & _ & U & _).
    split; [lia|]. split.
    { eapply (nonoverlapping_chunk_shape _ padded model p true pad_value scale k
                (fr, false)); [exact Hfr|exact E]. }
    split.
    { intros Hk1. rewrite U. replace (k =? scale - 1) with false by lia.
      reflexivity. }
    intros Hck. destruct (Z.eq_dec k chunk) as [->|Hne].
    + assert (extract_slab padded (slicing_plane p) (chunk * sz)
                ((chunk + 1) * sz) wa = (wa, Some slab)) as Hslab'.
      { apply (pure_same _ w w); [apply pure_extract_slab|exact Hslab]. }
      apply (chunk_hit padded model p pad_value scale chunk fr false wa wb st'
               slab o rest d0 d1 d2 nb e0 e1 nc Hp Hfix Hfr H0 H1 H2 Hsz
               ltac:(lia) Hslab' Hmodel He Ho); try assumption; try lia.
      * intros Hu. rewrite U in Hu. fold sz d.
        destruct (chunk =? scale - 1) eqn:E1; cbn [andb] in Hu.
        -- destruct (pad_value =? 0) eqn:E2; [|discriminate Hu]. nia.
        -- nia.
      * intros Hu. rewrite U in Hu. fold sz d.
        destruct (chunk =? scale - 1) eqn:E1; cbn [andb] in Hu; [|discriminate Hu].
        destruct (pad_value =? 0) eqn:E2; [discriminate Hu|]. nia.
    + etransitivity; [|apply IH; lia].
      apply (chunk_other padded model p pad_value scale k fr false wa wb st'
               d0 d1 d2 nb i j (chunk * sz + t) c Hp Hfix Hfr H0 H1 H2);
        try assumption; fold sz d; nia.
  - split; [lia|]. split; [exact Hfr0|]. split; [reflexivity|lia].
Qed.

(** Sagittal chunks of thickness 2 over a (3, 2, 2) volume of
    coordinates: slice 2 of the result holds slice 0 of what the model
    answered for chunk 1. *)
Lemma X20_tiles_land_on_their_slices_witness :
  elt (result_of EdgeCases.tiles) [2; 1; 1; 0]
  = elt EdgeCases.tiles_output [0; 1; 1; 0; 0] /\
  code (elt EdgeCases.tiles_output [0; 1; 1; 0; 0]) = 20101.
Proof.
  split; [|reflexivity].
  refine (X20_tiles_land_on_their_slices EdgeCases.tiles_volume
            (Samples.echo 1) (start EdgeCases.tiles_parameters)
            (fst EdgeCases.tiles) (result_of EdgeCases.tiles)
            EdgeCases.tiles_padded EdgeCases.tiles_slab
            EdgeCases.tiles_output [] 3 2 2 2 2 1 2 1 1
            eq_refl eq_refl eq_refl eq_refl (or_intror (or_introl eq_refl))
            _ eq_refl eq_refl eq_refl eq_refl _ eq_refl eq_refl eq_refl eq_refl
            eq_refl 1 1 0 0 _ _ _ _ _);
    try lia; try (vm_compute; discriminate);
    try (split; vm_compute; first [discriminate|reflexivity]).
Defined.
(** * Further properties of the slab strategy *)

(** ** Inputs of the tiling *)

Lemma extract_slab_yields data plane d0 d1 d2 lo hi :
  shape data = [d0; d1; d2; 1] -> 0 <= d0 -> 0 <= d1 -> 0 <= d2 ->
  plane = "axial"%string \/ plane = "sagittal"%string \/ plane = "coronal"%string ->
  0 <= lo -> lo <= hi -> hi <= extent_along plane d0 d1 d2 ->
  yields (extract_slab data plane lo hi)
    (fun slab => shape slab = [fst (slice_extents plane d0 d1 d2);
                               snd (slice_extents plane d0 d1 d2); hi - lo]).
Proof.
  intros Hs H0 H1 H2 Hp Hlo Hlh Hhi w w' slab E.
  destruct (extract_slab_shape data plane d0 d1 d2 lo hi w Hs H0 H1 H2 Hp Hlo Hlh Hhi)
    as (slab' & E' & S).
  rewrite E' in E. inversion E; subst. exact S.
Qed.

Lemma chunk_inputs data model p ds pad scale chunk st p0 p1 p2 :
  shape data = [p0; p1; p2; 1] -> 0 <= p0 -> 0 <= p1 -> 0 <= p2 ->
  slicing_plane p = "axial"%string \/ slicing_plane p = "sagittal"%string
  \/ slicing_plane p = "coronal"%string ->
  0 <= training_slab_size p -> 0 <= chunk ->
  (chunk + 1) * training_slab_size p <= extent_along (slicing_plane p) p0 p1 p2 ->
  always (fed_with (slab_shape p (fst (slice_extents (slicing_plane p) p0 p1 p2))
                      (snd (slice_extents (slicing_plane p) p0 p1 p2))))
    (nonoverlapping_chunk data model p ds pad scale chunk st).
Proof.
  intros Hs H0 H1 H2 Hp Hsz Hch Hle. unfold nonoverlapping_chunk.
  destruct st as [fr unpad]. cbv zeta.
  eapply always_bind_with.
  - unfold extract_slab. repeat quiet_step.
  - apply (extract_slab_yields data _ p0 p1 p2); try assumption; nia.
  - intros slab Hslab. cbv beta in Hslab.
    replace ((chunk + 1) * training_slab_size p - chunk * training_slab_size p)
      with (training_slab_size p) in Hslab by lia.
    assert (shape (Np.expand_dims_last (Np.expand_dims_first slab))
            = [1; fst (slice_extents (slicing_plane p) p0 p1 p2);
               snd (slice_extents (slicing_plane p) p0 p1 p2);
               training_slab_size p; 1]) as Hin.
    { cbn [Np.expand_dims_last Np.expand_dims_first shape]. rewrite Hslab.
      reflexivity. }
    unfold slab_shape. destruct (fix_orientation p).
    + apply always_bind_lift. intros input' E.
      apply (transpose_window_shape _ _ _ _ _ Hin) in E.
      apply always_bind; [apply fed_run; exact E|]. intros outs.
      repeat quiet_step; unfold write_chunk; repeat quiet_step.
    + apply always_bind_ret.
      apply always_bind; [apply fed_run; exact Hin|]. intros outs.
      repeat quiet_step; unfold write_chunk; repeat quiet_step.
Qed.

(** X21. In the tiling ([predictions_non_overlapping] set) every input the
    model receives is a slab of full thickness: when the padded volume
    reaches the end of the last chunk, each invocation a call makes
    (returning or raising) is on an array with a batch axis, the two
    extents of a slice of the padded volume, [training_slab_size] slices
    (moved in front when [fix_orientation] is set) and a channel axis. *)
Theorem X21_tiling_inputs_are_full_slabs
  (data : ndarray) (model : Model) (w : world) (padded : ndarray)
  (d0 d1 d2 p0 p1 p2 e0 e1 pad_value scale : Z) :
  selected_mode (config w) = Slab ->
  predictions_non_overlapping (config w) = true ->
  slicing_plane (config w) = "axial"%string
  \/ slicing_plane (config w) = "sagittal"%string
  \/ slicing_plane (config w) = "coronal"%string ->
  0 <= training_slab_size (config w) ->
  shape data = [d0; d1; d2] ->
  padding_for_inference (Np.expand_dims_last data)
    (training_slab_size (config w)) (slicing_plane (config w))
  = Some (padded, pad_value) ->
  shape padded = [p0; p1; p2; 1] -> 0 <= p0 -> 0 <= p1 -> 0 <= p2 ->
  ceil_div (extent_along (slicing_plane (config w)) d0 d1 d2)
    (training_slab_size (config w)) = Some scale ->
  scale * training_slab_size (config w)
  <= extent_along (slicing_plane (config w)) p0 p1 p2 ->
  (e0, e1) = slice_extents (slicing_plane (config w)) p0 p1 p2 ->
  fed_with (slab_shape (config w) e0 e1) w ->
  fed_with (slab_shape (config w) e0 e1) (fst (run_predictions data model w)).
Proof.
  intros Hm Hnov Hp Hsz Hs Hpad Hps H0 H1 H2 Hscale Hle He Hw.
  unfold run_predictions. rewrite Hm.
  unfold __run_predictions_slabbed. rewrite fst_try_mode, slabbed_body_eq.
  revert Hw. generalize (training_deep_supervision (config w)) as ds. intros ds.
  enough (always (fed_with (slab_shape (config w) e0 e1))
            (slabbed_steps (config w) data model ds)) as H by apply H.
  revert Hnov Hp Hsz Hpad Hscale Hle He. generalize (config w) as p.
  intros p Hnov Hp Hsz Hpad Hscale Hle He.
  unfold slabbed_steps. cbv zeta. rewrite Hnov.
  apply always_bind.
  { unfold swap_new_axial_size.
    destruct (swap_training_input p); [|apply always_ret].
    destruct (new_axial_size p) as [[|a [|b l]]|]; try apply always_raise.
    intros w0 Hw0. exact Hw0. }
  intros nas.
  eapply (always_bind_with _ (fun ub => ub = extent_along (slicing_plane p) d0 d1 d2)).
  { unfold upper_boundary_of. repeat quiet_step. }
  { intros w0 w1 ub E. eapply upper_boundary_value; eauto. }
  intros ub ->.
  apply always_bind; [apply always_lift|]. intros fr0.
  apply always_bind_lift. intros [padded' pad'] E. rewrite Hpad in E.
  injection E as <- <-.
  apply always_bind_lift. intros scale' E. rewrite Hscale in E. injection E as <-.
  apply always_bind; [|intros st; apply always_ret].
  apply always_for_each_in. intros chunk st Hin. apply in_range in Hin.
  replace e0 with (fst (slice_extents (slicing_plane p) p0 p1 p2))
    by (rewrite <- He; reflexivity).
  replace e1 with (snd (slice_extents (slicing_plane p) p0 p1 p2))
    by (rewrite <- He; reflexivity).
  apply chunk_inputs; try assumption; try lia; nia.
Qed.

(** Sagittal chunks of thickness 2 over a (3, 2, 2) volume, padded to
    four slices. *)
Lemma X21_tiling_inputs_are_full_slabs_witness :
  fed_with [1; 2; 2; 2; 1] (fst EdgeCases.tiles).
Proof.
  apply (X21_tiling_inputs_are_full_slabs EdgeCases.tiles_volume
           (Samples.echo 1) (start EdgeCases.tiles_parameters)
           EdgeCases.tiles_padded 3 2 2 4 2 2 2 2 1 2);
    try reflexivity; try lia; try (vm_compute; discriminate).
  - right. left. reflexivity.
  - apply Forall_nil.
Defined.

(** ** Thin slices and several classes *)

(** A loop raises when one of its iterations does, whatever it is given. *)
Lemma for_each_fails {S} (I : S -> Prop) (body : Z -> S -> M S) s :
  (forall x w, I x -> snd (body s x w) = None) ->
  (forall k x w w' x', I x -> body k x w = (w', Some x') -> I x') ->
  forall l x w, In s l -> I x -> snd (for_each l body x w) = None.
Proof.
  intros Hs Hb l. induction l as [|k l IH]; intros x w Hin Hx; [destruct Hin|].
  cbn [for_each]. unfold bind.
  destruct (body k x w) as [w1 [x1|]] eqn:E.
  - destruct Hin as [->|Hin].
    + pose proof (Hs x w Hx) as F. rewrite E in F. discriminate F.
    + apply IH; [exact Hin|]. eapply Hb; eauto.
  - reflexivity.
Qed.

Lemma bind_fails {A B} (m : M A) (f : A -> M B) w :
  (forall w1 a, m w = (w1, Some a) -> snd (f a w1) = None) ->
  snd (bind m f w) = None.
Proof.
  intros H. unfold bind. destruct (m w) as [w1 [a|]] eqn:E; [|reflexivity].
  apply H. reflexivity.
Qed.

Lemma prediction_column_classes o h wd nc c v :
  shape o = [1; h; wd; nc] -> 0 <= nc ->
  Np.getitem o [Np.All; Np.All; Np.At c] = Some v ->
  exists a b, shape v = [a; b; nc].
Proof.
  intros Hs Hn H. unfold Np.getitem in H. rewrite Hs in H.
  cbn [Np.resolve Np.All] in H. unfold Np.slice_bounds in H.
  destruct ((- wd <=? c) && (c <? wd)); [|discriminate H].
  cbn in H. inversion H. cbn [shape Np.sel_shape].
  exists (Z.max 0 (1 - 0)), (Z.max 0 (h - 0)). repeat (f_equal; try lia).
Qed.

(** With several classes that are not as many as the volume has columns,
    the write of a thin slice cannot be broadcast. *)
Lemma single_slice_fails data model n0 n1 s fr w slab input o rest
  d0 d1 d2 nb h wd nc :
  Np.getitem data [Np.All; Np.All; Np.At s; Np.At 0] = Some slab ->
  Np.count_gt slab vtenth <> 0 ->
  Np.reshape slab [1; n0; n1; 1] = Some input ->
  model input = Some (o :: rest) ->
  shape o = [1; h; wd; nc] -> 0 < nc -> nc <> 1 -> nc <> d1 ->
  shape fr = [d0; d1; d2; nb] ->
  snd (single_slice data model (Some [n0; n1]) true s fr w) = None.
Proof.
  intros Hslab Hcount Hre Hmodel Ho Hnc Hn1 Hnd Hfr.
  unfold single_slice. unfold bind at 1. unfold lift at 1. rewrite Hslab.
  destruct (Np.count_gt slab vtenth =? 0) eqn:C; [lia|].
  unfold bind at 1. unfold lift at 1.
  cbn [nth_error]. unfold bind at 1. unfold lift at 1.
  unfold bind at 1. unfold lift at 1.
  unfold bind at 1. unfold lift at 1. rewrite Hre.
  unfold bind at 1. unfold run. rewrite Hmodel.
  unfold bind at 1. unfold unwrap, lift at 1. cbn [first].
  unfold bind at 1. unfold lift at 1. cbn [shape_last]. rewrite Ho.
  cbn [rev app].
  rewrite range_cons by lia. cbn [for_each].
  apply bind_fails. intros w1 fr' E. exfalso.
  apply bind_some in E. destruct E as (w2 & v & G & S).
  apply lift_some in G. destruct G as [-> G]. apply lift_some in S. destruct S as [_ S].
  cbn [pygetitem] in G.
  destruct (prediction_column_classes o h wd nc 0 v Ho ltac:(lia) G) as (a & b & Sv).
  unfold Np.setitem in S. rewrite Hfr in S. cbn [Np.resolve Np.All] in S.
  unfold Np.slice_bounds in S.
  repeat match type of S with
         | context [if ?b then _ else _] =>
             destruct b eqn:?; cbn [option_map] in S
         end; try discriminate S.
  all: unfold Np.broadcast_to in S; rewrite Sv in S;
    cbn [Np.sel_shape rev app Np.bc_ok_rev map] in S;
    destruct ((nc =? Z.max 0 (d1 - 0)) || (nc =? 1)) eqn:K; [lia|];
    cbn [andb] in S; discriminate S.
Qed.

(** X22. The thin slices need one class.  In the sliding window of
    thickness 1 with deep supervision, when the model answers a slice
    that is not passed over with [nc] classes, [nc] being neither 1 nor
    the number of columns of the volume, the write of line 176 cannot be
    broadcast and the call raises the [ValueError] of the mode. *)
Theorem X22_thin_slices_need_one_class
  (data : ndarray) (model : Model) (w : world) (slab input o : ndarray)
  (rest : list ndarray) (d0 d1 d2 n0 n1 h wd nc s : Z) :
  new_axial_size (config w) = Some [n0; n1] ->
  predictions_non_overlapping (config w) = false ->
  training_slab_size (config w) = 1 ->
  training_deep_supervision (config w) = true ->
  shape data = [d0; d1; d2] -> 0 <= s < d2 ->
  Np.getitem (Np.expand_dims_last data) [Np.All; Np.All; Np.At s; Np.At 0]
  = Some slab ->
  Np.count_gt slab vtenth <> 0 ->
  Np.reshape slab (window_shape (config w) n0 n1) = Some input ->
  model input = Some (o :: rest) ->
  shape o = [1; h; wd; nc] -> 0 < nc -> nc <> 1 -> nc <> d1 ->
  snd (run_predictions data model w)
  = Raised (ValueError (mode_message "slab")).
Proof.
  intros Hn Hnov Hslab Hds Hs Hsl Hget Hcount Hre Hmodel Ho Hnc Hn1 Hnd.
  assert (selected_mode (config w) = Slab) as Hm.
  { unfold selected_mode. rewrite Hn. reflexivity. }
  unfold run_predictions. rewrite Hm, Hds.
  unfold __run_predictions_slabbed, try_mode.
  assert (snd (slabbed_body data model true w) = None) as F;
    [|destruct (slabbed_body data model true w) as [w1 [a|]];
      [discriminate F|reflexivity]].
  rewrite slabbed_body_eq. unfold slabbed_steps. cbv zeta.
  rewrite Hnov, Hslab. cbn [Z.eqb Pos.eqb].
  apply bind_fails. intros w1 nas E1.
  assert (nas = Some (if swap_training_input (config w)
                      then [n1; n0] else [n0; n1])) as ->.
  { unfold swap_new_axial_size in E1. rewrite Hn in E1.
    destruct (swap_training_input (config w)); inversion E1; reflexivity. }
  clear E1.
  apply bind_fails. intros w2 ub _.
  apply bind_fails. intros w3 fr0 E3. apply lift_some in E3. destruct E3 as [-> E3].
  apply bind_fails. intros w3 n E4. apply lift_some in E4. destruct E4 as [-> E4].
  cbn [Np.expand_dims_last shape] in E4. rewrite Hs in E4. cbn in E4.
  injection E4 as <-.
  pose proof (zeros_shape _ _ E3) as Hfr0. rewrite Hs in Hfr0. cbn [app] in Hfr0.
  unfold window_shape in Hre. rewrite Hslab in Hre. cbn [Z.eqb Pos.eqb] in Hre.
  apply (for_each_fails
           (fun x => shape x = [d0; d1; d2; training_nb_classes (config w)])
           _ s).
  - intros x wa Hx.
    destruct (swap_training_input (config w));
      eapply single_slice_fails; eauto.
  - intros k x wa wb x' Hx E. eapply single_slice_shape; eauto.
  - apply in_range. lia.
  - exact Hfr0.
Qed.

(** A model with three classes over a volume with two columns. *)
Lemma X22_thin_slices_need_one_class_witness :
  snd EdgeCases.three_classes
  = Raised (ValueError "Segmentation inference (slab mode) could not fully proceed.").
Proof.
  apply (X22_thin_slices_need_one_class SagittalScenario.volume
           (Samples.echo 3) (start SagittalScenario.parameters)
           EdgeCases.thin_slab EdgeCases.thin_input
           EdgeCases.three_classes_output [] 2 2 4 2 2 2 2 3 1);
    try reflexivity; try lia; vm_compute; discriminate.
Defined.

(** ** Slicing planes without a name *)

Lemma extract_slab_unknown data plane lo hi w w' a :
  is_plane plane "axial" = false -> is_plane plane "sagittal" = false ->
  is_plane plane "coronal" = false ->
  extract_slab data plane lo hi w = (w', Some a) -> False.
Proof.
  intros Ha Hs Hc E. unfold extract_slab in E. rewrite Ha, Hs, Hc in E.
  discriminate E.
Qed.

(** X23. A slicing plane that is none of "axial", "sagittal" and
    "coronal" leaves the slab without a value (lines 121-128 and
    183-190), so the tiling and the sliding window of a thickness other
    than 1 raise at their first iteration: a call that returns has not
    invoked the model, and every probability it returns is zero. *)
Theorem X23_unknown_plane_predicts_nothing (data : ndarray) (model : Model)
  (w w' : world) (r : ndarray) :
  selected_mode (config w) = Slab ->
  predictions_non_overlapping (config w) = true
  \/ training_slab_size (config w) <> 1 ->
  is_plane (slicing_plane (config w)) "axial" = false ->
  is_plane (slicing_plane (config w)) "sagittal" = false ->
  is_plane (slicing_plane (config w)) "coronal" = false ->
  run_predictions data model w = (w', Returned r) ->
  calls w' = calls w /\ forall idx, elt r idx = vzero.
Proof.
  intros Hm Hsub Ha Hs Hc E. unfold run_predictions in E. rewrite Hm in E.
  unfold __run_predictions_slabbed, try_mode in E.
  destruct (slabbed_body _ _ _ w) as [w1 [a|]] eqn:B; [|discriminate].
  inversion E; subst w1 a. clear E. rewrite slabbed_body_eq in B.
  unfold slabbed_steps in B. cbv zeta in B.
  apply bind_some in B. destruct B as (w1 & nas & E1 & B).
  apply swap_keeps_calls in E1. rewrite <- E1.
  apply bind_some in B. destruct B as (w2 & ub & E2 & B).
  apply upper_boundary_idle in E2. subst w2.
  apply bind_some in B. destruct B as (w2 & fr0 & E3 & B).
  apply lift_some in E3. destruct E3 as [-> E3].
  assert (w' = w1 /\ r = fr0) as [-> ->];
    [|split; [reflexivity|intros idx; apply (zeros_elt _ _ _ E3)]].
  destruct (predictions_non_overlapping (config w)).
  - apply bind_some in B. destruct B as (w2 & [padded pad_value] & E4 & B).
    apply lift_some in E4. destruct E4 as [-> E4].
    apply bind_some in B. destruct B as (w2 & scale & E5 & B).
    apply lift_some in E5. destruct E5 as [-> E5].
    apply bind_some in B. destruct B as (w2 & st & E6 & B).
    apply ret_some in B. destruct B as [-> ->].
    apply for_each_idle in E6.
    + destruct E6 as [-> ->]. split; reflexivity.
    + intros i [fr unpad] w0 w0' s' H. exfalso.
      unfold nonoverlapping_chunk in H. cbv zeta in H.
      apply bind_some in H. destruct H as (w3 & slab & H & _).
      eapply extract_slab_unknown; eauto.
  - destruct Hsub as [Hsub|Hsub]; [discriminate Hsub|].
    replace (training_slab_size (config w) =? 1) with false in B by lia.
    apply bind_some in B. destruct B as (w2 & padded & E4 & B).
    apply lift_some in E4. destruct E4 as [-> E4].
    apply for_each_idle in B; [exact B|].
    intros i s w0 w0' s' H. exfalso.
    unfold window_slice in H. cbv zeta in H.
    apply bind_some in H. destruct H as (w3 & input & H & _).
    unfold window_input in H.
    apply bind_some in H. destruct H as (w4 & slab & H & _).
    eapply extract_slab_unknown; eauto.
Qed.

(** A volume of one slice under windows of thickness 2: the loop has no
    iteration. *)
Lemma X23_unknown_plane_predicts_nothing_witness :
  calls (fst EdgeCases.oblique) = [] /\
  elt (result_of EdgeCases.oblique) [1; 1; 0; 0] = vzero.
Proof.
  destruct (X23_unknown_plane_predicts_nothing (Samples.ramp [2; 2; 1] 2)
              (Samples.echo 1) (start EdgeCases.oblique_parameters)
              (fst EdgeCases.oblique) (result_of EdgeCases.oblique)
              eq_refl) as [E V]; try reflexivity.
  - right. vm_compute. discriminate.
  - split; [exact E|apply V].
Defined.
